(** * prometheus_client.multiprocess: collection, compaction and death
      bookkeeping of per-process metric stores

    A shallow embedding of [src/prometheus_client/multiprocess.py]:
    [MultiProcessCollector.__init__] and [collect], [mark_process_dead],
    [compact] and [flocking], followed by the properties of the
    specification that are about them and by further properties of the
    code: outcomes and failures, frames, conservation, the lock protocol.

    Conventions of the embedding.
    - Sample values are Python floats.  The code only uses [0.0], [+], [<],
      [>] and (as dictionary keys) [==] on them; these four operations are
      the interface [Arith], instantiated by IEEE-754 binary64
      ([binary64], Rocq's primitive floats).
    - A Python [dict] is an insertion-ordered association list ([od_get],
      [od_set], ...), as in CPython 3.7 and later.
    - A store key is the JSON text of
      [(metric_name, name, labelnames, labelvalues)]; it is modelled decoded,
      as the record [Key] ([json.loads] and [json.dumps] are inverse on the
      canonical encodings the writers produce).
    - File names are the base names inside the multiprocess directory, the
      one the environment variable [prometheus_multiproc_dir] names:
      [compact] always works there, and a [path] argument of
      [mark_process_dead] that names another directory is outside the
      model.
    - Exceptions are values of [exn]; effectful code runs in the monad [M]
      (state of the directory, plus an event trace of the system calls). *)

From Stdlib Require Import List String Ascii ZArith Lia Bool.
From Stdlib Require Import Permutation Sorting.Sorted.
From Stdlib Require Import Floats.
Import ListNotations.
Local Open Scope string_scope.
Local Open Scope list_scope.

Set Implicit Arguments.

(* ================================================================== *)
(** ** Python runtime: exceptions, strings, indexing *)

Inductive exn : Type :=
| IndexError
| ValueError
| IOError (errno : Z).

Inductive result (A : Type) : Type :=
| Ok (a : A)
| Raise (e : exn).
Arguments Ok {A} a.
Arguments Raise {A} e.

Definition rbind {A B} (r : result A) (k : A -> result B) : result B :=
  match r with
  | Ok a => k a
  | Raise e => Raise e
  end.

(** [errno.EWOULDBLOCK] (Linux). *)
Definition EWOULDBLOCK : Z := 11.
(** [errno.ENOENT]. *)
Definition ENOENT : Z := 2.

(** [s.split(sep)] for a one-character separator. *)
Fixpoint split (sep : ascii) (s : string) : list string :=
  match s with
  | EmptyString => [EmptyString]
  | String c s' =>
      if Ascii.eqb c sep then EmptyString :: split sep s'
      else match split sep s' with
           | [] => [String c EmptyString]
           | w :: ws => String c w :: ws
           end
  end.

(** [parts[i]]: raises [IndexError] out of range. *)
Definition index {A} (l : list A) (i : nat) : result A :=
  match nth_error l i with
  | Some a => Ok a
  | None => Raise IndexError
  end.

(** [fn.startswith(p)]. *)
Definition startswith (fn p : string) : bool := String.prefix p fn.

(** [zip(xs, ys)]: stops at the shorter argument. *)
Definition zip {A B} (xs : list A) (ys : list B) : list (A * B) := combine xs ys.

(* ================================================================== *)
(** ** Python dictionaries (insertion ordered) *)

Section OrderedDict.
Context {K A : Type} (keq : K -> K -> bool).

(** [d.get(k)] *)
Fixpoint od_get (d : list (K * A)) (k : K) : option A :=
  match d with
  | [] => None
  | (k', a) :: d' => if keq k' k then Some a else od_get d' k
  end.

(** [d[k] = a]: an existing entry keeps its key object and its position,
    a new one goes last. *)
Fixpoint od_set (d : list (K * A)) (k : K) (a : A) : list (K * A) :=
  match d with
  | [] => [(k, a)]
  | (k', a') :: d' =>
      if keq k' k then (k', a) :: d' else (k', a') :: od_set d' k a
  end.

(** [d.setdefault(k, a)]: the value now stored under [k], and the
    dictionary. *)
Definition od_setdefault (d : list (K * A)) (k : K) (a : A) : A * list (K * A) :=
  match od_get d k with
  | Some a' => (a', d)
  | None => (a, od_set d k a)
  end.

(** [del d[k]] (no error when absent: used for [os.unlink] bookkeeping only
    after the file is known to exist). *)
Fixpoint od_del (d : list (K * A)) (k : K) : list (K * A) :=
  match d with
  | [] => []
  | (k', a') :: d' => if keq k' k then d' else (k', a') :: od_del d' k
  end.

End OrderedDict.

(** [dict(pairs)]: later pairs overwrite earlier ones. *)
Definition dict_of {K A} (keq : K -> K -> bool) (pairs : list (K * A)) : list (K * A) :=
  fold_left (fun d p => od_set keq d (fst p) (snd p)) pairs [].

(* ================================================================== *)
(** ** Sample values *)

(** The arithmetic the code performs on sample values. *)
Class Arith (V : Type) : Type := {
  vzero : V;                  (* 0.0 *)
  vadd : V -> V -> V;         (* x + y *)
  vltb : V -> V -> bool;      (* x < y *)
  veqb : V -> V -> bool       (* x == y *)
}.

Declare Scope value_scope.
Delimit Scope value_scope with v.
Infix "+." := vadd (at level 50, left associativity) : value_scope.
Infix "<." := vltb (at level 69, no associativity) : value_scope.
Notation "x >. y" := (vltb y x) (at level 69, no associativity, only parsing)
  : value_scope.
Infix "==." := veqb (at level 69, no associativity) : value_scope.
Local Open Scope value_scope.

(** Python floats: IEEE-754 binary64, round to nearest even. *)
#[export] Instance binary64 : Arith float := {|
  vzero := 0%float;
  vadd := PrimFloat.add;
  vltb := PrimFloat.ltb;
  veqb := PrimFloat.eqb
|}.

(** Exact integer arithmetic: the idealisation in which no addition
    rounds. *)
#[export] Instance exactZ : Arith Z := {|
  vzero := 0%Z;
  vadd := Z.add;
  vltb := Z.ltb;
  veqb := Z.eqb
|}.

(** Python's builtin [min(a, b)] and [max(a, b)]: the first argument is
    kept unless the second is strictly smaller (larger). *)
Definition py_min {V} `{Arith V} (a b : V) : V := if b <. a then b else a.
Definition py_max {V} `{Arith V} (a b : V) : V := if b >. a then b else a.

(** Python's builtin [sum]: a left fold of [+]; the code's accumulators
    start from [0.0]. *)
Definition py_sum {V} `{Arith V} (vs : list V) : V := fold_left vadd vs vzero.

(* ================================================================== *)
(** ** Store keys and labels *)

Definition labels : Type := list (string * string).

Record Key : Type := mkKey {
  metric_name : string;
  sample_name : string;
  labelnames : list string;
  labelvalues : list string
}.

Definition list_eqb {A} (eqb : A -> A -> bool) : list A -> list A -> bool :=
  fix go (xs ys : list A) : bool :=
    match xs, ys with
    | [], [] => true
    | x :: xs', y :: ys' => eqb x y && go xs' ys'
    | _, _ => false
    end.

Definition pair_eqb {A B} (ea : A -> A -> bool) (eb : B -> B -> bool)
  (p q : A * B) : bool :=
  ea (fst p) (fst q) && eb (snd p) (snd q).

Definition labels_eqb : labels -> labels -> bool :=
  list_eqb (pair_eqb String.eqb String.eqb).

Definition key_eqb (k1 k2 : Key) : bool :=
  String.eqb (metric_name k1) (metric_name k2)
  && String.eqb (sample_name k1) (sample_name k2)
  && list_eqb String.eqb (labelnames k1) (labelnames k2)
  && list_eqb String.eqb (labelvalues k1) (labelvalues k2).

(** A sample key of the collector: [(name, labels)]. *)
Definition skey : Type := string * labels.
Definition skey_eqb : skey -> skey -> bool := pair_eqb String.eqb labels_eqb.

(* ================================================================== *)
(** ** The store collaborator ([core._MmapedDict]) *)

(** Modelled from the spec: [core._MmapedDict] is not part of the sources.
    Section 6 gives its contract: [readAllValues()] yields all (key, value)
    pairs; [readValue(key, initializeIfAbsent)] yields the stored value, or
    an unset sentinel when the key is absent and initialisation is
    suppressed, or a default-to-zero value otherwise; [writeValue(key,
    value)] is an upsert.  A store is the list of its rows in file order. *)
Definition Store (V : Type) : Type := list (Key * V).

Section StoreOps.
Context {V : Type} `{Arith V}.

(** Modelled from the spec: [d.read_all_values()]. *)
Definition read_all_values (d : Store V) : list (Key * V) := d.

(** Modelled from the spec: [d.read_value(key)], initialising an absent key
    with [0.0] and returning it. *)
Definition read_value (d : Store V) (key : Key) : V * Store V :=
  match od_get key_eqb d key with
  | Some v => (v, d)
  | None => (vzero, od_set key_eqb d key vzero)
  end.

(** Modelled from the spec: [d.read_value(key, init=False)]: [None] is the
    unset sentinel; the store is left as it is. *)
Definition read_value_noinit (d : Store V) (key : Key) : option V :=
  od_get key_eqb d key.

(** Modelled from the spec: [d.write_value(key, value)]. *)
Definition write_value (d : Store V) (key : Key) (value : V) : Store V :=
  od_set key_eqb d key value.

(* ------------------------------------------------------------------ *)
(** *** The merge loop of [compact] (lines 142-160) *)

(** [json.dumps((metric_name, name, labelnames+['pid'], labelvalues+[pid]))] *)
Definition rekey (key : Key) (pid : string) : Key :=
  mkKey (metric_name key) (sample_name key)
        (labelnames key ++ ["pid"]) (labelvalues key ++ [pid]).

(** [mm == s], where [mm] is a string or [None]. *)
Definition mode_is (mm : option string) (s : string) : bool :=
  match mm with
  | Some m => String.eqb m s
  | None => false
  end.

(** One iteration of [for key, value in src.read_all_values()]. *)
Definition merge_row (typ : string) (mm : option string) (pid : string)
  (dst : Store V) (row : Key * V) : Store V :=
  let (key, value) := row in
  if String.eqb typ "gauge" then
    if mode_is mm "min" then
      match read_value_noinit dst key with
      | None => write_value dst key value
      | Some vnow => if value <. vnow then write_value dst key value else dst
      end
    else if mode_is mm "max" then
      (* [mm == 'max' and value > dst.read_value(key)] *)
      let (v0, dst1) := read_value dst key in
      if value >. v0 then
        match read_value_noinit dst1 key with
        | None => write_value dst1 key value
        | Some vnow => if value >. vnow then write_value dst1 key value else dst1
        end
      else
        (* the remaining [elif mm == 'all'] is false *)
        dst1
    else if mode_is mm "all" then
      write_value dst (rekey key pid) value
    else dst
  else
    let (v0, dst1) := read_value dst key in
    write_value dst1 key (v0 +. value).

Definition merge_rows (typ : string) (mm : option string) (pid : string)
  (src dst : Store V) : Store V :=
  fold_left (merge_row typ mm pid) (read_all_values src) dst.

End StoreOps.

(* ================================================================== *)
(** ** The directory, advisory locks and the effect monad *)

Inductive lock_op : Type :=
| LOCK_SH
| LOCK_EX
| LOCK_EX_NB.   (* LOCK_EX|LOCK_NB *)

Inductive flock_outcome : Type :=
| Acquired
| Failed (errno : Z).

(** The system calls the module makes, as they appear in a trace. *)
Inductive event : Type :=
| EvOpen (f : string)
| EvFlock (f : string) (op : lock_op)    (* a granted lock *)
| EvClose (f : string)                   (* closes the handle, drops its lock *)
| EvRemove (f : string)                  (* os.remove / os.unlink *)
| EvCompact (f : string).                (* entry into compact(f) *)

(** The state of the multiprocess directory as one process sees it:
    the [*.db] stores by name, what [fcntl.flock] answers for a file and an
    operation (other processes' locks are behind this oracle), and the
    system calls made so far, newest first. *)
Record World (V : Type) : Type := mkWorld {
  files : list (string * Store V);
  flock_env : string -> lock_op -> flock_outcome;
  trace : list event
}.
Arguments mkWorld {V} files flock_env trace.

Definition M (V A : Type) : Type := World V -> result A * World V.

Section Effects.
Context {V : Type} `{Arith V}.

Definition ret {A} (a : A) : M V A := fun w => (Ok a, w).

Definition raise {A} (e : exn) : M V A := fun w => (Raise e, w).

Definition bind {A B} (m : M V A) (k : A -> M V B) : M V B :=
  fun w =>
    match m w with
    | (Ok a, w') => k a w'
    | (Raise e, w') => (Raise e, w')
    end.

(** [try: body finally: cleanup], the exit path of a [with] block. *)
Definition finally {A} (body : M V A) (cleanup : M V unit) : M V A :=
  fun w =>
    let (r, w1) := body w in
    let (_, w2) := cleanup w1 in
    (r, w2).

(** [try: body except IOError as err: handler(err.errno)] *)
Definition catch_IOError {A} (body : M V A) (handler : Z -> M V A) : M V A :=
  fun w =>
    match body w with
    | (Raise (IOError errno), w') => handler errno w'
    | rw => rw
    end.

Definition lift {A} (r : result A) : M V A := fun w => (r, w).

Definition emit (e : event) : M V unit :=
  fun w => (Ok tt, mkWorld (files w) (flock_env w) (e :: trace w)).

Definition get_files : M V (list (string * Store V)) :=
  fun w => (Ok (files w), w).

Definition put_files (fs : list (string * Store V)) : M V unit :=
  fun w => (Ok tt, mkWorld fs (flock_env w) (trace w)).

End Effects.

Declare Scope monad_scope.
Delimit Scope monad_scope with monad.
Notation "x <- m ;; k" := (bind m (fun x => k))
  (at level 61, m at next level, right associativity) : monad_scope.
Notation "m ;; k" := (bind m (fun _ => k))
  (at level 61, right associativity) : monad_scope.
Local Open Scope monad_scope.

Section Bookkeeping.
Context {V : Type} `{Arith V}.

(** [fcntl.flock(fh.fileno(), op)]: raises [IOError] when not granted. *)
Definition flock (f : string) (op : lock_op) : M V unit :=
  fun w =>
    match flock_env w f op with
    | Acquired => emit (EvFlock f op) w
    | Failed errno => (Raise (IOError errno), w)
    end.

(** [with open(f, 'rb') as lfh: body]: the file must exist; the handle is
    closed on every exit path. *)
Definition with_open_rb {A} (f : string) (body : M V A) : M V A :=
  fs <- get_files ;;
  match od_get String.eqb fs f with
  | None => raise (IOError ENOENT)
  | Some _ => emit (EvOpen f) ;; finally body (emit (EvClose f))
  end.

(** [flocking(fn, op)] (lines 167-171) around the block [body]:
    [open(fn, 'ab+')] creates the coordination file when needed; the lock
    goes with the handle when the [with] block is left. *)
Definition flocking {A} (fn : string) (op : lock_op) (body : M V A) : M V A :=
  emit (EvOpen fn) ;;
  finally (flock fn op ;; body) (emit (EvClose fn)).

(** [os.remove(f)] and [os.unlink(f)]. *)
Definition os_remove (f : string) : M V unit :=
  fs <- get_files ;;
  match od_get String.eqb fs f with
  | None => raise (IOError ENOENT)
  | Some _ => emit (EvRemove f) ;; put_files (od_del String.eqb fs f)
  end.

(** Modelled from the spec: [core._MmapedDict(f, read_mode=True)] opens an
    existing store for reading. *)
Definition mmap_open_read (f : string) : M V (Store V) :=
  fs <- get_files ;;
  match od_get String.eqb fs f with
  | None => raise (IOError ENOENT)
  | Some d => ret d
  end.

(** Modelled from the spec: [core._MmapedDict(f)] opens the store,
    creating it empty when absent. *)
Definition mmap_open (f : string) : M V (Store V) :=
  fs <- get_files ;;
  match od_get String.eqb fs f with
  | None => put_files (od_set String.eqb fs f []) ;; ret []
  | Some d => ret d
  end.

(** The writes made through the mapping of [f] reach the file. *)
Definition mmap_flush (f : string) (d : Store V) : M V unit :=
  fs <- get_files ;;
  put_files (od_set String.eqb fs f d).

(** [if mm:] *)
Definition truthy (mm : option string) : bool :=
  match mm with
  | Some EmptyString => false
  | Some _ => true
  | None => false
  end.

(** The archive of a class: ['{0}_{1}_archived.db'.format(typ, mm)] or
    ['{0}_archived.db'.format(typ)]. *)
Definition archive_name (typ : string) (mm : option string) : string :=
  match mm with
  | Some m => if truthy mm then typ ++ "_" ++ m ++ "_archived.db"
              else typ ++ "_archived.db"
  | None => typ ++ "_archived.db"
  end.

(** [compact(srcf)] (lines 124-164). *)
Definition compact (srcf : string) : M V unit :=
  emit (EvCompact srcf) ;;
  flocking "compacting" LOCK_EX (
    let parts := split "_" srcf in
    typ <- lift (index parts 0) ;;
    mm <- (if String.eqb typ "gauge"
           then p <- lift (index parts 1) ;; ret (Some p)
           else ret None) ;;
    pid <- lift (if String.eqb typ "gauge" then index parts 2 else index parts 1) ;;
    let dstf := archive_name typ mm in
    src <- mmap_open_read srcf ;;
    dst <- mmap_open dstf ;;
    mmap_flush dstf (merge_rows typ mm pid src dst) ;;
    os_remove srcf).

(** The body of the loop of [mark_process_dead] (lines 107-121) for one
    matched file. *)
Definition mark_file_dead (f : string) : M V unit :=
  locked <- with_open_rb f
              (catch_IOError
                 (flock f LOCK_EX_NB ;; ret true)
                 (fun errno =>
                    if negb (Z.eqb errno EWOULDBLOCK) then raise (IOError errno)
                    else (* continue *) ret false)) ;;
  if locked then
    if startswith f "gauge_live" then os_remove f else compact f
  else ret tt.

(** [mark_process_dead(pid, path)] (lines 102-121), given the files
    [glob.glob(os.path.join(path, '*_{0}_*.db'.format(pid)))] returned. *)
Fixpoint mark_process_dead (matched : list string) : M V unit :=
  match matched with
  | [] => ret tt
  | f :: rest => mark_file_dead f ;; mark_process_dead rest
  end.

End Bookkeeping.

(* ================================================================== *)
(** ** The collector *)

(** Floats as text.  [float(s)] is Python's builtin (it raises [ValueError]
    on text that is no number: [None] here); [core._floatToGoString] belongs
    to a module that is not part of the sources and is taken as a
    parameter. *)
Class FloatText (V : Type) : Type := {
  pyfloat : string -> option V;
  floatToGoString : V -> string
}.

(** A sample of a metric: [(name, labels, value)]. *)
Definition sample (V : Type) : Type := (string * labels * V)%type.

(** Modelled from the spec: [core.Metric] is not part of the sources.  An
    AggregatedMetric has a name, a documentation, a type, the gauge mode
    (the attribute [_multiprocess_mode], [None] while it is absent) and the
    ordered list of its samples. *)
Record Metric (V : Type) : Type := mkMetric {
  name : string;
  documentation : string;
  type : string;
  _multiprocess_mode : option string;
  samples : list (sample V)
}.
Arguments mkMetric {V} name documentation type _multiprocess_mode samples.

Section Collector.
Context {V : Type} `{Arith V} `{FloatText V}.

(** Modelled from the spec: [metric.add_sample(name, labels, value)]
    appends to the ordered list of samples. *)
Definition add_sample (metric : Metric V) (nm : string) (ls : labels) (value : V)
  : Metric V :=
  mkMetric (name metric) (documentation metric) (type metric)
           (_multiprocess_mode metric) (samples metric ++ [(nm, ls, value)]).

Definition set_multiprocess_mode (metric : Metric V) (mode : string) : Metric V :=
  mkMetric (name metric) (documentation metric) (type metric)
           (Some mode) (samples metric).

Definition set_samples (metric : Metric V) (ss : list (sample V)) : Metric V :=
  mkMetric (name metric) (documentation metric) (type metric)
           (_multiprocess_mode metric) ss.

(* ------------------------------------------------------------------ *)
(** *** Reading the files (lines 31-51) *)

(** One iteration of [for key, value in d.read_all_values()] for a file
    whose name splits into [parts]. *)
Definition scan_row (parts : list string) (typ : string)
  (metrics : list (string * Metric V)) (row : Key * V)
  : result (list (string * Metric V)) :=
  let (key, value) := row in
  let metric :=
    match od_get String.eqb metrics (metric_name key) with
    | Some m => m
    | None => mkMetric (metric_name key) "Multiprocess metric" typ None []
    end in
  let ls := zip (labelnames key) (labelvalues key) in
  rbind (if String.eqb typ "gauge"
         then rbind (index parts 2) (fun p2 => Ok (negb (String.eqb p2 "archived.db")))
         else Ok false)
    (fun live_gauge =>
       if live_gauge : bool then
         rbind (index parts 2) (fun pid =>
         rbind (index parts 1) (fun mode =>
           Ok (od_set String.eqb metrics (metric_name key)
                 (add_sample (set_multiprocess_mode metric mode) (sample_name key)
                    (ls ++ [("pid", pid)]) value))))
       else
         Ok (od_set String.eqb metrics (metric_name key)
               (add_sample metric (sample_name key) ls value))).

(** Error-propagating left fold: a [for] loop whose body may raise. *)
Fixpoint foldM {A B} (f : A -> B -> result A) (l : list B) (a : A) : result A :=
  match l with
  | [] => Ok a
  | b :: l' => rbind (f a b) (foldM f l')
  end.

(** One iteration of [for f in glob.glob(os.path.join(self._path, '*.db'))]. *)
Definition scan_file (metrics : list (string * Metric V)) (f : string * Store V)
  : result (list (string * Metric V)) :=
  let parts := split "_" (fst f) in
  rbind (index parts 0) (fun typ =>
    foldM (scan_row parts typ) (read_all_values (snd f)) metrics).

Definition scan_files (fs : list (string * Store V))
  : result (list (string * Metric V)) :=
  foldM scan_file fs [].

(* ------------------------------------------------------------------ *)
(** *** Reconciling one metric (lines 54-98) *)

(** [tuple(l for l in labels if l[0] != s)] *)
Definition without (s : string) (ls : labels) : labels :=
  filter (fun l => negb (String.eqb (fst l) s)) ls.

(** Error-propagating [map]. *)
Fixpoint mapM {A B} (f : A -> result B) (l : list A) : result (list B) :=
  match l with
  | [] => Ok []
  | a :: l' => rbind (f a) (fun b => rbind (mapM f l') (fun bs => Ok (b :: bs)))
  end.

(** [float(s)] *)
Definition py_float (s : string) : result V :=
  match pyfloat s with
  | Some v => Ok v
  | None => Raise ValueError
  end.

(** [tuple(float(l[1]) for l in labels if l[0] == 'le')] *)
Definition bucket_of (ls : labels) : result (list V) :=
  mapM (fun l => py_float (snd l)) (filter (fun l => String.eqb (fst l) "le") ls).

(** [samples[k] += value] on a [defaultdict(float)]. *)
Definition dd_add (d : list (skey * V)) (k : skey) (value : V) : list (skey * V) :=
  match od_get skey_eqb d k with
  | Some v => od_set skey_eqb d k (v +. value)
  | None => od_set skey_eqb d k (vzero +. value)
  end.

(** The state of the loop over [metric.samples]: [samples] and [buckets]. *)
Definition acc_state : Type :=
  (list (skey * V) * list (labels * list (V * V)))%type.

(** [values.setdefault(b, 0.0); values[b] += value] on the dictionary of
    one group.  A threshold that is [==] to a key already there updates that
    entry; any other is appended by [setdefault] and found again by the
    subscript as the object it is (so also a NaN, which is [==] to
    nothing). *)
Definition values_add (values : list (V * V)) (b value : V) : list (V * V) :=
  match od_get veqb values b with
  | Some v => od_set veqb values b (v +. value)
  | None => values ++ [(b, vzero +. value)]
  end.

(** [buckets.setdefault(without_le, {}); buckets[without_le].setdefault(b, 0.0);
    buckets[without_le][b] += value] *)
Definition bucket_add (buckets : list (labels * list (V * V)))
  (without_le : labels) (b : V) (value : V) : list (labels * list (V * V)) :=
  let (values, buckets1) := od_setdefault labels_eqb buckets without_le [] in
  od_set labels_eqb buckets1 without_le (values_add values b value).

(** One iteration of [for name, labels, value in metric.samples]. *)
Definition reconcile_sample (metric : Metric V) (st : acc_state) (s : sample V)
  : result acc_state :=
  let '(nm, ls, value) := s in
  let (samples, buckets) := st in
  if String.eqb (type metric) "gauge" then
    let without_pid := without "pid" ls in
    if mode_is (_multiprocess_mode metric) "min" then
      let (current, samples1) := od_setdefault skey_eqb samples (nm, without_pid) value in
      if value <. current
      then Ok (od_set skey_eqb samples1 (nm, without_pid) value, buckets)
      else Ok (samples1, buckets)
    else if mode_is (_multiprocess_mode metric) "max" then
      let (current, samples1) := od_setdefault skey_eqb samples (nm, without_pid) value in
      if value >. current
      then Ok (od_set skey_eqb samples1 (nm, without_pid) value, buckets)
      else Ok (samples1, buckets)
    else if mode_is (_multiprocess_mode metric) "livesum" then
      Ok (dd_add samples (nm, without_pid) value, buckets)
    else (* all/liveall *)
      Ok (od_set skey_eqb samples (nm, ls) value, buckets)
  else if String.eqb (type metric) "histogram" then
    rbind (bucket_of ls) (fun bucket =>
      match bucket with
      | b :: _ => (* _bucket *)
          Ok (samples, bucket_add buckets (without "le" ls) b value)
      | [] => (* _sum/_count *)
          Ok (dd_add samples (nm, ls) value, buckets)
      end)
  else (* Counter and Summary. *)
    Ok (dd_add samples (nm, ls) value, buckets).

(** [for name, labels, value in metric.samples: ...] (lines 56-86). *)
Definition reconcile_samples (metric : Metric V) : result acc_state :=
  foldM (reconcile_sample metric) (samples metric) ([], []).

(** Python compares the tuples [(bucket, value)] of [values.items()]
    lexicographically: the first components by [==], then by [<]. *)
Definition item_ltb (p q : V * V) : bool :=
  if fst p ==. fst q then snd p <. snd q else fst p <. fst q.

(** [sorted(xs)]: a stable insertion sort, each element going in front of
    the first element it is strictly smaller than.  Every stable sort,
    CPython's included, returns this list when [<] is a strict weak order
    on the elements. *)
Fixpoint insert_item (x : V * V) (l : list (V * V)) : list (V * V) :=
  match l with
  | [] => [x]
  | y :: l' => if item_ltb x y then x :: y :: l' else y :: insert_item x l'
  end.

Definition sorted (xs : list (V * V)) : list (V * V) :=
  fold_left (fun acc x => insert_item x acc) xs [].

(** [for bucket, value in sorted(values.items()): acc += value;
    samples[(metric.name + '_bucket', labels + (('le', go(bucket)),))] = acc]
    (lines 91-94): the final [acc] and [samples]. *)
Definition accumulate_group (metric : Metric V) (ls : labels)
  (items : list (V * V)) (samples : list (skey * V)) : V * list (skey * V) :=
  fold_left
    (fun (st : V * list (skey * V)) (item : V * V) =>
       let (acc, samples) := st in
       let (bucket, value) := item in
       let acc' := acc +. value in
       (acc',
        od_set skey_eqb samples
          ((name metric ++ "_bucket")%string,
           ls ++ [("le", floatToGoString bucket)]) acc'))
    items (vzero, samples).

(** [for labels, values in buckets.items(): ...] (lines 90-95). *)
Definition accumulate_buckets (metric : Metric V)
  (buckets : list (labels * list (V * V))) (samples : list (skey * V))
  : list (skey * V) :=
  fold_left
    (fun samples (group : labels * list (V * V)) =>
       let (ls, values) := group in
       let (acc, samples1) := accumulate_group metric ls (sorted values) samples in
       od_set skey_eqb samples1 ((name metric ++ "_count")%string, ls) acc)
    buckets samples.

(** The dictionary [samples] when line 98 is reached. *)
Definition reconciled (metric : Metric V) : result (list (skey * V)) :=
  rbind (reconcile_samples metric) (fun st =>
    let (samples, buckets) := st in
    if String.eqb (type metric) "histogram"
    then Ok (accumulate_buckets metric buckets samples)
    else Ok samples).

(** [(name, dict(labels), value)] *)
Definition to_sample (kv : skey * V) : sample V :=
  (fst (fst kv), dict_of String.eqb (snd (fst kv)), snd kv).

(** The body of [for metric in metrics.values()] (lines 54-98): the metric
    with its reconciled samples. *)
Definition reconcile (metric : Metric V) : result (Metric V) :=
  rbind (reconciled metric) (fun samples =>
    Ok (set_samples metric (map to_sample samples))).

(** Lines 31-99 on the stores that [glob] listed, in the order it listed
    them. *)
Definition collect_files (fs : list (string * Store V)) : result (list (Metric V)) :=
  rbind (scan_files fs) (fun metrics => mapM reconcile (map snd metrics)).

(** [MultiProcessCollector.collect] (lines 27-99): the files are read
    under the shared lock, the metrics are reconciled after it is
    released. *)
Definition collect : M V (list (Metric V)) :=
  metrics <- flocking "compacting" LOCK_SH
               (fs <- get_files ;; lift (scan_files fs)) ;;
  lift (mapM reconcile (map snd metrics)).

End Collector.

(* ================================================================== *)
(** ** Construction of the collector *)

(** [MultiProcessCollector.__init__(self, registry, path=None)] (lines
    18-25).  [environ] stands for [os.environ.get] and [isdir] for
    [os.path.isdir]; [registry] is [None] or a registry object (an object
    is truthy).  The result is the attribute [_path] of the new collector
    and the registry whose [register(self)] is called, if any. *)
Definition init {R : Type} (environ : string -> option string) (isdir : string -> bool)
  (registry : option R) (path : option string) : result (string * option R) :=
  let path1 :=
    match path with
    | None => environ "prometheus_multiproc_dir"
    | Some p => Some p
    end in
  match path1 with
  | None => Raise ValueError
  | Some p =>
      if String.eqb p EmptyString || negb (isdir p)
      then Raise ValueError
      else Ok (p, registry)
  end.

(* ================================================================== *)
(** * Definitions used by the properties *)

(** [o] if it is set, else [a]. *)
Definition default {A} (a : A) (o : option A) : A :=
  match o with
  | Some x => x
  | None => a
  end.

(** The locks this process holds after a trace (newest event first): a
    granted [flock] holds the file until its handle is closed. *)
Fixpoint held (tr : list event) : list string :=
  match tr with
  | [] => []
  | EvFlock f _ :: tr' => f :: held tr'
  | EvClose f :: tr' => remove string_dec f (held tr')
  | _ :: tr' => held tr'
  end.

(** Every removal of a file and every call of [compact] on a file happened
    while this process held no lock on that file. *)
Fixpoint reclaims_unlocked (tr : list event) : Prop :=
  match tr with
  | [] => True
  | e :: tr' =>
      reclaims_unlocked tr' /\
      match e with
      | EvRemove f | EvCompact f => ~ In f (held tr')
      | _ => True
      end
  end.

(** The discipline of a trace, and no lock left behind. *)
Definition lock_free (tr : list event) : Prop :=
  reclaims_unlocked tr /\ held tr = [].

(** Specification-level functions, and the bodies of the loops of
    [collect] as pure steps (proved equal to the code below). *)

Section SpecDefs.
Context {V : Type} `{Arith V} `{FloatText V}.

(** gauge/min: an unset key adopts the incoming value, a set one keeps the
    smaller. *)
Definition min_merge (current : option V) (incoming : V) : option V :=
  match current with
  | None => Some incoming
  | Some c => Some (py_min c incoming)
  end.

(** The archive of a class as a store; empty while the file is absent. *)
Definition archive_of (w : World V) (typ : string) (mm : option string) : Store V :=
  default [] (od_get String.eqb (files w) (archive_name typ mm)).

(** The directory after a successful [compact(srcf)]. *)
Definition compacted (w : World V) (srcf typ : string) (mm : option string)
  (pid : string) (src : Store V) : World V :=
  mkWorld
    (od_del String.eqb
       (od_set String.eqb (files w) (archive_name typ mm)
          (merge_rows typ mm pid src (archive_of w typ mm)))
       srcf)
    (flock_env w)
    (EvClose "compacting" :: EvRemove srcf :: EvFlock "compacting" LOCK_EX
       :: EvOpen "compacting" :: EvCompact srcf :: trace w).

Definition row_name (r : sample V) : string := fst (fst r).

Definition row_labels (r : sample V) : labels := snd (fst r).

Definition row_value (r : sample V) : V := snd r.

(** The values of the rows of the partition [k] = (sample name, labels
    without the pid label), in the order of the rows. *)
Definition contributing (k : skey) (rows : list (sample V)) : list V :=
  map row_value
    (filter (fun r => skey_eqb (row_name r, without "pid" (row_labels r)) k) rows).

(** Python's [min(vs)], [max(vs)] and [sum(vs)] of a sequence; [None] for
    the empty one. *)
Definition py_min_list (vs : list V) : option V :=
  match vs with
  | [] => None
  | v :: vs' => Some (fold_left py_min vs' v)
  end.

Definition py_max_list (vs : list V) : option V :=
  match vs with
  | [] => None
  | v :: vs' => Some (fold_left py_max vs' v)
  end.

Definition py_sum_list (vs : list V) : option V :=
  match vs with
  | [] => None
  | _ :: _ => Some (py_sum vs)
  end.

(** [<] is a strict order on the values [vs]. *)
Definition strict_order_on (vs : list V) : Prop :=
  (forall x, In x vs -> x <. x = false) /\
  (forall x y z, In x vs -> In y vs -> In z vs ->
     x <. y = true -> y <. z = true -> x <. z = true).

(** [m] is one of [vs] and none of them is smaller (larger). *)
Definition is_minimum (m : V) (vs : list V) : Prop :=
  In m vs /\ forall y, In y vs -> y <. m = false.

Definition is_maximum (m : V) (vs : list V) : Prop :=
  In m vs /\ forall y, In y vs -> m <. y = false.

(** The row as a dictionary item: [((name, labels), value)]. *)
Definition row_item (r : sample V) : skey * V :=
  ((row_name r, row_labels r), row_value r).

(** The loop body for a gauge, by mode. *)
Definition gauge_min_step (S : list (skey * V)) (r : sample V) : list (skey * V) :=
  let k := (row_name r, without "pid" (row_labels r)) in
  let (current, S1) := od_setdefault skey_eqb S k (row_value r) in
  if row_value r <. current then od_set skey_eqb S1 k (row_value r) else S1.

Definition gauge_max_step (S : list (skey * V)) (r : sample V) : list (skey * V) :=
  let k := (row_name r, without "pid" (row_labels r)) in
  let (current, S1) := od_setdefault skey_eqb S k (row_value r) in
  if row_value r >. current then od_set skey_eqb S1 k (row_value r) else S1.

Definition gauge_livesum_step (S : list (skey * V)) (r : sample V) : list (skey * V) :=
  dd_add S (row_name r, without "pid" (row_labels r)) (row_value r).

Definition gauge_all_step (S : list (skey * V)) (r : sample V) : list (skey * V) :=
  od_set skey_eqb S (row_name r, row_labels r) (row_value r).

Definition gauge_step (mode : option string) : list (skey * V) -> sample V -> list (skey * V) :=
  if mode_is mode "min" then gauge_min_step
  else if mode_is mode "max" then gauge_max_step
  else if mode_is mode "livesum" then gauge_livesum_step
  else gauge_all_step.

Definition min_upd (o : option V) (r : sample V) : V :=
  match o with
  | None => row_value r
  | Some c => py_min c (row_value r)
  end.

Definition max_upd (o : option V) (r : sample V) : V :=
  match o with
  | None => row_value r
  | Some c => py_max c (row_value r)
  end.

Definition sum_upd (o : option V) (r : sample V) : V :=
  match o with
  | None => vzero +. row_value r
  | Some c => c +. row_value r
  end.

(** The type of a store, from its file name. *)
Definition file_type (f : string * Store V) : string := hd EmptyString (split "_" (fst f)).

(** The labels of a store key: [tuple(zip(labelnames, labelvalues))]. *)
Definition key_labels (key : Key) : labels := zip (labelnames key) (labelvalues key).

(** The values, in scan order, of the rows of the stores [fs] whose key
    reads (metric [mn], sample [nm], labels [ls]). *)
Definition contributions (mn nm : string) (ls : labels) (fs : list (string * Store V))
  : list V :=
  flat_map
    (fun f =>
       map snd
         (filter (fun row => String.eqb (metric_name (fst row)) mn
                             && skey_eqb (sample_name (fst row), key_labels (fst row))
                                  (nm, ls))
            (snd f)))
    fs.

(** The rows of metric [mn] in a store, as samples without pid label. *)
Definition plain_rows (mn : string) (rows : list (Key * V)) : list (sample V) :=
  map (fun row => (sample_name (fst row), key_labels (fst row), snd row))
    (filter (fun row => String.eqb (metric_name (fst row)) mn) rows).

(** What the scan knows of metric [mn] after the rows [acc]. *)
Definition plain_entry (mn : string) (o : option (Metric V)) (acc : list (sample V)) : Prop :=
  match o with
  | None => acc = []
  | Some m => name m = mn /\ type m <> "gauge" /\ type m <> "histogram" /\ samples m = acc
  end.

Definition plain_step (S : list (skey * V)) (r : sample V) : list (skey * V) :=
  dd_add S (row_name r, row_labels r) (row_value r).

(** [bucket[0]]: the threshold of a row that carries an 'le' label. *)
Definition threshold_of (r : sample V) : option V :=
  match bucket_of (row_labels r) with
  | Ok (b :: _) => Some b
  | _ => None
  end.

(** The thresholds of the rows that carry one. *)
Definition thresholds (rows : list (sample V)) : list V :=
  flat_map (fun r => match threshold_of r with Some b => [b] | None => [] end) rows.

(** The (threshold, increment) pairs of the rows of the group [g]: the rows
    with an 'le' label whose remaining labels are [g], in order. *)
Definition group_items (g : labels) (rows : list (sample V)) : list (V * V) :=
  flat_map
    (fun r =>
       match threshold_of r with
       | Some b =>
           if labels_eqb (without "le" (row_labels r)) g then [(b, row_value r)] else []
       | None => []
       end)
    rows.

(** The sum of the increments of the pairs [items] for the threshold [t]. *)
Definition increment_of (items : list (V * V)) (t : V) : V :=
  py_sum (map snd (filter (fun it => fst it ==. t) items)).

(** The sum, over the thresholds [ts] at or below [t], of their summed
    increments. *)
Definition cumulative_of (items : list (V * V)) (ts : list V) (t : V) : V :=
  py_sum (map (increment_of items) (filter (fun t' => negb (t <. t')) ts)).

(** The key is a bucket sample of the metric for the group [g]. *)
Definition is_bucket_of (metric : Metric V) (g : labels) (k : skey) : bool :=
  String.eqb (fst k) (name metric ++ "_bucket")
  && labels_eqb (without "le" (snd k)) g
  && existsb (fun l => String.eqb (fst l) "le") (snd k).

(** On the thresholds [T]: [==] is equality, [<] is a strict total order,
    and [_floatToGoString] is one-to-one.  (Binary64 thresholds satisfy
    the first four when none is NaN and 0.0 and -0.0 do not both occur.) *)
Definition well_ordered (T : list V) : Prop :=
  (forall x y, In x T -> In y T -> (x ==. y = true <-> x = y)) /\
  (forall x, In x T -> x <. x = false) /\
  (forall x y z, In x T -> In y T -> In z T ->
     x <. y = true -> y <. z = true -> x <. z = true) /\
  (forall x y, In x T -> In y T -> x <> y -> x <. y = true \/ y <. x = true) /\
  (forall x y, In x T -> In y T -> floatToGoString x = floatToGoString y -> x = y).

(** [values_add] on a (threshold, increment) pair. *)
Definition inner_add (values : list (V * V)) (it : V * V) : list (V * V) :=
  values_add values (fst it) (snd it).

Definition asc (x y : V) : Prop := x <. y = true.

Definition key_asc (p q : V * V) : Prop := fst p <. fst q = true.

(** The running sums [acc] of the loop of lines 92-94. *)
Fixpoint running (a : V) (items : list (V * V)) : list (V * V) :=
  match items with
  | [] => []
  | (t, v) :: rest => (t, a +. v) :: running (a +. v) rest
  end.

Definition bucket_key (metric : Metric V) (g : labels) (t : V) : skey :=
  ((name metric ++ "_bucket")%string, g ++ [("le", floatToGoString t)]).

Definition count_key (metric : Metric V) (g : labels) : skey :=
  ((name metric ++ "_count")%string, g).

Definition set_kv (d : list (skey * V)) (kv : skey * V) : list (skey * V) :=
  od_set skey_eqb d (fst kv) (snd kv).

(** The assignments of lines 94 for one group, in order. *)
Definition bucket_writes (metric : Metric V) (g : labels) (items : list (V * V))
  : list (skey * V) :=
  map (fun tc => (bucket_key metric g (fst tc), snd tc)) (running vzero items).

(** The assignments of lines 94-95 for one group. *)
Definition group_writes (metric : Metric V) (group : labels * list (V * V))
  : list (skey * V) :=
  bucket_writes metric (fst group) (sorted (snd group))
  ++ [(count_key metric (fst group), py_sum (map snd (sorted (snd group))))].

Definition on_key (P : skey -> bool) (kv : skey * V) : bool := P (fst kv).

Definition has_le (ls : labels) : bool :=
  existsb (fun l => String.eqb (fst l) "le") ls.

(** Every 'le' label of the row is the text of a number. *)
Definition le_parses (r : sample V) : Prop :=
  exists bs, bucket_of (row_labels r) = Ok bs.

(** One iteration of the loop for a histogram whose thresholds parse. *)
Definition hist_raw_step (S : list (skey * V)) (r : sample V) : list (skey * V) :=
  match threshold_of r with
  | Some _ => S
  | None => dd_add S (row_name r, row_labels r) (row_value r)
  end.

Definition hist_bucket_step (B : list (labels * list (V * V))) (r : sample V)
  : list (labels * list (V * V)) :=
  match threshold_of r with
  | Some b => bucket_add B (without "le" (row_labels r)) b (row_value r)
  | None => B
  end.

(** The dictionary of the group [g] after the rows. *)
Definition group_dict (g : labels) (rows : list (sample V)) : option (list (V * V)) :=
  match group_items g rows with
  | [] => None
  | _ :: _ => Some (fold_left inner_add (group_items g rows) [])
  end.

End SpecDefs.

(* ------------------------------------------------------------------ *)
(** ** File names, totals and the scan, for the further properties *)

(** What [compact] reads from the name of its source: [parts[0]],
    [parts[1] if typ == 'gauge' else None] and
    [parts[2] if typ == 'gauge' else parts[1]]. *)
Definition src_typ (srcf : string) : string := hd EmptyString (split "_" srcf).

Definition src_mode (srcf : string) : option string :=
  if String.eqb (src_typ srcf) "gauge"
  then Some (nth 1 (split "_" srcf) EmptyString)
  else None.

Definition src_pid (srcf : string) : string :=
  nth (if String.eqb (src_typ srcf) "gauge" then 2 else 1) (split "_" srcf) EmptyString.

(** The name has the segments [compact] subscripts: two, and three for a
    gauge. *)
Definition has_segments (srcf : string) : bool :=
  Nat.leb (if String.eqb (src_typ srcf) "gauge" then 3 else 2)
          (List.length (split "_" srcf)).

(** The archive [compact(srcf)] merges into. *)
Definition dest_of (srcf : string) : string :=
  archive_name (src_typ srcf) (src_mode srcf).

(** The sum of the values a store holds under the keys that satisfy [P]. *)
Definition store_total {V} `{Arith V} (P : Key -> bool) (d : Store V) : V :=
  py_sum (map snd (filter (fun row => P (fst row)) d)).

(** The same over all the stores of a directory, in the order of the
    files. *)
Definition total_over {V} `{Arith V} (P : Key -> bool) (fs : list (string * Store V)) : V :=
  py_sum (flat_map (fun f => map snd (filter (fun row => P (fst row)) (snd f))) fs).

(** The key reads (metric [mn], sample [nm], labels [ls]). *)
Definition reads_as (mn nm : string) (ls : labels) (key : Key) : bool :=
  String.eqb (metric_name key) mn && skey_eqb (sample_name key, key_labels key) (nm, ls).

(** The file is a gauge store of a live process: [typ == 'gauge' and
    parts[2] != 'archived.db']. *)
Definition live_gauge (fname : string) : bool :=
  String.eqb (hd EmptyString (split "_" fname)) "gauge"
  && negb (String.eqb (nth 2 (split "_" fname) EmptyString) "archived.db").

(** The scan can read the store: a gauge store with rows has the three
    name segments the loop body subscripts. *)
Definition scannable {V} (f : string * Store V) : bool :=
  negb (String.eqb (hd EmptyString (split "_" (fst f))) "gauge")
  || match snd f with
     | [] => true
     | _ :: _ => Nat.leb 3 (List.length (split "_" (fst f)))
     end.

(** The sample a row of the store named [fname] contributes: a live gauge
    store adds the label pid, with the third segment of its name. *)
Definition raw_sample {V} (fname : string) (row : Key * V) : sample V :=
  (sample_name (fst row),
   if live_gauge fname
   then key_labels (fst row) ++ [("pid", nth 2 (split "_" fname) EmptyString)]
   else key_labels (fst row),
   snd row).

(** The store has a row of metric [mn]. *)
Definition mentions {V} (mn : string) (d : Store V) : bool :=
  existsb (fun row => String.eqb (metric_name (fst row)) mn) d.

(** The samples the rows of metric [mn] contribute, in scan order. *)
Definition raw_samples {V} (mn : string) (fs : list (string * Store V)) : list (sample V) :=
  flat_map
    (fun f => map (raw_sample (fst f))
                (filter (fun row => String.eqb (metric_name (fst row)) mn) (snd f)))
    fs.

(** The type segment of the first store that has a row of metric [mn]. *)
Definition first_type {V} (mn : string) (fs : list (string * Store V)) : option string :=
  option_map (fun f => hd EmptyString (split "_" (fst f)))
    (find (fun f => mentions mn (snd f)) fs).

(** The mode segment of the last live gauge store that has a row of metric
    [mn]. *)
Definition last_mode {V} (mn : string) (fs : list (string * Store V)) : option string :=
  option_map (fun f => nth 1 (split "_" (fst f)) EmptyString)
    (find (fun f => live_gauge (fst f) && mentions mn (snd f)) (rev fs)).

(** The loop body of lines 37-50 when no subscript fails (proved equal to
    [scan_row] below): what it makes of the metric of the row, and of the
    dictionary [metrics].  A row comes with the name of its file. *)
Definition upd_metric {V} (o : option (Metric V)) (r : string * (Key * V)) : Metric V :=
  let metric :=
    match o with
    | Some m => m
    | None => mkMetric (metric_name (fst (snd r))) "Multiprocess metric"
                (hd EmptyString (split "_" (fst r))) None []
    end in
  let metric1 :=
    if live_gauge (fst r)
    then set_multiprocess_mode metric (nth 1 (split "_" (fst r)) EmptyString)
    else metric in
  mkMetric (name metric1) (documentation metric1) (type metric1)
    (_multiprocess_mode metric1)
    (samples metric1 ++ [raw_sample (fst r) (snd r)]).

Definition scan_step {V} (ms : list (string * Metric V)) (r : string * (Key * V))
  : list (string * Metric V) :=
  od_set String.eqb ms (metric_name (fst (snd r)))
    (upd_metric (od_get String.eqb ms (metric_name (fst (snd r)))) r).

(** The rows of the stores, each with the name of its file. *)
Definition tagged {V} (fs : list (string * Store V)) : list (string * (Key * V)) :=
  flat_map (fun f => map (fun row => (fst f, row)) (snd f)) fs.

Definition of_metric {V} (mn : string) (r : string * (Key * V)) : bool :=
  String.eqb (metric_name (fst (snd r))) mn.

Definition mode_step {V} (mode : option string) (r : string * (Key * V)) : option string :=
  if live_gauge (fst r) then Some (nth 1 (split "_" (fst r)) EmptyString) else mode.

(** The row carries no threshold. *)
Definition unbucketed {V} `{Arith V} `{FloatText V} (r : sample V) : bool :=
  match threshold_of r with
  | None => true
  | Some _ => false
  end.

(** Every removal of a file happened while this process held the lock on
    the file [lock]. *)
Fixpoint removals_under (lock : string) (tr : list event) : Prop :=
  match tr with
  | [] => True
  | e :: tr' =>
      removals_under lock tr' /\
      match e with
      | EvRemove _ => In lock (held tr')
      | _ => True
      end
  end.

(** ** Sample values that add without rounding *)

(** [inj] places the integers among the sample values so that additions of
    small magnitude do not round: [inj 0] is [0.0], and [inj a + inj b] is
    [inj (a + b)] whenever [|a| + |b| <= B]. *)
Definition exact_upto {V} `{Arith V} (inj : Z -> V) (B : Z) : Prop :=
  inj 0%Z = vzero /\
  forall a b : Z, (Z.abs a + Z.abs b <= B)%Z -> inj a +. inj b = inj (a + b)%Z.

(** The sum of the magnitudes. *)
Definition abs_sum (zs : list Z) : Z := fold_right (fun z s => (Z.abs z + s)%Z) 0%Z zs.

(** The store, the directory and the world whose values are the integers
    of [d], [fs] and [wz], as sample values. *)
Definition embed_store {V} (inj : Z -> V) (d : Store Z) : Store V :=
  map (fun row => (fst row, inj (snd row))) d.

Definition embed_files {V} (inj : Z -> V) (fs : list (string * Store Z))
  : list (string * Store V) :=
  map (fun f => (fst f, embed_store inj (snd f))) fs.

Definition embed_world {V} (inj : Z -> V) (wz : World Z) : World V :=
  mkWorld (embed_files inj (files wz)) (flock_env wz) (trace wz).

(** All the values a directory holds. *)
Definition stored (fs : list (string * Store Z)) : list Z :=
  flat_map (fun f => map snd (snd f)) fs.

(** The binary64 number nearest to an integer (of magnitude below 2^63). *)
Definition float_of_Z (z : Z) : float :=
  if (z <? 0)%Z then (- PrimFloat.of_uint63 (Uint63.of_Z (- z)))%float
  else PrimFloat.of_uint63 (Uint63.of_Z z).

(** The integers from [-B] to [B]. *)
Definition span (B : Z) : list Z :=
  map (fun i => (Z.of_nat i - B)%Z) (seq 0 (Z.to_nat (2 * B + 1))).

(** [exact_upto] for binary64, by trying every pair. *)
Definition exact_uptob (inj : Z -> float) (B : Z) : bool :=
  PrimFloat.Leibniz.eqb (inj 0%Z) 0%float
  && forallb
       (fun a =>
          forallb
            (fun b => (B <? Z.abs a + Z.abs b)%Z
                      || PrimFloat.Leibniz.eqb (inj a + inj b) (inj (a + b)%Z))
            (span B))
       (span B).

(* ================================================================== *)
(** * Concrete directories and metrics (binary64 values) *)

Definition all_granted : string -> lock_op -> flock_outcome := fun _ _ => Acquired.

Definition k_temp : Key := mkKey "temp" "temp" ["room"] ["attic"].

Definition k_load : Key := mkKey "load" "load" [] [].

(** A dying process 123 with a gauge/livesum store; no archive yet. *)
Definition w_livesum : World float :=
  mkWorld [("gauge_livesum_123_0.db", [(k_temp, 2%float)])] all_granted [].

(** A dying process 123 with a gauge/liveall store; no archive yet. *)
Definition w_liveall : World float :=
  mkWorld [("gauge_liveall_123_0.db", [(k_temp, 2%float)])] all_granted [].

(** A dying process 123 with a gauge/max store holding a negative value;
    no archive yet. *)
Definition w_max : World float :=
  mkWorld [("gauge_max_123_0.db", [(k_temp, (-5)%float)])] all_granted [].

(** A gauge/min store of process 123 and an archive that already holds
    one of its keys. *)
Definition w_min : World float :=
  mkWorld [("gauge_min_123_0.db", [(k_temp, 3%float); (k_load, 4%float)]);
           ("gauge_min_archived.db", [(k_temp, 5%float)])]
          all_granted [].

(** A counter store of process 123 and an archive that already holds one
    of its keys. *)
Definition w_counter : World float :=
  mkWorld [("counter_123_0.db", [(k_temp, 3%float); (k_load, 4%float)]);
           ("counter_archived.db", [(k_temp, 5%float)])]
          all_granted [].

(** A gauge/all store of process 123; no archive yet. *)
Definition w_all : World float :=
  mkWorld [("gauge_all_123_0.db", [(k_temp, 3%float); (k_load, 4%float)])]
          all_granted [].

(** Process 123 has died.  Another process still holds a lock on its
    gauge/min store. *)
Definition w_dead : World float :=
  mkWorld [("counter_123_0.db", [(k_load, 4%float)]);
           ("gauge_liveall_123_0.db", [(k_temp, 2%float)]);
           ("gauge_min_123_0.db", [(k_temp, 3%float)])]
          (fun f _ => if String.eqb f "gauge_min_123_0.db"
                      then Failed EWOULDBLOCK else Acquired)
          [].

(** The directory once the counter store has been compacted. *)
Definition w_dead1 : World float :=
  snd (mark_process_dead ["counter_123_0.db"] w_dead).

(** The numerals the examples use, for [float] and [core._floatToGoString]. *)
Definition float_table : list (string * float) :=
  [("1.0", 1%float); ("5.0", 5%float); ("+Inf", infinity)].

#[export] Instance table_text : FloatText float := {|
  pyfloat := fun s => od_get String.eqb float_table s;
  floatToGoString := fun x =>
    match find (fun p => PrimFloat.eqb (snd p) x) float_table with
    | Some p => fst p
    | None => "NaN"
    end
|}.

Definition fs_gauge (mode : string) : list (string * Store float) :=
  [(("gauge_" ++ mode ++ "_100_0.db")%string, [(k_temp, 3%float)]);
   (("gauge_" ++ mode ++ "_101_0.db")%string, [(k_temp, 7%float)]);
   (("gauge_" ++ mode ++ "_102_0.db")%string, [(k_temp, 5%float)])].

(** The gauge/max metric as [collect] holds it when line 53 is reached. *)
Definition m_max : Metric float :=
  mkMetric "temp" "Multiprocess metric" "gauge" (Some "max")
    [("temp", [("room", "attic"); ("pid", "100")], 3%float);
     ("temp", [("room", "attic"); ("pid", "101")], 7%float);
     ("temp", [("room", "attic"); ("pid", "102")], 5%float)].

(** Pid 100 died and its gauge/all row was archived by [compact] under the
    key extended by pid=100; a new process then got pid 100. *)
Definition fs_pid_reuse : list (string * Store float) :=
  [("gauge_all_archived.db",
    [(mkKey "temp" "temp" ["room"; "pid"] ["attic"; "100"], 2%float)]);
   ("gauge_all_100_0.db", [(k_temp, 5%float)])].

(** The gauge/all metric of three live processes as [collect] holds it when
    line 53 is reached. *)
Definition m_all : Metric float :=
  mkMetric "temp" "Multiprocess metric" "gauge" (Some "all")
    [("temp", [("room", "attic"); ("pid", "100")], 3%float);
     ("temp", [("room", "attic"); ("pid", "101")], 7%float);
     ("temp", [("room", "attic"); ("pid", "102")], 5%float)].

(** Three processes with the counter values 0.1, 0.2 and 0.3 (the binary64
    numbers nearest to them). *)
Definition fs_tenths : list (string * Store float) :=
  [("counter_100_0.db", [(k_load, 0x1.999999999999ap-4%float)]);
   ("counter_101_0.db", [(k_load, 0x1.999999999999ap-3%float)]);
   ("counter_102_0.db", [(k_load, 0x1.3333333333333p-2%float)])].

Definition fs_counter : list (string * Store float) :=
  [("counter_100_0.db", [(k_load, 5%float); (k_temp, 1%float)]);
   ("counter_archived.db", [(k_load, 6%float)])].

(** No floats as text are needed where no histogram is read. *)
#[export] Instance no_text : FloatText Z := {|
  pyfloat := fun _ => None;
  floatToGoString := fun _ => EmptyString
|}.

Definition k_bucket (le : string) : Key := mkKey "lat" "lat_bucket" ["le"] [le].

Definition k_sum : Key := mkKey "lat" "lat_sum" [] [].

(** Two processes observed latencies: bucket increments le=5: 1 in one
    store, le=1: 2 and le=5: 0 in the other. *)
Definition fs_hist : list (string * Store float) :=
  [("histogram_100_0.db", [(k_bucket "5.0", 1%float); (k_sum, 7%float)]);
   ("histogram_101_0.db", [(k_bucket "1.0", 2%float); (k_bucket "5.0", 0%float)])].

(** The histogram as [collect] holds it when line 53 is reached. *)
Definition m_hist : Metric float :=
  mkMetric "lat" "Multiprocess metric" "histogram" None
    [("lat_bucket", [("le", "5.0")], 1%float);
     ("lat_sum", [], 7%float);
     ("lat_bucket", [("le", "1.0")], 2%float);
     ("lat_bucket", [("le", "5.0")], 0%float)].

(** Two dying counter processes and the counter archive, in exact
    arithmetic. *)
Definition wz_counter : World Z :=
  mkWorld [("counter_123_0.db", [(k_temp, 3%Z); (k_load, 4%Z)]);
           ("counter_124_0.db", [(k_temp, 1%Z)]);
           ("counter_archived.db", [(k_temp, 5%Z)])]
          all_granted [].

(** The directory of the dead process 123, no file of which is locked. *)
Definition w_reclaim : World float :=
  mkWorld (files w_dead) all_granted [].


(** What the scan makes of [fs_pid_reuse]. *)
Definition m_reuse : Metric float :=
  mkMetric "temp" "Multiprocess metric" "gauge" (Some "all")
    [("temp", [("room", "attic"); ("pid", "100")], 2%float);
     ("temp", [("room", "attic"); ("pid", "100")], 5%float)].

(** What [collect] returns for [fs_counter]. *)
Definition out_counter : list (Metric float) :=
  [mkMetric "load" "Multiprocess metric" "counter" None [("load", [], 11%float)];
   mkMetric "temp" "Multiprocess metric" "counter" None
     [("temp", [("room", "attic")], 1%float)]].

(** The files of the dead process 123. *)
Definition dead_files : list string :=
  ["counter_123_0.db"; "gauge_liveall_123_0.db"; "gauge_min_123_0.db"].

(* ================================================================== *)
(** * Properties *)

(** ** Equality tests *)

Lemma list_eqb_eq {A} (eqb : A -> A -> bool) :
  (forall x y, eqb x y = true <-> x = y) ->
  forall xs ys, list_eqb eqb xs ys = true <-> xs = ys.
Proof.
  intros Heq xs. induction xs as [|x xs IH]; intros [|y ys]; simpl;
    try (split; [discriminate | congruence]); try tauto.
  rewrite andb_true_iff, Heq, IH. split.
  - intros [-> ->]. reflexivity.
  - intros E. now inversion E.
Qed.

Lemma pair_eqb_eq {A B} (ea : A -> A -> bool) (eb : B -> B -> bool) :
  (forall x y, ea x y = true <-> x = y) ->
  (forall x y, eb x y = true <-> x = y) ->
  forall p q, pair_eqb ea eb p q = true <-> p = q.
Proof.
  intros Ha Hb [a b] [a' b']. unfold pair_eqb. simpl.
  rewrite andb_true_iff, Ha, Hb. split.
  - intros [-> ->]. reflexivity.
  - intros E. now inversion E.
Qed.

Lemma labels_eqb_eq (l1 l2 : labels) : labels_eqb l1 l2 = true <-> l1 = l2.
Proof.
  apply list_eqb_eq. apply pair_eqb_eq; apply String.eqb_eq.
Qed.

Lemma skey_eqb_eq (k1 k2 : skey) : skey_eqb k1 k2 = true <-> k1 = k2.
Proof.
  apply pair_eqb_eq; [apply String.eqb_eq | apply labels_eqb_eq].
Qed.

Lemma key_eqb_eq (k1 k2 : Key) : key_eqb k1 k2 = true <-> k1 = k2.
Proof.
  destruct k1 as [m1 n1 ln1 lv1], k2 as [m2 n2 ln2 lv2]. unfold key_eqb. simpl.
  rewrite !andb_true_iff, !String.eqb_eq.
  rewrite !(list_eqb_eq String.eqb String.eqb_eq). split.
  - intros [[[-> ->] ->] ->]. reflexivity.
  - intros E. inversion E. auto.
Qed.

(** ** Dictionaries whose key test decides equality *)

Section OrderedDictFacts.
Context {K A : Type} (keq : K -> K -> bool).
Hypothesis keq_eq : forall x y, keq x y = true <-> x = y.

Lemma keq_refl k : keq k k = true.
Proof. now apply keq_eq. Qed.

Lemma keq_neq k k' : k <> k' -> keq k k' = false.
Proof.
  intros N. destruct (keq k k') eqn:E; [|reflexivity].
  apply keq_eq in E. contradiction.
Qed.

Lemma od_get_set_same (d : list (K * A)) k a :
  od_get keq (od_set keq d k a) k = Some a.
Proof.
  induction d as [|[k' a'] d IH]; simpl.
  - now rewrite keq_refl.
  - destruct (keq k' k) eqn:E; simpl; rewrite E; auto.
Qed.

Lemma od_get_set_other (d : list (K * A)) k a k' :
  k <> k' -> od_get keq (od_set keq d k a) k' = od_get keq d k'.
Proof.
  intros N. induction d as [|[k0 a0] d IH]; simpl.
  - now rewrite keq_neq.
  - destruct (keq k0 k) eqn:E; simpl.
    + apply keq_eq in E. subst k0. now rewrite keq_neq.
    + now rewrite IH.
Qed.

Lemma od_get_In (d : list (K * A)) k a :
  od_get keq d k = Some a -> In (k, a) d.
Proof.
  induction d as [|[k' a'] d IH]; simpl; [discriminate|].
  destruct (keq k' k) eqn:E.
  - apply keq_eq in E. intros [= ->]. subst. now left.
  - intros G. right. auto.
Qed.

Lemma od_get_None (d : list (K * A)) k :
  od_get keq d k = None <-> ~ In k (map fst d).
Proof.
  induction d as [|[k' a'] d IH]; simpl; [tauto|].
  destruct (keq k' k) eqn:E.
  - apply keq_eq in E. split; [discriminate | intros N; exfalso; auto].
  - rewrite IH. split.
    + intros N [E'|I]; [|tauto]. subst. rewrite keq_refl in E. discriminate.
    + tauto.
Qed.

Lemma od_get_NoDup (d : list (K * A)) k a :
  NoDup (map fst d) -> In (k, a) d -> od_get keq d k = Some a.
Proof.
  induction d as [|[k' a'] d IH]; simpl; [tauto|].
  intros ND [E|I].
  - inversion E. subst. now rewrite keq_refl.
  - inversion ND as [|? ? Nin ND']. subst.
    destruct (keq k' k) eqn:E.
    + apply keq_eq in E. subst. exfalso. apply Nin.
      change k with (fst (k, a)). now apply in_map.
    + auto.
Qed.

Lemma od_set_keys_present (d : list (K * A)) k a :
  In k (map fst d) -> map fst (od_set keq d k a) = map fst d.
Proof.
  induction d as [|[k' a'] d IH]; simpl; [tauto|].
  intros I. destruct (keq k' k) eqn:E; simpl; [reflexivity|].
  f_equal. apply IH. destruct I as [E'|I]; [|exact I].
  subst. rewrite keq_refl in E. discriminate.
Qed.

Lemma od_set_keys_absent (d : list (K * A)) k a :
  ~ In k (map fst d) -> od_set keq d k a = d ++ [(k, a)].
Proof.
  induction d as [|[k' a'] d IH]; simpl; [reflexivity|].
  intros N. destruct (keq k' k) eqn:E.
  - apply keq_eq in E. subst. exfalso. auto.
  - f_equal. apply IH. tauto.
Qed.

Lemma keq_dec (x y : K) : {x = y} + {x <> y}.
Proof.
  destruct (keq x y) eqn:E.
  - left. now apply keq_eq.
  - right. intros ->. rewrite keq_refl in E. discriminate.
Qed.

Lemma od_set_NoDup (d : list (K * A)) k a :
  NoDup (map fst d) -> NoDup (map fst (od_set keq d k a)).
Proof.
  intros ND. destruct (in_dec keq_dec k (map fst d)) as [I|N].
  - now rewrite od_set_keys_present.
  - rewrite od_set_keys_absent by exact N. rewrite map_app. simpl.
    apply NoDup_app; [exact ND | repeat constructor; simpl; tauto |].
    intros x Ix [<-|[]]. contradiction.
Qed.

Lemma od_set_set (d : list (K * A)) k a b :
  od_set keq (od_set keq d k a) k b = od_set keq d k b.
Proof.
  induction d as [|[k' a'] d IH]; simpl.
  - now rewrite keq_refl.
  - destruct (keq k' k) eqn:E; simpl; rewrite E; [reflexivity|]. now rewrite IH.
Qed.

Lemma od_get_del_same (d : list (K * A)) k :
  NoDup (map fst d) -> od_get keq (od_del keq d k) k = None.
Proof.
  induction d as [|[k' a'] d IH]; simpl; [reflexivity|].
  intros ND. inversion ND as [|? ? Nin ND']. subst.
  destruct (keq k' k) eqn:E.
  - apply keq_eq in E. subst. now apply od_get_None.
  - simpl. rewrite E. auto.
Qed.

Lemma od_get_del_other (d : list (K * A)) k k' :
  k <> k' -> od_get keq (od_del keq d k) k' = od_get keq d k'.
Proof.
  intros N. induction d as [|[k0 a0] d IH]; simpl; [reflexivity|].
  destruct (keq k0 k) eqn:E.
  - apply keq_eq in E. subst. now rewrite keq_neq.
  - simpl. now rewrite IH.
Qed.

End OrderedDictFacts.

(** ** The merge loop of [compact] *)

(** A loop over the rows of a store whose body rewrites one destination
    key per row. *)
Section MergeFold.
Context {V : Type}.
Variable step : Store V -> Key * V -> Store V.
Variable tgt : Key -> Key.
Variable res : option V -> V -> option V.
Hypothesis tgt_inj : forall k k', tgt k = tgt k' -> k = k'.
Hypothesis step_at : forall d k v,
  od_get key_eqb (step d (k, v)) (tgt k) = res (od_get key_eqb d (tgt k)) v.
Hypothesis step_other : forall d k v k',
  k' <> tgt k -> od_get key_eqb (step d (k, v)) k' = od_get key_eqb d k'.

Lemma fold_step_other (rows : list (Key * V)) : forall d k',
  (forall k v, In (k, v) rows -> k' <> tgt k) ->
  od_get key_eqb (fold_left step rows d) k' = od_get key_eqb d k'.
Proof.
  induction rows as [|[k0 v0] rows IH]; intros d k' Hk; simpl; [reflexivity|].
  rewrite IH by (intros k v I; apply (Hk k v); now right).
  apply step_other. apply (Hk k0 v0). now left.
Qed.

Lemma fold_step_at (rows : list (Key * V)) : forall d k v,
  NoDup (map fst rows) -> In (k, v) rows ->
  od_get key_eqb (fold_left step rows d) (tgt k) = res (od_get key_eqb d (tgt k)) v.
Proof.
  induction rows as [|[k0 v0] rows IH]; intros d k v ND I; simpl in *; [tauto|].
  inversion ND as [|? ? Nin ND']. subst.
  destruct I as [E|I].
  - inversion E. subst. rewrite fold_step_other; [apply step_at|].
    intros k1 v1 I1 E1. apply tgt_inj in E1. subst k1.
    apply Nin. change k with (fst (k, v1)). now apply in_map.
  - rewrite (IH _ _ _ ND' I). f_equal. apply step_other.
    intros E1. apply tgt_inj in E1. subst k0.
    apply Nin. change k with (fst (k, v)). now apply in_map.
Qed.

End MergeFold.

Section MergeRow.
Context {V : Type} `{Arith V}.

Lemma read_value_get (d : Store V) key :
  od_get key_eqb (snd (read_value d key)) key = Some (fst (read_value d key)).
Proof.
  unfold read_value. destruct (od_get key_eqb d key) eqn:G; simpl; [exact G|].
  apply (od_get_set_same _ key_eqb_eq).
Qed.

Lemma read_value_fst (d : Store V) key :
  fst (read_value d key) = default vzero (od_get key_eqb d key).
Proof.
  unfold read_value. now destruct (od_get key_eqb d key).
Qed.

Lemma read_value_other (d : Store V) key k' :
  k' <> key -> od_get key_eqb (snd (read_value d key)) k' = od_get key_eqb d k'.
Proof.
  intros N. unfold read_value. destruct (od_get key_eqb d key); simpl; [reflexivity|].
  apply (od_get_set_other _ key_eqb_eq). congruence.
Qed.

(** Any type but gauge: the stored value becomes (current, or 0.0) + incoming. *)
Lemma merge_row_sum_at typ mm pid (d : Store V) k v :
  typ <> "gauge" ->
  od_get key_eqb (merge_row typ mm pid d (k, v)) k
  = Some (default vzero (od_get key_eqb d k) +. v).
Proof.
  intros N. unfold merge_row. apply String.eqb_neq in N. rewrite N.
  destruct (read_value d k) as [v0 d1] eqn:R.
  unfold write_value. rewrite (od_get_set_same _ key_eqb_eq).
  change v0 with (fst (v0, d1)). rewrite <- R. now rewrite read_value_fst.
Qed.

Lemma merge_row_sum_other typ mm pid (d : Store V) k v k' :
  typ <> "gauge" -> k' <> k ->
  od_get key_eqb (merge_row typ mm pid d (k, v)) k' = od_get key_eqb d k'.
Proof.
  intros N Nk. unfold merge_row. apply String.eqb_neq in N. rewrite N.
  destruct (read_value d k) as [v0 d1] eqn:R.
  unfold write_value. rewrite (od_get_set_other _ key_eqb_eq) by congruence.
  change d1 with (snd (v0, d1)). rewrite <- R. now apply read_value_other.
Qed.

Lemma merge_row_min_at pid (d : Store V) k v :
  od_get key_eqb (merge_row "gauge" (Some "min") pid d (k, v)) k
  = min_merge (od_get key_eqb d k) v.
Proof.
  unfold merge_row, read_value_noinit, write_value, min_merge, py_min. simpl.
  destruct (od_get key_eqb d k) as [c|] eqn:G.
  - destruct (v <. c); [apply (od_get_set_same _ key_eqb_eq) | exact G].
  - apply (od_get_set_same _ key_eqb_eq).
Qed.

Lemma merge_row_min_other pid (d : Store V) k v k' :
  k' <> k ->
  od_get key_eqb (merge_row "gauge" (Some "min") pid d (k, v)) k' = od_get key_eqb d k'.
Proof.
  intros N. unfold merge_row, read_value_noinit, write_value. simpl.
  destruct (od_get key_eqb d k) as [c|] eqn:G.
  - destruct (v <. c); [|reflexivity].
    apply (od_get_set_other _ key_eqb_eq). congruence.
  - apply (od_get_set_other _ key_eqb_eq). congruence.
Qed.

(** gauge/max as written: the guard [value > dst.read_value(key)] reads
    with the default, so an unset key counts as 0.0. *)
Lemma merge_row_max_at pid (d : Store V) k v :
  od_get key_eqb (merge_row "gauge" (Some "max") pid d (k, v)) k
  = Some (py_max (default vzero (od_get key_eqb d k)) v).
Proof.
  unfold merge_row, read_value_noinit, write_value, py_max. simpl.
  pose proof (read_value_get d k) as G. pose proof (read_value_fst d k) as F.
  destruct (read_value d k) as [v0 d1]. simpl in G, F. subst v0.
  destruct (v >. default vzero (od_get key_eqb d k)) eqn:C; [|exact G].
  rewrite G, C. apply (od_get_set_same _ key_eqb_eq).
Qed.

Lemma merge_row_max_other pid (d : Store V) k v k' :
  k' <> k ->
  od_get key_eqb (merge_row "gauge" (Some "max") pid d (k, v)) k' = od_get key_eqb d k'.
Proof.
  intros N. unfold merge_row, read_value_noinit, write_value. simpl.
  pose proof (read_value_get d k) as G. pose proof (read_value_other d N) as O.
  destruct (read_value d k) as [v0 d1]. simpl in G, O.
  destruct (v >. v0); [|exact O].
  rewrite G. destruct (v >. v0); [|exact O].
  rewrite (od_get_set_other _ key_eqb_eq) by congruence. exact O.
Qed.

(** gauge/all: the row is written under its key extended by the pid. *)
Lemma merge_row_all_at pid (d : Store V) k v :
  od_get key_eqb (merge_row "gauge" (Some "all") pid d (k, v)) (rekey k pid) = Some v.
Proof.
  unfold merge_row, write_value. simpl. apply (od_get_set_same _ key_eqb_eq).
Qed.

Lemma merge_row_all_other pid (d : Store V) k v k' :
  k' <> rekey k pid ->
  od_get key_eqb (merge_row "gauge" (Some "all") pid d (k, v)) k' = od_get key_eqb d k'.
Proof.
  intros N. unfold merge_row, write_value. simpl.
  apply (od_get_set_other _ key_eqb_eq). congruence.
Qed.

Lemma rekey_inj pid k k' : rekey k pid = rekey k' pid -> k = k'.
Proof.
  destruct k as [m n ln lv], k' as [m' n' ln' lv']. unfold rekey. simpl.
  intros E. inversion E as [[Em En Eln Elv]].
  apply app_inv_tail in Eln, Elv. now subst.
Qed.

(** The gauge modes [compact] has no branch for: nothing is written. *)
Lemma merge_rows_skip mm pid (src d : Store V) :
  mode_is mm "min" = false -> mode_is mm "max" = false -> mode_is mm "all" = false ->
  merge_rows "gauge" mm pid src d = d.
Proof.
  intros Hmin Hmax Hall. unfold merge_rows, read_all_values.
  induction src as [|[k v] src IH]; simpl; [reflexivity|].
  rewrite Hmin, Hmax, Hall. exact IH.
Qed.

End MergeRow.

(** ** Running [compact] *)

Section CompactRun.
Context {V : Type} `{Arith V}.

Lemma compact_body_run (w : World V) srcf typ mm pid src tr :
  od_get String.eqb (files w) srcf = Some src ->
  (src0 <- mmap_open_read srcf ;;
   dst <- mmap_open (archive_name typ mm) ;;
   mmap_flush (archive_name typ mm) (merge_rows typ mm pid src0 dst) ;;
   os_remove srcf) (mkWorld (files w) (flock_env w) tr)
  = (Ok tt,
     mkWorld
       (od_del String.eqb
          (od_set String.eqb (files w) (archive_name typ mm)
             (merge_rows typ mm pid src (archive_of w typ mm)))
          srcf)
       (flock_env w) (EvRemove srcf :: tr)).
Proof.
  intros Hsrc.
  unfold archive_of.
  cbv [bind mmap_open_read mmap_open mmap_flush os_remove get_files put_files
       ret raise emit].
  cbn [files flock_env trace]. rewrite Hsrc.
  destruct (od_get String.eqb (files w) (archive_name typ mm)) as [dst|] eqn:Hdst;
    cbn [files flock_env trace default]; rewrite ?Hdst; cbn [files flock_env trace].
  - destruct (String.eqb_spec (archive_name typ mm) srcf) as [E|N].
    + rewrite E. rewrite (od_get_set_same _ String.eqb_eq). reflexivity.
    + rewrite (od_get_set_other _ String.eqb_eq) by exact N.
      rewrite Hsrc. reflexivity.
  - rewrite (od_set_set _ String.eqb_eq).
    destruct (String.eqb_spec (archive_name typ mm) srcf) as [E|N].
    + rewrite E in Hdst. congruence.
    + rewrite (od_get_set_other _ String.eqb_eq) by exact N.
      rewrite Hsrc. reflexivity.
Qed.

(** A store of any type but gauge, named [typ_pid_...]. *)
Lemma compact_run_plain (w : World V) srcf typ pid rest src :
  split "_" srcf = typ :: pid :: rest ->
  typ <> "gauge" ->
  flock_env w "compacting" LOCK_EX = Acquired ->
  od_get String.eqb (files w) srcf = Some src ->
  compact srcf w = (Ok tt, compacted w srcf typ None pid src).
Proof.
  intros Hparts Htyp Hlock Hsrc. apply String.eqb_neq in Htyp.
  unfold compact, flocking, finally, flock.
  unfold bind at 1. unfold emit at 1. unfold bind at 1. unfold emit at 1.
  cbn [files flock_env trace]. unfold bind at 1. cbn [files flock_env trace].
  rewrite Hlock. unfold emit at 1. cbn [files flock_env trace].
  rewrite Hparts. unfold index, lift. cbn [nth_error].
  unfold bind at 1. rewrite Htyp. unfold bind at 1, ret at 1. unfold bind at 1.
  pose proof (@compact_body_run w srcf typ None pid src
    (EvFlock "compacting" LOCK_EX :: EvOpen "compacting" :: EvCompact srcf :: trace w) Hsrc) as R.
  rewrite R. reflexivity.
Qed.

(** A gauge store, named [gauge_mode_pid_...]. *)
Lemma compact_run_gauge (w : World V) srcf mode pid rest src :
  split "_" srcf = "gauge" :: mode :: pid :: rest ->
  flock_env w "compacting" LOCK_EX = Acquired ->
  od_get String.eqb (files w) srcf = Some src ->
  compact srcf w = (Ok tt, compacted w srcf "gauge" (Some mode) pid src).
Proof.
  intros Hparts Hlock Hsrc.
  unfold compact, flocking, finally, flock.
  unfold bind at 1. unfold emit at 1. unfold bind at 1. unfold emit at 1.
  cbn [files flock_env trace]. unfold bind at 1. cbn [files flock_env trace].
  rewrite Hlock. unfold emit at 1. cbn [files flock_env trace].
  rewrite Hparts. unfold index, lift. cbn [nth_error].
  unfold bind at 1. cbn [String.eqb Ascii.eqb Bool.eqb].
  unfold bind at 1. unfold bind at 1. unfold ret at 1. unfold bind at 1.
  pose proof (@compact_body_run w srcf "gauge" (Some mode) pid src
    (EvFlock "compacting" LOCK_EX :: EvOpen "compacting" :: EvCompact srcf :: trace w) Hsrc) as R.
  rewrite R. reflexivity.
Qed.

Lemma compacted_archive (w : World V) srcf typ mm pid src :
  srcf <> archive_name typ mm ->
  archive_of (compacted w srcf typ mm pid src) typ mm
  = merge_rows typ mm pid src (archive_of w typ mm).
Proof.
  intros N. unfold archive_of at 1. unfold compacted. cbn [files].
  rewrite (od_get_del_other _ String.eqb_eq) by exact N.
  now rewrite (od_get_set_same _ String.eqb_eq).
Qed.

Lemma compacted_source_gone (w : World V) srcf typ mm pid src :
  NoDup (map fst (files w)) ->
  od_get String.eqb (files (compacted w srcf typ mm pid src)) srcf = None.
Proof.
  intros ND. unfold compacted. cbn [files].
  apply (od_get_del_same _ String.eqb_eq).
  now apply (od_set_NoDup _ String.eqb_eq).
Qed.

End CompactRun.

(** ** Compaction: what reaches the archive *)

Section CompactClaims.
Context {V : Type} `{Arith V}.

(** C2 (amended).  Compacting a store of any type other than gauge
    (counter, histogram, summary) leaves, for every row (key, value) of the
    source, archive[key] = (the value the archive held, 0.0 when the key was
    absent) + value.  A gauge/livesum store is not merged: [compact] has no
    branch for that mode and the archive keeps its rows as they were. *)
Theorem compact_adds_unless_gauge :
  (forall (w : World V) srcf typ pid rest src,
      split "_" srcf = typ :: pid :: rest ->
      typ <> "gauge" ->
      flock_env w "compacting" LOCK_EX = Acquired ->
      od_get String.eqb (files w) srcf = Some src ->
      NoDup (map fst src) ->
      srcf <> archive_name typ None ->
      exists w',
        compact srcf w = (Ok tt, w') /\
        forall key value, In (key, value) src ->
          od_get key_eqb (archive_of w' typ None) key
          = Some (default vzero (od_get key_eqb (archive_of w typ None) key) +. value))
  /\
  (forall (w : World V) srcf pid rest src,
      split "_" srcf = "gauge" :: "livesum" :: pid :: rest ->
      flock_env w "compacting" LOCK_EX = Acquired ->
      od_get String.eqb (files w) srcf = Some src ->
      srcf <> archive_name "gauge" (Some "livesum") ->
      exists w',
        compact srcf w = (Ok tt, w') /\
        archive_of w' "gauge" (Some "livesum") = archive_of w "gauge" (Some "livesum")).
Proof.
  split.
  - intros w srcf typ pid rest src Hparts Htyp Hlock Hsrc ND Hne.
    exists (compacted w srcf typ None pid src). split.
    + now apply compact_run_plain with (rest := rest).
    + intros key value I. rewrite compacted_archive by exact Hne.
      unfold merge_rows, read_all_values.
      apply (fold_step_at (merge_row typ None pid) (fun k => k)
               (fun o v => Some (default vzero o +. v))); auto.
      * intros d k v. now apply merge_row_sum_at.
      * intros d k v k' N. now apply merge_row_sum_other.
  - intros w srcf pid rest src Hparts Hlock Hsrc Hne.
    exists (compacted w srcf "gauge" (Some "livesum") pid src). split.
    + now apply compact_run_gauge with (rest := rest).
    + rewrite compacted_archive by exact Hne.
      now apply merge_rows_skip.
Qed.

(** C3 (amended).  Compacting a gauge/all store writes every row (key,
    value) of the source into the archive under the key extended by the
    label name 'pid' and, as its value, the third underscore-separated
    segment of the source file name; the value is stored as it is, whatever
    the archive held.  A gauge/liveall store is not merged: the archive
    keeps its rows as they were. *)
Theorem compact_gauge_all_rekeys :
  (forall (w : World V) srcf pid rest src,
      split "_" srcf = "gauge" :: "all" :: pid :: rest ->
      flock_env w "compacting" LOCK_EX = Acquired ->
      od_get String.eqb (files w) srcf = Some src ->
      NoDup (map fst src) ->
      srcf <> archive_name "gauge" (Some "all") ->
      exists w',
        compact srcf w = (Ok tt, w') /\
        forall key value, In (key, value) src ->
          od_get key_eqb (archive_of w' "gauge" (Some "all"))
            (mkKey (metric_name key) (sample_name key)
                   (labelnames key ++ ["pid"]) (labelvalues key ++ [pid]))
          = Some value)
  /\
  (forall (w : World V) srcf pid rest src,
      split "_" srcf = "gauge" :: "liveall" :: pid :: rest ->
      flock_env w "compacting" LOCK_EX = Acquired ->
      od_get String.eqb (files w) srcf = Some src ->
      srcf <> archive_name "gauge" (Some "liveall") ->
      exists w',
        compact srcf w = (Ok tt, w') /\
        archive_of w' "gauge" (Some "liveall") = archive_of w "gauge" (Some "liveall")).
Proof.
  split.
  - intros w srcf pid rest src Hparts Hlock Hsrc ND Hne.
    exists (compacted w srcf "gauge" (Some "all") pid src). split.
    + now apply compact_run_gauge with (rest := rest).
    + intros key value I. rewrite compacted_archive by exact Hne.
      unfold merge_rows, read_all_values.
      apply (fold_step_at (merge_row "gauge" (Some "all") pid) (fun k => rekey k pid)
               (fun _ v => Some v)); auto.
      * intros k k'. apply rekey_inj.
      * intros d k v. apply merge_row_all_at.
      * intros d k v k' N. now apply merge_row_all_other.
  - intros w srcf pid rest src Hparts Hlock Hsrc Hne.
    exists (compacted w srcf "gauge" (Some "liveall") pid src). split.
    + now apply compact_run_gauge with (rest := rest).
    + rewrite compacted_archive by exact Hne.
      now apply merge_rows_skip.
Qed.

(** What gauge/max compaction computes: the guard of line 149 reads the
    archive with the default, so an unset key is compared as 0.0. *)
Lemma compact_gauge_max_defaults (w : World V) srcf pid rest src :
  split "_" srcf = "gauge" :: "max" :: pid :: rest ->
  flock_env w "compacting" LOCK_EX = Acquired ->
  od_get String.eqb (files w) srcf = Some src ->
  NoDup (map fst src) ->
  srcf <> archive_name "gauge" (Some "max") ->
  exists w',
    compact srcf w = (Ok tt, w') /\
    forall key value, In (key, value) src ->
      od_get key_eqb (archive_of w' "gauge" (Some "max")) key
      = Some (py_max (default vzero (od_get key_eqb (archive_of w "gauge" (Some "max")) key))
                value).
Proof.
  intros Hparts Hlock Hsrc ND Hne.
  exists (compacted w srcf "gauge" (Some "max") pid src). split.
  - now apply compact_run_gauge with (rest := rest).
  - intros key value I. rewrite compacted_archive by exact Hne.
    unfold merge_rows, read_all_values.
    apply (fold_step_at (merge_row "gauge" (Some "max") pid) (fun k => k)
             (fun o v => Some (py_max (default vzero o) v))); auto.
    + intros d k v. apply merge_row_max_at.
    + intros d k v k' N. now apply merge_row_max_other.
Qed.

(** C5.  Compacting a gauge/min store leaves, for every row (key, value) of
    the source, archive[key] = min(current, value) when the archive held
    [current] under the key, and [value] itself when the key was absent
    (so also when the archive was empty or did not exist). *)
Theorem compact_gauge_min (w : World V) srcf pid rest src :
  split "_" srcf = "gauge" :: "min" :: pid :: rest ->
  flock_env w "compacting" LOCK_EX = Acquired ->
  od_get String.eqb (files w) srcf = Some src ->
  NoDup (map fst src) ->
  srcf <> archive_name "gauge" (Some "min") ->
  exists w',
    compact srcf w = (Ok tt, w') /\
    forall key value, In (key, value) src ->
      od_get key_eqb (archive_of w' "gauge" (Some "min")) key
      = match od_get key_eqb (archive_of w "gauge" (Some "min")) key with
        | Some current => Some (py_min current value)
        | None => Some value
        end.
Proof.
  intros Hparts Hlock Hsrc ND Hne.
  exists (compacted w srcf "gauge" (Some "min") pid src). split.
  - now apply compact_run_gauge with (rest := rest).
  - intros key value I. rewrite compacted_archive by exact Hne.
    unfold merge_rows, read_all_values.
    assert (F : od_get key_eqb
                  (fold_left (merge_row "gauge" (Some "min") pid) src
                     (archive_of w "gauge" (Some "min"))) key
                = min_merge (od_get key_eqb (archive_of w "gauge" (Some "min")) key) value).
    { apply (fold_step_at (merge_row "gauge" (Some "min") pid) (fun k => k) min_merge); auto.
      - intros d k v. apply merge_row_min_at.
      - intros d k v k' N. now apply merge_row_min_other. }
    rewrite F. unfold min_merge.
    now destruct (od_get key_eqb (archive_of w "gauge" (Some "min")) key).
Qed.

End CompactClaims.

(** ** Compaction on concrete directories (binary64 values) *)

Lemma NoDup_temp_load : NoDup [k_temp; k_load].
Proof.
  constructor; [|constructor; [|constructor]]; simpl; intuition discriminate.
Defined.

(** C2, as stated, fails for gauge/livesum: the row (temp, 2.0) of the
    source is not added into the archive, which holds nothing under the key
    after the compaction. *)
Lemma compact_livesum_counterexample :
  exists w',
    compact "gauge_livesum_123_0.db" w_livesum = (Ok tt, w') /\
    od_get key_eqb (archive_of w' "gauge" (Some "livesum")) k_temp
    <> Some (default vzero
               (od_get key_eqb (archive_of w_livesum "gauge" (Some "livesum")) k_temp)
             +. 2%float).
Proof.
  eexists. split; [vm_compute; reflexivity | vm_compute; discriminate].
Qed.

Lemma compact_adds_unless_gauge_witness :
  exists w',
    compact "counter_123_0.db" w_counter = (Ok tt, w') /\
    forall key value, In (key, value) [(k_temp, 3%float); (k_load, 4%float)] ->
      od_get key_eqb (archive_of w' "counter" None) key
      = Some (default vzero (od_get key_eqb (archive_of w_counter "counter" None) key)
              +. value).
Proof.
  apply (proj1 (@compact_adds_unless_gauge float binary64)
           w_counter "counter_123_0.db" "counter" "123" ["0.db"]).
  - reflexivity.
  - discriminate.
  - reflexivity.
  - reflexivity.
  - exact NoDup_temp_load.
  - discriminate.
Defined.

(** C3, as stated, fails for gauge/liveall: the row (temp, 2.0) of the
    source is not written under the key extended by the pid. *)
Lemma compact_liveall_counterexample :
  exists w',
    compact "gauge_liveall_123_0.db" w_liveall = (Ok tt, w') /\
    od_get key_eqb (archive_of w' "gauge" (Some "liveall"))
      (mkKey "temp" "temp" ["room"; "pid"] ["attic"; "123"])
    <> Some 2%float.
Proof.
  eexists. split; [vm_compute; reflexivity | vm_compute; discriminate].
Qed.

Lemma compact_gauge_all_rekeys_witness :
  exists w',
    compact "gauge_all_123_0.db" w_all = (Ok tt, w') /\
    forall key value, In (key, value) [(k_temp, 3%float); (k_load, 4%float)] ->
      od_get key_eqb (archive_of w' "gauge" (Some "all"))
        (mkKey (metric_name key) (sample_name key)
               (labelnames key ++ ["pid"]) (labelvalues key ++ ["123"]))
      = Some value.
Proof.
  apply (proj1 (@compact_gauge_all_rekeys float binary64)
           w_all "gauge_all_123_0.db" "123" ["0.db"]).
  - reflexivity.
  - reflexivity.
  - reflexivity.
  - exact NoDup_temp_load.
  - discriminate.
Defined.

(** C4 on a failing input: a gauge/max store holding -5.0 under a key the
    archive does not have.  [compact] succeeds and the archive holds 0.0
    under the key, not -5.0: the unset key was read with the default and
    compared as 0.0. *)
Theorem compact_gauge_max_unset_key :
  od_get key_eqb (archive_of w_max "gauge" (Some "max")) k_temp = None /\
  exists w',
    compact "gauge_max_123_0.db" w_max = (Ok tt, w') /\
    od_get key_eqb (archive_of w' "gauge" (Some "max")) k_temp = Some 0%float.
Proof.
  split; [reflexivity|].
  eexists. split; vm_compute; reflexivity.
Qed.

Lemma compact_gauge_min_witness :
  exists w',
    compact "gauge_min_123_0.db" w_min = (Ok tt, w') /\
    forall key value, In (key, value) [(k_temp, 3%float); (k_load, 4%float)] ->
      od_get key_eqb (archive_of w' "gauge" (Some "min")) key
      = match od_get key_eqb (archive_of w_min "gauge" (Some "min")) key with
        | Some current => Some (py_min current value)
        | None => Some value
        end.
Proof.
  apply (@compact_gauge_min float binary64 w_min "gauge_min_123_0.db" "123" ["0.db"]).
  - reflexivity.
  - reflexivity.
  - reflexivity.
  - exact NoDup_temp_load.
  - discriminate.
Defined.

(** A gauge/min store compacted into a directory without archive: the
    archive is created and adopts the source values as they are. *)
Example compact_gauge_min_empty_archive :
  exists w',
    compact "gauge_min_123_0.db"
      (mkWorld [("gauge_min_123_0.db", [(k_temp, 3%float); (k_load, 4%float)])]
         all_granted [])
    = (Ok tt, w') /\
    files w' = [("gauge_min_archived.db", [(k_temp, 3%float); (k_load, 4%float)])].
Proof. eexists. split; vm_compute; reflexivity. Qed.

(* ================================================================== *)
(** ** Death bookkeeping *)

Section DeathClaims.
Context {V : Type} `{Arith V}.

Ltac run :=
  cbv [compact flocking finally flock bind emit lift ret raise get_files put_files
       mmap_open_read mmap_open mmap_flush os_remove with_open_rb catch_IOError
       mark_file_dead index];
  cbn [files flock_env trace].

Ltac scrut :=
  match goal with
  | |- context [match ?x with _ => _ end] =>
      match x with
      | context [match _ with _ => _ end] => fail 1
      | _ => destruct x eqn:?
      end
  | |- context [if ?x then _ else _] =>
      match x with
      | context [match _ with _ => _ end] => fail 1
      | context [if _ then _ else _] => fail 1
      | _ => destruct x eqn:?
      end
  end.

(** The system calls of [compact(f)], whatever its outcome: the
    coordination file is opened and closed; in between the lock may be
    granted, and then the source may be unlinked. *)
Lemma compact_trace (w : World V) f r w' :
  compact f w = (r, w') ->
  trace w' = EvClose "compacting" :: EvOpen "compacting" :: EvCompact f :: trace w \/
  trace w' = EvClose "compacting" :: EvFlock "compacting" LOCK_EX
               :: EvOpen "compacting" :: EvCompact f :: trace w \/
  trace w' = EvClose "compacting" :: EvRemove f :: EvFlock "compacting" LOCK_EX
               :: EvOpen "compacting" :: EvCompact f :: trace w.
Proof.
  run.
  repeat (scrut; cbn [files flock_env trace]); intros [= <- <-]; cbn [trace]; auto.
Qed.

(** A successful [compact(f)] has unlinked [f]. *)
Lemma compact_ok_source_gone (w : World V) f w' :
  NoDup (map fst (files w)) ->
  compact f w = (Ok tt, w') ->
  od_get String.eqb (files w') f = None.
Proof.
  intros ND. run.
  repeat (scrut; cbn [files flock_env trace]); intros [= <-]; cbn [files];
    apply (od_get_del_same _ String.eqb_eq);
    repeat apply (od_set_NoDup _ String.eqb_eq); exact ND.
Qed.

Lemma os_remove_trace (w : World V) f r w' :
  os_remove f w = (r, w') ->
  trace w' = trace w \/ trace w' = EvRemove f :: trace w.
Proof.
  cbv [os_remove bind get_files put_files emit raise]. cbn [files flock_env trace].
  destruct (od_get String.eqb (files w) f); intros [= <- <-]; cbn; auto.
Qed.

(** The loop body, by the outcome of the probe. *)
Lemma mark_file_dead_cases (w : World V) f :
  mark_file_dead f w =
  match od_get String.eqb (files w) f with
  | None => (Raise (IOError ENOENT), w)
  | Some _ =>
      match flock_env w f LOCK_EX_NB with
      | Acquired =>
          let w1 := mkWorld (files w) (flock_env w)
                      (EvClose f :: EvFlock f LOCK_EX_NB :: EvOpen f :: trace w) in
          if startswith f "gauge_live" then os_remove f w1 else compact f w1
      | Failed errno =>
          let w1 := mkWorld (files w) (flock_env w) (EvClose f :: EvOpen f :: trace w) in
          if Z.eqb errno EWOULDBLOCK then (Ok tt, w1) else (Raise (IOError errno), w1)
      end
  end.
Proof.
  cbv [mark_file_dead with_open_rb bind get_files].
  destruct (od_get String.eqb (files w) f); [|reflexivity].
  cbv [finally catch_IOError flock bind emit ret raise]. cbn [files flock_env trace].
  destruct (flock_env w f LOCK_EX_NB) as [|errno]; cbn [files flock_env trace].
  - destruct (startswith f "gauge_live"); reflexivity.
  - destruct (Z.eqb errno EWOULDBLOCK); reflexivity.
Qed.

Lemma mark_process_dead_app (l1 l2 : list string) : forall (w : World V),
  mark_process_dead (l1 ++ l2) w =
  match mark_process_dead l1 w with
  | (Ok _, w1) => mark_process_dead l2 w1
  | (Raise e, w1) => (Raise e, w1)
  end.
Proof.
  induction l1 as [|f l1 IH]; intros w; simpl; [reflexivity|].
  unfold bind. destruct (mark_file_dead f w) as [[[]|e] w1]; [apply IH | reflexivity].
Qed.

Lemma mark_process_dead_one (f : string) (w : World V) :
  mark_process_dead [f] w = mark_file_dead f w.
Proof.
  simpl. unfold bind, ret. now destruct (mark_file_dead f w) as [[[]|e] w1].
Qed.

Lemma mark_process_dead_cons_raise (f : string) rest (w w' : World V) e :
  mark_file_dead f w = (Raise e, w') ->
  mark_process_dead (f :: rest) w = (Raise e, w').
Proof.
  intros R. simpl. unfold bind. now rewrite R.
Qed.

Lemma mark_process_dead_cons_ok (f : string) rest (w w' : World V) :
  mark_file_dead f w = (Ok tt, w') ->
  mark_process_dead (f :: rest) w = mark_process_dead rest w'.
Proof.
  intros R. simpl. unfold bind. now rewrite R.
Qed.

(** C9.  When the loop of [mark_process_dead] reaches a matched file [f]
    (in the directory [w1] the earlier files left): a probe refused with
    EWOULDBLOCK leaves the directory as it is, raises nothing and the loop
    goes on; a probe refused with any other errno raises that [IOError] out
    of [mark_process_dead]; after a granted probe a file whose name starts
    with 'gauge_live' is removed, and any other file is handed to
    [compact], after which, when [compact] succeeds, the file is gone. *)
Theorem mark_process_dead_per_file (w w1 : World V) before f after :
  mark_process_dead before w = (Ok tt, w1) ->
  NoDup (map fst (files w1)) ->
  In f (map fst (files w1)) ->
  match flock_env w1 f LOCK_EX_NB with
  | Failed errno =>
      let w2 := mkWorld (files w1) (flock_env w1) (EvClose f :: EvOpen f :: trace w1) in
      if Z.eqb errno EWOULDBLOCK
      then mark_process_dead (before ++ [f]) w = (Ok tt, w2) /\
           mark_process_dead (before ++ f :: after) w = mark_process_dead after w2
      else mark_process_dead (before ++ f :: after) w = (Raise (IOError errno), w2)
  | Acquired =>
      let w2 := mkWorld (files w1) (flock_env w1)
                  (EvClose f :: EvFlock f LOCK_EX_NB :: EvOpen f :: trace w1) in
      if startswith f "gauge_live"
      then mark_process_dead (before ++ [f]) w
           = (Ok tt, mkWorld (od_del String.eqb (files w1) f) (flock_env w1)
                       (EvRemove f :: trace w2)) /\
           od_get String.eqb (od_del String.eqb (files w1) f) f = None
      else mark_process_dead (before ++ [f]) w = compact f w2 /\
           forall w3, compact f w2 = (Ok tt, w3) ->
                      od_get String.eqb (files w3) f = None
  end.
Proof.
  intros Hbefore ND Hin.
  assert (Hex : exists d, od_get String.eqb (files w1) f = Some d).
  { destruct (od_get String.eqb (files w1) f) as [d|] eqn:G; [now exists d|].
    apply (od_get_None _ String.eqb_eq) in G. contradiction. }
  destruct Hex as [d Hd].
  pose proof (mark_file_dead_cases w1 f) as C. rewrite Hd in C.
  rewrite !mark_process_dead_app, Hbefore, mark_process_dead_one.
  destruct (flock_env w1 f LOCK_EX_NB) as [|errno]; cbv zeta in *.
  - destruct (startswith f "gauge_live").
    + split; [|now apply (od_get_del_same _ String.eqb_eq)].
      rewrite C. cbv [os_remove bind get_files put_files emit].
      cbn [files flock_env trace]. now rewrite Hd.
    + split; [exact C|]. intros w3 R.
      eapply compact_ok_source_gone; [|exact R]. exact ND.
  - destruct (Z.eqb errno EWOULDBLOCK).
    + split; [exact C|]. now apply mark_process_dead_cons_ok.
    + now apply mark_process_dead_cons_raise.
Qed.

Lemma mark_file_dead_lock_free (w : World V) f r w' :
  f <> "compacting" ->
  lock_free (trace w) ->
  mark_file_dead f w = (r, w') ->
  lock_free (trace w').
Proof.
  intros Hf [Hd Hh]. rewrite mark_file_dead_cases.
  destruct (od_get String.eqb (files w) f); [|intros [= <- <-]; now split].
  destruct (flock_env w f LOCK_EX_NB) as [|errno]; cbv zeta.
  - destruct (startswith f "gauge_live"); intros R.
    + apply os_remove_trace in R. cbn [trace] in R.
      destruct R as [-> | ->]; unfold lock_free; cbn [held reclaims_unlocked];
        rewrite Hh; simpl; destruct (string_dec f f); try congruence; simpl; tauto.
    + apply compact_trace in R. cbn [trace] in R.
      destruct R as [-> | [-> | ->]]; unfold lock_free; cbn [held reclaims_unlocked];
        rewrite Hh; simpl; destruct (string_dec f f); try congruence; simpl;
        intuition (try congruence).
  - destruct (Z.eqb errno EWOULDBLOCK); intros [= <- <-]; unfold lock_free;
      cbn [trace held reclaims_unlocked]; rewrite Hh; simpl; tauto.
Qed.

(** C10.  In every run of [mark_process_dead], whatever its outcome, each
    removal of a file and each call of [compact] on a file happens while
    the process holds no lock on that file: the handle that carried the
    probe's lock has been closed before, and no lock is left when the run
    ends.  (The matched names end in '.db', so none is the coordination
    file.) *)
Theorem mark_process_dead_reclaims_unlocked (matched : list string) :
  forall (w : World V) r w',
    ~ In "compacting" matched ->
    lock_free (trace w) ->
    mark_process_dead matched w = (r, w') ->
    reclaims_unlocked (trace w') /\ held (trace w') = [].
Proof.
  induction matched as [|f rest IH]; intros w r w' Hc Hw.
  - simpl. unfold ret. intros [= <- <-]. exact Hw.
  - simpl. unfold bind. destruct (mark_file_dead f w) as [[[]|e] w1] eqn:R.
    + apply IH; [simpl in Hc; tauto|].
      eapply mark_file_dead_lock_free; [|exact Hw|exact R].
      simpl in Hc. intros ->. tauto.
    + intros [= <- <-].
      eapply mark_file_dead_lock_free; [|exact Hw|exact R].
      simpl in Hc. intros ->. tauto.
Qed.

End DeathClaims.

(** ** Death bookkeeping on a concrete directory *)

Lemma mark_process_dead_per_file_witness :
  mark_process_dead (["counter_123_0.db"] ++ ["gauge_liveall_123_0.db"]) w_dead
  = (Ok tt,
     mkWorld (od_del String.eqb (files w_dead1) "gauge_liveall_123_0.db")
       (flock_env w_dead1)
       (EvRemove "gauge_liveall_123_0.db" :: EvClose "gauge_liveall_123_0.db"
          :: EvFlock "gauge_liveall_123_0.db" LOCK_EX_NB
          :: EvOpen "gauge_liveall_123_0.db" :: trace w_dead1)) /\
  od_get String.eqb (od_del String.eqb (files w_dead1) "gauge_liveall_123_0.db")
    "gauge_liveall_123_0.db" = None.
Proof.
  assert (H1 : mark_process_dead ["counter_123_0.db"] w_dead = (Ok tt, w_dead1))
    by reflexivity.
  assert (H2 : NoDup (map fst (files w_dead1))).
  { repeat constructor; simpl; intuition discriminate. }
  assert (H3 : In "gauge_liveall_123_0.db" (map fst (files w_dead1))).
  { simpl. auto. }
  exact (@mark_process_dead_per_file float binary64 w_dead w_dead1
           ["counter_123_0.db"] "gauge_liveall_123_0.db" ["gauge_min_123_0.db"]
           H1 H2 H3).
Defined.

Lemma mark_process_dead_reclaims_unlocked_witness :
  reclaims_unlocked
    (trace (snd (mark_process_dead
                   ["counter_123_0.db"; "gauge_liveall_123_0.db"; "gauge_min_123_0.db"]
                   w_dead))) /\
  held
    (trace (snd (mark_process_dead
                   ["counter_123_0.db"; "gauge_liveall_123_0.db"; "gauge_min_123_0.db"]
                   w_dead))) = [].
Proof.
  apply (@mark_process_dead_reclaims_unlocked float binary64
           ["counter_123_0.db"; "gauge_liveall_123_0.db"; "gauge_min_123_0.db"]
           w_dead
           (fst (mark_process_dead
                   ["counter_123_0.db"; "gauge_liveall_123_0.db"; "gauge_min_123_0.db"]
                   w_dead))).
  - simpl. intuition discriminate.
  - split; [exact I | reflexivity].
  - apply surjective_pairing.
Defined.

(* ================================================================== *)
(** ** Loops that update one dictionary entry per element *)

Lemma foldM_ok {A B} (f : A -> B -> result A) (g : A -> B -> A) :
  (forall a b, f a b = Ok (g a b)) ->
  forall l a, foldM f l a = Ok (fold_left g l a).
Proof.
  intros E l. induction l as [|b l IH]; intros a; simpl; [reflexivity|].
  rewrite E. simpl. apply IH.
Qed.

Section GroupFold.
Context {R K A : Type} (keq : K -> K -> bool).
Hypothesis keq_eq : forall x y, keq x y = true <-> x = y.
Variable kappa : R -> K.
Variable step : list (K * A) -> R -> list (K * A).
Variable upd : option A -> R -> A.
Hypothesis step_at : forall d r,
  od_get keq (step d r) (kappa r) = Some (upd (od_get keq d (kappa r)) r).
Hypothesis step_other : forall d r k,
  k <> kappa r -> od_get keq (step d r) k = od_get keq d k.
Hypothesis step_NoDup : forall d r,
  NoDup (map fst d) -> NoDup (map fst (step d r)).

(** The entry of [k] after the loop: the updates of the elements that
    belong to [k], in order. *)
Lemma fold_group_get (rows : list R) : forall d k,
  od_get keq (fold_left step rows d) k
  = fold_left (fun o r => Some (upd o r)) (filter (fun r => keq (kappa r) k) rows)
      (od_get keq d k).
Proof.
  induction rows as [|r rows IH]; intros d k; simpl; [reflexivity|].
  rewrite IH. destruct (keq (kappa r) k) eqn:E; simpl.
  - apply keq_eq in E. subst k. now rewrite step_at.
  - rewrite step_other; [reflexivity|]. intros ->. rewrite (keq_refl _ keq_eq) in E.
    discriminate.
Qed.

Lemma fold_group_NoDup (rows : list R) : forall d,
  NoDup (map fst d) -> NoDup (map fst (fold_left step rows d)).
Proof.
  induction rows as [|r rows IH]; intros d ND; simpl; auto.
Qed.

End GroupFold.

Section SetDefault.
Context {K A : Type} (keq : K -> K -> bool).
Hypothesis keq_eq : forall x y, keq x y = true <-> x = y.

Lemma od_setdefault_fst (d : list (K * A)) k a :
  fst (od_setdefault keq d k a) = default a (od_get keq d k).
Proof. unfold od_setdefault. now destruct (od_get keq d k). Qed.

Lemma od_setdefault_get (d : list (K * A)) k a :
  od_get keq (snd (od_setdefault keq d k a)) k = Some (default a (od_get keq d k)).
Proof.
  unfold od_setdefault. destruct (od_get keq d k) eqn:G; simpl; [exact G|].
  apply (od_get_set_same _ keq_eq).
Qed.

Lemma od_setdefault_other (d : list (K * A)) k a k' :
  k' <> k -> od_get keq (snd (od_setdefault keq d k a)) k' = od_get keq d k'.
Proof.
  intros N. unfold od_setdefault. destruct (od_get keq d k); simpl; [reflexivity|].
  apply (od_get_set_other _ keq_eq). congruence.
Qed.

Lemma od_setdefault_NoDup (d : list (K * A)) k a :
  NoDup (map fst d) -> NoDup (map fst (snd (od_setdefault keq d k a))).
Proof.
  intros ND. unfold od_setdefault. destruct (od_get keq d k); simpl; [exact ND|].
  now apply (od_set_NoDup _ keq_eq).
Qed.

End SetDefault.

(* ================================================================== *)
(** ** Gauges *)

Section GaugeFacts.
Context {V : Type} `{Arith V}.

Lemma fold_py_min_least (vs : list V) : forall (seen : list V) (m : V),
  (forall x, In x (seen ++ vs) -> x <. x = false) ->
  (forall x y z, In x (seen ++ vs) -> In y (seen ++ vs) -> In z (seen ++ vs) ->
     x <. y = true -> y <. z = true -> x <. z = true) ->
  is_minimum m seen ->
  is_minimum (fold_left py_min vs m) (seen ++ vs).
Proof.
  induction vs as [|x vs IH]; intros seen m Hirr Htr [Hin Hle]; simpl.
  - rewrite app_nil_r. now split.
  - replace (seen ++ x :: vs) with ((seen ++ [x]) ++ vs) in *
      by (rewrite <- app_assoc; reflexivity).
    apply IH; auto.
    assert (Is : forall y, In y (seen ++ [x]) -> In y ((seen ++ [x]) ++ vs))
      by (intros y Iy; apply in_or_app; now left).
    unfold py_min. destruct (x <. m) eqn:C; split.
    + apply in_or_app. right. now left.
    + intros y Iy. apply in_app_or in Iy as [Iy|[<-|[]]].
      * destruct (y <. x) eqn:D; [|reflexivity].
        rewrite <- (Hle y Iy). symmetry. apply (Htr y x m); auto.
        -- apply Is, in_or_app. now left.
        -- apply Is, in_or_app. right. now left.
        -- apply Is, in_or_app. now left.
      * apply Hirr, Is, in_or_app. right. now left.
    + apply in_or_app. now left.
    + intros y Iy. apply in_app_or in Iy as [Iy|[<-|[]]]; auto.
Qed.

Lemma fold_py_max_greatest (vs : list V) : forall (seen : list V) (m : V),
  (forall x, In x (seen ++ vs) -> x <. x = false) ->
  (forall x y z, In x (seen ++ vs) -> In y (seen ++ vs) -> In z (seen ++ vs) ->
     x <. y = true -> y <. z = true -> x <. z = true) ->
  is_maximum m seen ->
  is_maximum (fold_left py_max vs m) (seen ++ vs).
Proof.
  induction vs as [|x vs IH]; intros seen m Hirr Htr [Hin Hle]; simpl.
  - rewrite app_nil_r. now split.
  - replace (seen ++ x :: vs) with ((seen ++ [x]) ++ vs) in *
      by (rewrite <- app_assoc; reflexivity).
    apply IH; auto.
    assert (Is : forall y, In y (seen ++ [x]) -> In y ((seen ++ [x]) ++ vs))
      by (intros y Iy; apply in_or_app; now left).
    unfold py_max. destruct (x >. m) eqn:C; split.
    + apply in_or_app. right. now left.
    + intros y Iy. apply in_app_or in Iy as [Iy|[<-|[]]].
      * destruct (x <. y) eqn:D; [|reflexivity].
        rewrite <- (Hle y Iy). symmetry. apply (Htr m x y); auto.
        -- apply Is, in_or_app. now left.
        -- apply Is, in_or_app. right. now left.
        -- apply Is, in_or_app. now left.
      * apply Hirr, Is, in_or_app. right. now left.
    + apply in_or_app. now left.
    + intros y Iy. apply in_app_or in Iy as [Iy|[<-|[]]]; auto.
Qed.

(** Python's [min] of a sequence on which [<] is a strict order is a
    minimum of it. *)
Lemma py_min_list_minimum (vs : list V) m :
  strict_order_on vs -> py_min_list vs = Some m -> is_minimum m vs.
Proof.
  intros [Hirr Htr]. destruct vs as [|v vs]; simpl; [discriminate|].
  intros [= <-]. apply (@fold_py_min_least vs [v] v); auto.
  split; [now left|]. intros y [<-|[]]. apply Hirr. now left.
Qed.

Lemma py_max_list_maximum (vs : list V) m :
  strict_order_on vs -> py_max_list vs = Some m -> is_maximum m vs.
Proof.
  intros [Hirr Htr]. destruct vs as [|v vs]; simpl; [discriminate|].
  intros [= <-]. apply (@fold_py_max_greatest vs [v] v); auto.
  split; [now left|]. intros y [<-|[]]. apply Hirr. now left.
Qed.

End GaugeFacts.

Section GaugeLoop.
Context {V : Type} `{Arith V} `{FloatText V}.

Lemma reconcile_sample_gauge (metric : Metric V) S B r :
  type metric = "gauge" ->
  reconcile_sample metric (S, B) r = Ok (gauge_step (_multiprocess_mode metric) S r, B).
Proof.
  intros T. destruct r as [[nm ls] v]. unfold reconcile_sample, gauge_step. rewrite T.
  cbn [String.eqb Ascii.eqb Bool.eqb].
  destruct (mode_is (_multiprocess_mode metric) "min").
  { unfold gauge_min_step, row_name, row_labels, row_value. cbn [fst snd].
    destruct (od_setdefault skey_eqb S (nm, without "pid" ls) v) as [c S1].
    now destruct (v <. c). }
  destruct (mode_is (_multiprocess_mode metric) "max").
  { unfold gauge_max_step, row_name, row_labels, row_value. cbn [fst snd].
    destruct (od_setdefault skey_eqb S (nm, without "pid" ls) v) as [c S1].
    now destruct (v >. c). }
  destruct (mode_is (_multiprocess_mode metric) "livesum"); reflexivity.
Qed.

Lemma reconciled_gauge (metric : Metric V) :
  type metric = "gauge" ->
  reconciled metric
  = Ok (fold_left (gauge_step (_multiprocess_mode metric)) (samples metric) []).
Proof.
  intros T. unfold reconciled, reconcile_samples.
  assert (E : forall rows S B,
             foldM (reconcile_sample metric) rows (S, B)
             = Ok (fold_left (gauge_step (_multiprocess_mode metric)) rows S, B)).
  { induction rows as [|r rows IH]; intros S B; simpl; [reflexivity|].
    rewrite reconcile_sample_gauge by exact T. simpl. apply IH. }
  rewrite E. simpl. rewrite T. reflexivity.
Qed.

Lemma gauge_min_step_at S r :
  od_get skey_eqb (gauge_min_step S r) (row_name r, without "pid" (row_labels r))
  = Some (min_upd (od_get skey_eqb S (row_name r, without "pid" (row_labels r))) r).
Proof.
  unfold gauge_min_step, min_upd, py_min.
  set (k := (row_name r, without "pid" (row_labels r))).
  pose proof (od_setdefault_fst skey_eqb S k (row_value r)) as F.
  pose proof (od_setdefault_get skey_eqb skey_eqb_eq S k (row_value r)) as G.
  destruct (od_setdefault skey_eqb S k (row_value r)) as [c S1]. simpl in F, G. subst c.
  destruct (od_get skey_eqb S k) as [c|]; simpl in *.
  - destruct (row_value r <. c); [apply (od_get_set_same _ skey_eqb_eq) | exact G].
  - destruct (row_value r <. row_value r); [apply (od_get_set_same _ skey_eqb_eq) | exact G].
Qed.

Lemma gauge_min_step_other S r k :
  k <> (row_name r, without "pid" (row_labels r)) ->
  od_get skey_eqb (gauge_min_step S r) k = od_get skey_eqb S k.
Proof.
  intros N. unfold gauge_min_step.
  pose proof (od_setdefault_other skey_eqb skey_eqb_eq S (row_value r) N) as O.
  destruct (od_setdefault skey_eqb S _ (row_value r)) as [c S1]. simpl in O.
  destruct (row_value r <. c); [|exact O].
  rewrite (od_get_set_other _ skey_eqb_eq) by congruence. exact O.
Qed.

Lemma gauge_min_step_NoDup S r :
  NoDup (map fst S) -> NoDup (map fst (gauge_min_step S r)).
Proof.
  intros ND. unfold gauge_min_step.
  pose proof (od_setdefault_NoDup skey_eqb skey_eqb_eq S
                (row_name r, without "pid" (row_labels r)) (row_value r) ND) as O.
  destruct (od_setdefault skey_eqb S _ (row_value r)) as [c S1]. simpl in O.
  destruct (row_value r <. c); [|exact O].
  now apply (od_set_NoDup _ skey_eqb_eq).
Qed.

Lemma gauge_max_step_at S r :
  od_get skey_eqb (gauge_max_step S r) (row_name r, without "pid" (row_labels r))
  = Some (max_upd (od_get skey_eqb S (row_name r, without "pid" (row_labels r))) r).
Proof.
  unfold gauge_max_step, max_upd, py_max.
  set (k := (row_name r, without "pid" (row_labels r))).
  pose proof (od_setdefault_fst skey_eqb S k (row_value r)) as F.
  pose proof (od_setdefault_get skey_eqb skey_eqb_eq S k (row_value r)) as G.
  destruct (od_setdefault skey_eqb S k (row_value r)) as [c S1]. simpl in F, G. subst c.
  destruct (od_get skey_eqb S k) as [c|]; simpl in *.
  - destruct (row_value r >. c); [apply (od_get_set_same _ skey_eqb_eq) | exact G].
  - destruct (row_value r >. row_value r); [apply (od_get_set_same _ skey_eqb_eq) | exact G].
Qed.

Lemma gauge_max_step_other S r k :
  k <> (row_name r, without "pid" (row_labels r)) ->
  od_get skey_eqb (gauge_max_step S r) k = od_get skey_eqb S k.
Proof.
  intros N. unfold gauge_max_step.
  pose proof (od_setdefault_other skey_eqb skey_eqb_eq S (row_value r) N) as O.
  destruct (od_setdefault skey_eqb S _ (row_value r)) as [c S1]. simpl in O.
  destruct (row_value r >. c); [|exact O].
  rewrite (od_get_set_other _ skey_eqb_eq) by congruence. exact O.
Qed.

Lemma gauge_max_step_NoDup S r :
  NoDup (map fst S) -> NoDup (map fst (gauge_max_step S r)).
Proof.
  intros ND. unfold gauge_max_step.
  pose proof (od_setdefault_NoDup skey_eqb skey_eqb_eq S
                (row_name r, without "pid" (row_labels r)) (row_value r) ND) as O.
  destruct (od_setdefault skey_eqb S _ (row_value r)) as [c S1]. simpl in O.
  destruct (row_value r >. c); [|exact O].
  now apply (od_set_NoDup _ skey_eqb_eq).
Qed.

Lemma dd_add_at (S : list (skey * V)) k v :
  od_get skey_eqb (dd_add S k v)  k
  = Some (match od_get skey_eqb S k with Some c => c +. v | None => vzero +. v end).
Proof.
  unfold dd_add. destruct (od_get skey_eqb S k); apply (od_get_set_same _ skey_eqb_eq).
Qed.

Lemma dd_add_other (S : list (skey * V)) k v k' :
  k' <> k -> od_get skey_eqb (dd_add S k v) k' = od_get skey_eqb S k'.
Proof.
  intros N. unfold dd_add.
  destruct (od_get skey_eqb S k); apply (od_get_set_other _ skey_eqb_eq); congruence.
Qed.

Lemma dd_add_NoDup (S : list (skey * V)) k v :
  NoDup (map fst S) -> NoDup (map fst (dd_add S k v)).
Proof.
  intros ND. unfold dd_add.
  destruct (od_get skey_eqb S k); now apply (od_set_NoDup _ skey_eqb_eq).
Qed.

Lemma fold_min_upd (rs : list (sample V)) : forall c,
  fold_left (fun o r => Some (min_upd o r)) rs (Some c)
  = Some (fold_left py_min (map row_value rs) c).
Proof. induction rs as [|r rs IH]; intros c; simpl; [reflexivity | apply IH]. Qed.

Lemma fold_max_upd (rs : list (sample V)) : forall c,
  fold_left (fun o r => Some (max_upd o r)) rs (Some c)
  = Some (fold_left py_max (map row_value rs) c).
Proof. induction rs as [|r rs IH]; intros c; simpl; [reflexivity | apply IH]. Qed.

Lemma fold_sum_upd (rs : list (sample V)) : forall c,
  fold_left (fun o r => Some (sum_upd o r)) rs (Some c)
  = Some (fold_left vadd (map row_value rs) c).
Proof. induction rs as [|r rs IH]; intros c; simpl; [reflexivity | apply IH]. Qed.

Lemma mode_is_Some (m s : string) : mode_is (Some m) s = true <-> m = s.
Proof. simpl. apply String.eqb_eq. Qed.

Lemma mode_is_false (mode : option string) (s : string) :
  mode <> Some s -> mode_is mode s = false.
Proof.
  destruct mode as [m|]; simpl; [|reflexivity].
  intros N. apply String.eqb_neq. congruence.
Qed.

Lemma gauge_step_NoDup mode S r :
  NoDup (map fst S) -> NoDup (map fst (gauge_step mode S r)).
Proof.
  intros ND. unfold gauge_step.
  destruct (mode_is mode "min"); [now apply gauge_min_step_NoDup|].
  destruct (mode_is mode "max"); [now apply gauge_max_step_NoDup|].
  destruct (mode_is mode "livesum"); [now apply dd_add_NoDup|].
  now apply (od_set_NoDup _ skey_eqb_eq).
Qed.

Lemma reconcile_of_reconciled (metric : Metric V) S :
  reconciled metric = Ok S ->
  reconcile metric = Ok (set_samples metric (map to_sample S)).
Proof. intros R. unfold reconcile. now rewrite R. Qed.

Lemma gauge_min_get (rows : list (sample V)) k :
  od_get skey_eqb (fold_left gauge_min_step rows []) k
  = py_min_list (contributing k rows).
Proof.
  rewrite (fold_group_get skey_eqb skey_eqb_eq
             (fun r => (row_name r, without "pid" (row_labels r)))
             gauge_min_step min_upd gauge_min_step_at).
  - unfold contributing.
    destruct (filter _ rows) as [|r rs]; simpl; [reflexivity|].
    apply fold_min_upd.
  - intros d r k' N. now apply gauge_min_step_other.
Qed.

Lemma gauge_max_get (rows : list (sample V)) k :
  od_get skey_eqb (fold_left gauge_max_step rows []) k
  = py_max_list (contributing k rows).
Proof.
  rewrite (fold_group_get skey_eqb skey_eqb_eq
             (fun r => (row_name r, without "pid" (row_labels r)))
             gauge_max_step max_upd gauge_max_step_at).
  - unfold contributing.
    destruct (filter _ rows) as [|r rs]; simpl; [reflexivity|].
    apply fold_max_upd.
  - intros d r k' N. now apply gauge_max_step_other.
Qed.

Lemma gauge_livesum_get (rows : list (sample V)) k :
  od_get skey_eqb (fold_left gauge_livesum_step rows []) k
  = py_sum_list (contributing k rows).
Proof.
  rewrite (fold_group_get skey_eqb skey_eqb_eq
             (fun r => (row_name r, without "pid" (row_labels r)))
             gauge_livesum_step sum_upd).
  - unfold contributing, py_sum_list, py_sum.
    destruct (filter _ rows) as [|r rs]; simpl; [reflexivity|].
    apply fold_sum_upd.
  - intros d r. unfold gauge_livesum_step. rewrite dd_add_at. reflexivity.
  - intros d r k' N. unfold gauge_livesum_step. now apply dd_add_other.
Qed.

(** C6.  For a gauge metric the samples are partitioned by (sample name,
    labels without the pid label): the reconciled dictionary has one entry
    per partition.  Under mode min the entry is Python's [min] of the
    values of the partition's rows, a minimum of them whenever [<] is a
    strict order on them; under mode max it is their [max], a maximum of
    them; under mode livesum it is their sum, accumulated from 0.0 in the
    order of the rows. *)
Theorem gauge_min_max_livesum (metric : Metric V) :
  type metric = "gauge" ->
  exists S,
    reconciled metric = Ok S /\
    reconcile metric = Ok (set_samples metric (map to_sample S)) /\
    NoDup (map fst S) /\
    (_multiprocess_mode metric = Some "min" ->
     forall k,
       od_get skey_eqb S k = py_min_list (contributing k (samples metric)) /\
       (strict_order_on (contributing k (samples metric)) ->
        forall m, od_get skey_eqb S k = Some m ->
                  is_minimum m (contributing k (samples metric)))) /\
    (_multiprocess_mode metric = Some "max" ->
     forall k,
       od_get skey_eqb S k = py_max_list (contributing k (samples metric)) /\
       (strict_order_on (contributing k (samples metric)) ->
        forall m, od_get skey_eqb S k = Some m ->
                  is_maximum m (contributing k (samples metric)))) /\
    (_multiprocess_mode metric = Some "livesum" ->
     forall k,
       od_get skey_eqb S k = py_sum_list (contributing k (samples metric))).
Proof.
  intros T.
  exists (fold_left (gauge_step (_multiprocess_mode metric)) (samples metric) []).
  pose proof (reconciled_gauge metric T) as R.
  split; [exact R|]. split; [now apply reconcile_of_reconciled|].
  split.
  { apply fold_group_NoDup; [apply gauge_step_NoDup | constructor]. }
  split; [|split].
  - intros M. rewrite M. unfold gauge_step. cbn [mode_is String.eqb Ascii.eqb Bool.eqb].
    intros k. split; [apply gauge_min_get|].
    intros SO m E. rewrite gauge_min_get in E. now apply py_min_list_minimum.
  - intros M. rewrite M. unfold gauge_step. cbn [mode_is String.eqb Ascii.eqb Bool.eqb].
    intros k. split; [apply gauge_max_get|].
    intros SO m E. rewrite gauge_max_get in E. now apply py_max_list_maximum.
  - intros M. rewrite M. unfold gauge_step. cbn [mode_is String.eqb Ascii.eqb Bool.eqb].
    intros k. apply gauge_livesum_get.
Qed.

Lemma fold_gauge_all_step (rows : list (sample V)) : forall S,
  fold_left gauge_all_step rows S
  = fold_left (fun d p => od_set skey_eqb d (fst p) (snd p)) (map row_item rows) S.
Proof. induction rows as [|r rows IH]; intros S; simpl; [reflexivity | apply IH]. Qed.

End GaugeLoop.

Section DictOf.
Context {K A : Type} (keq : K -> K -> bool).
Hypothesis keq_eq : forall x y, keq x y = true <-> x = y.

Lemma dict_of_snoc (l : list (K * A)) k a :
  dict_of keq (l ++ [(k, a)]) = od_set keq (dict_of keq l) k a.
Proof. unfold dict_of. now rewrite fold_left_app. Qed.

(** [dict(pairs)[k]] is the value of the last pair with key [k]. *)
Lemma dict_of_get (l : list (K * A)) k :
  od_get keq (dict_of keq l) k = od_get keq (rev l) k.
Proof.
  induction l as [|[k' a] l IH] using rev_ind; [reflexivity|].
  rewrite dict_of_snoc, rev_app_distr. simpl.
  destruct (keq k' k) eqn:E.
  - apply keq_eq in E. subst. apply (od_get_set_same _ keq_eq).
  - rewrite (od_get_set_other _ keq_eq); [exact IH|].
    intros ->. rewrite (keq_refl _ keq_eq) in E. discriminate.
Qed.

Lemma dict_of_keys_NoDup (l : list (K * A)) : NoDup (map fst (dict_of keq l)).
Proof.
  induction l as [|[k' a] l IH] using rev_ind; [constructor|].
  rewrite dict_of_snoc. now apply (od_set_NoDup _ keq_eq).
Qed.

(** [dict(pairs)] of pairs with distinct keys: the pairs, in order. *)
Lemma dict_of_NoDup (l : list (K * A)) :
  NoDup (map fst l) -> dict_of keq l = l.
Proof.
  induction l as [|[k' a] l IH] using rev_ind; intros ND; [reflexivity|].
  rewrite dict_of_snoc. rewrite map_app in ND. simpl in ND.
  apply NoDup_remove in ND. rewrite app_nil_r in ND. destruct ND as [ND Nin].
  rewrite IH by exact ND. now apply (od_set_keys_absent _ keq_eq).
Qed.

End DictOf.

Section GaugeAll.
Context {V : Type} `{Arith V} `{FloatText V}.

(** C7 (amended).  For a gauge metric whose mode is not min, max or livesum
    (all, liveall, absent, unrecognised) the reconciled samples are
    [dict(rows)] keyed by (sample name, full label set): when these keys are
    pairwise distinct every row is its own sample, in order, with its value
    and its full label set, pid label included; rows with one and the same
    key share one sample, which holds the value of the last of them. *)
Theorem gauge_all_rows_by_key (metric : Metric V) :
  type metric = "gauge" ->
  _multiprocess_mode metric <> Some "min" ->
  _multiprocess_mode metric <> Some "max" ->
  _multiprocess_mode metric <> Some "livesum" ->
  exists S,
    reconciled metric = Ok S /\
    reconcile metric = Ok (set_samples metric (map to_sample S)) /\
    S = dict_of skey_eqb (map row_item (samples metric)) /\
    (NoDup (map fst (map row_item (samples metric))) ->
     S = map row_item (samples metric)) /\
    (forall k, od_get skey_eqb S k
               = od_get skey_eqb (rev (map row_item (samples metric))) k) /\
    (forall nm ls pid v,
       In ((nm, ls ++ [("pid", pid)]), v) S ->
       In (nm, dict_of String.eqb (ls ++ [("pid", pid)]), v) (map to_sample S) /\
       od_get String.eqb (dict_of String.eqb (ls ++ [("pid", pid)])) "pid" = Some pid).
Proof.
  intros T Nmin Nmax Nsum.
  exists (dict_of skey_eqb (map row_item (samples metric))).
  assert (R : reconciled metric = Ok (dict_of skey_eqb (map row_item (samples metric)))).
  { rewrite reconciled_gauge by exact T. unfold gauge_step.
    rewrite !mode_is_false by assumption. now rewrite fold_gauge_all_step. }
  split; [exact R|]. split; [now apply reconcile_of_reconciled|].
  split; [reflexivity|]. split; [|split].
  - apply (dict_of_NoDup _ skey_eqb_eq).
  - apply (dict_of_get _ skey_eqb_eq).
  - intros nm ls pid v I. split.
    + change (nm, dict_of String.eqb (ls ++ [("pid", pid)]), v)
        with (to_sample ((nm, ls ++ [("pid", pid)]), v)).
      now apply in_map.
    + rewrite dict_of_snoc. apply (od_get_set_same _ String.eqb_eq).
Qed.

End GaugeAll.

(* ================================================================== *)
(** ** Gauges on concrete directories (binary64 values) *)

Example collect_gauge_max :
  collect_files (fs_gauge "max")
  = Ok [mkMetric "temp" "Multiprocess metric" "gauge" (Some "max")
          [("temp", [("room", "attic")], 7%float)]].
Proof. vm_compute. reflexivity. Qed.

Example collect_gauge_min :
  collect_files (fs_gauge "min")
  = Ok [mkMetric "temp" "Multiprocess metric" "gauge" (Some "min")
          [("temp", [("room", "attic")], 3%float)]].
Proof. vm_compute. reflexivity. Qed.

Example collect_gauge_livesum :
  collect_files (fs_gauge "livesum")
  = Ok [mkMetric "temp" "Multiprocess metric" "gauge" (Some "livesum")
          [("temp", [("room", "attic")], 15%float)]].
Proof. vm_compute. reflexivity. Qed.

Example collect_gauge_all :
  collect_files (fs_gauge "all")
  = Ok [mkMetric "temp" "Multiprocess metric" "gauge" (Some "all")
          [("temp", [("room", "attic"); ("pid", "100")], 3%float);
           ("temp", [("room", "attic"); ("pid", "101")], 7%float);
           ("temp", [("room", "attic"); ("pid", "102")], 5%float)]].
Proof. vm_compute. reflexivity. Qed.

Lemma gauge_min_max_livesum_witness :
  exists S,
    reconciled m_max = Ok S /\
    od_get skey_eqb S ("temp", [("room", "attic")]) = Some 7%float.
Proof.
  destruct (@gauge_min_max_livesum float binary64 table_text m_max eq_refl)
    as (S & R & _ & _ & _ & Hmax & _).
  exists S. split; [exact R|].
  exact (proj1 (Hmax eq_refl ("temp", [("room", "attic")]))).
Defined.

(** C7, as stated, fails when a pid is reused: two rows are read, one
    sample is emitted, and the archived row's value 2.0 is not among the
    emitted samples. *)
Lemma gauge_all_pid_reuse_counterexample :
  exists m,
    collect_files fs_pid_reuse = Ok [m] /\
    samples m = [("temp", [("room", "attic"); ("pid", "100")], 5%float)] /\
    ~ In ("temp", [("room", "attic"); ("pid", "100")], 2%float) (samples m).
Proof.
  eexists. split; [vm_compute; reflexivity|]. split; [reflexivity|].
  simpl. intros [E|[]]. inversion E.
Qed.

Lemma gauge_all_rows_by_key_witness :
  exists S,
    reconciled m_all = Ok S /\
    S = [(("temp", [("room", "attic"); ("pid", "100")]), 3%float);
         (("temp", [("room", "attic"); ("pid", "101")]), 7%float);
         (("temp", [("room", "attic"); ("pid", "102")]), 5%float)].
Proof.
  destruct (@gauge_all_rows_by_key float binary64 table_text m_all eq_refl)
    as (S & R & _ & _ & Hdistinct & _).
  - discriminate.
  - discriminate.
  - discriminate.
  - exists S. split; [exact R|]. apply Hdistinct.
    repeat constructor; simpl; intuition discriminate.
Defined.

(* ================================================================== *)
(** ** Sums that do not round *)

Lemma span_In (B a : Z) : (Z.abs a <= B)%Z -> In a (span B).
Proof.
  intros Ha. unfold span. apply in_map_iff.
  exists (Z.to_nat (a + B)). split; [lia|].
  apply in_seq. lia.
Qed.

Lemma exact_uptob_sound (inj : Z -> float) (B : Z) :
  exact_uptob inj B = true -> exact_upto inj B.
Proof.
  unfold exact_uptob. intros T. apply andb_true_iff in T as [T0 T].
  split; [now apply FloatAxioms.Leibniz.eqb_spec|].
  intros a b Hab. rewrite forallb_forall in T.
  assert (Ia : In a (span B)) by (apply span_In; lia).
  assert (Ib : In b (span B)) by (apply span_In; lia).
  specialize (T a Ia). rewrite forallb_forall in T. specialize (T b Ib).
  apply orb_true_iff in T as [T|T].
  - apply Z.ltb_lt in T. lia.
  - now apply FloatAxioms.Leibniz.eqb_spec.
Qed.

(** Binary64 adds the integers of magnitude up to 64 without rounding. *)
Lemma binary64_exact_small : exact_upto float_of_Z 64.
Proof. apply exact_uptob_sound. vm_compute. reflexivity. Qed.

Lemma abs_sum_cons z zs : abs_sum (z :: zs) = (Z.abs z + abs_sum zs)%Z.
Proof. reflexivity. Qed.

Lemma abs_sum_nonneg zs : (0 <= abs_sum zs)%Z.
Proof. induction zs; simpl; lia. Qed.

Lemma abs_sum_app xs ys : abs_sum (xs ++ ys) = (abs_sum xs + abs_sum ys)%Z.
Proof. induction xs; simpl; lia. Qed.

Lemma abs_sum_Permutation xs ys : Permutation xs ys -> abs_sum xs = abs_sum ys.
Proof. induction 1; simpl; lia. Qed.

Lemma Z_sum_Permutation (xs ys : list Z) :
  Permutation xs ys -> @py_sum Z exactZ xs = @py_sum Z exactZ ys.
Proof.
  intros P. unfold py_sum. cbn [vadd vzero exactZ]. generalize 0%Z.
  induction P as [|x l l' P IH|x y l|l l' l'' P1 IH1 P2 IH2]; intros a; simpl.
  - reflexivity.
  - apply IH.
  - f_equal. lia.
  - now rewrite IH1.
Qed.

Section Exact.
Context {V : Type} `{Arith V}.
Variables (inj : Z -> V) (B : Z).
Hypothesis E : exact_upto inj B.

Lemma fold_add_exact zs : forall a,
  (Z.abs a + abs_sum zs <= B)%Z ->
  fold_left vadd (map inj zs) (inj a) = inj (fold_left Z.add zs a).
Proof.
  induction zs as [|z zs IH]; intros a Ha; simpl in *; [reflexivity|].
  pose proof (abs_sum_nonneg zs).
  destruct E as [_ Ea]. rewrite Ea by lia. apply IH. lia.
Qed.

Lemma py_sum_exact zs :
  (abs_sum zs <= B)%Z -> py_sum (map inj zs) = inj (py_sum zs).
Proof.
  intros Hb. unfold py_sum. destruct E as [<- _].
  apply fold_add_exact. simpl. lia.
Qed.

(** Values that add without rounding add up to the same in every order. *)
Lemma py_sum_exact_Permutation (vs vs' : list V) zs :
  vs = map inj zs -> (abs_sum zs <= B)%Z ->
  Permutation vs vs' -> py_sum vs' = py_sum vs.
Proof.
  intros -> Hb P. apply Permutation_sym in P.
  apply Permutation_map_inv in P as (zs' & -> & P).
  rewrite !py_sum_exact by (try rewrite <- (abs_sum_Permutation P); exact Hb).
  f_equal. symmetry. apply (Z_sum_Permutation P).
Qed.

End Exact.

(* ================================================================== *)
(** ** Counters and summaries *)

Section CounterFacts.
Context {V : Type} `{Arith V} `{FloatText V}.

Lemma split_nonempty sep s : split sep s <> [].
Proof.
  destruct s as [|c s]; simpl; [discriminate|].
  destruct (Ascii.eqb c sep); [discriminate|].
  destruct (split sep s); discriminate.
Qed.

Lemma index_0_split sep s : index (split sep s) 0 = Ok (hd EmptyString (split sep s)).
Proof.
  pose proof (split_nonempty sep s) as N.
  destruct (split sep s); [contradiction | reflexivity].
Qed.

Lemma scan_row_other parts typ (ms ms' : list (string * Metric V)) row mn :
  metric_name (fst row) <> mn ->
  scan_row parts typ ms row = Ok ms' ->
  od_get String.eqb ms' mn = od_get String.eqb ms mn.
Proof.
  intros N. destruct row as [key value]. simpl in N. unfold scan_row.
  destruct (if String.eqb typ "gauge" then _ else _) as [[|]|e]; simpl;
    try discriminate.
  - destruct (index parts 2); simpl; [|discriminate].
    destruct (index parts 1); simpl; [|discriminate].
    intros [= <-]. now apply (od_get_set_other _ String.eqb_eq).
  - intros [= <-]. now apply (od_get_set_other _ String.eqb_eq).
Qed.

Lemma scan_row_plain parts typ (ms ms' : list (string * Metric V)) row mn acc :
  metric_name (fst row) = mn ->
  typ <> "gauge" -> typ <> "histogram" ->
  plain_entry mn (od_get String.eqb ms mn) acc ->
  scan_row parts typ ms row = Ok ms' ->
  plain_entry mn (od_get String.eqb ms' mn)
    (acc ++ [(sample_name (fst row), key_labels (fst row), snd row)]).
Proof.
  intros E Ng Nh P. destruct row as [key value]. simpl in *. unfold scan_row.
  apply String.eqb_neq in Ng. rewrite Ng. simpl. intros [= <-].
  rewrite E. rewrite (od_get_set_same _ String.eqb_eq). unfold plain_entry in *.
  destruct (od_get String.eqb ms mn) as [m|]; simpl.
  - destruct P as (Pn & Pg & Ph & Ps). repeat split; auto. now rewrite Ps.
  - subst acc. apply String.eqb_neq in Ng. repeat split; auto.
Qed.

Lemma scan_rows_plain parts typ mn (rows : list (Key * V)) :
  forall (ms ms' : list (string * Metric V)) acc,
    (forall row, In row rows -> metric_name (fst row) = mn ->
                 typ <> "gauge" /\ typ <> "histogram") ->
    plain_entry mn (od_get String.eqb ms mn) acc ->
    foldM (scan_row parts typ) rows ms = Ok ms' ->
    plain_entry mn (od_get String.eqb ms' mn) (acc ++ plain_rows mn rows).
Proof.
  induction rows as [|row rows IH]; intros ms ms' acc Ht P; simpl.
  - intros [= <-]. unfold plain_rows. simpl. now rewrite app_nil_r.
  - destruct (scan_row parts typ ms row) as [ms1|e] eqn:R; simpl; [|discriminate].
    intros F. unfold plain_rows. simpl.
    destruct (String.eqb (metric_name (fst row)) mn) eqn:E.
    + apply String.eqb_eq in E. simpl.
      destruct (Ht row (or_introl eq_refl) E) as [Ng Nh].
      change (acc ++ ?x :: ?l) with (acc ++ [x] ++ l). rewrite app_assoc.
      refine (IH ms1 ms' _ _ _ F).
      * intros r I. apply Ht. now right.
      * eapply scan_row_plain; eauto.
    + apply String.eqb_neq in E.
      refine (IH ms1 ms' _ _ _ F).
      * intros r I. apply Ht. now right.
      * now rewrite (scan_row_other _ _ _ _ E R).
Qed.

Lemma scan_files_plain mn (fs : list (string * Store V)) :
  forall (ms ms' : list (string * Metric V)) acc,
    (forall f row, In f fs -> In row (snd f) -> metric_name (fst row) = mn ->
                   file_type f <> "gauge" /\ file_type f <> "histogram") ->
    plain_entry mn (od_get String.eqb ms mn) acc ->
    foldM scan_file fs ms = Ok ms' ->
    plain_entry mn (od_get String.eqb ms' mn)
      (acc ++ flat_map (fun f => plain_rows mn (snd f)) fs).
Proof.
  induction fs as [|f fs IH]; intros ms ms' acc Ht P; simpl.
  - intros [= <-]. now rewrite app_nil_r.
  - destruct (scan_file ms f) as [ms1|e] eqn:R; simpl; [|discriminate].
    intros F. rewrite app_assoc. refine (IH ms1 ms' _ _ _ F).
    + intros f' row I. apply Ht. now right.
    + unfold scan_file in R. rewrite index_0_split in R. simpl in R.
      unfold read_all_values in R.
      eapply scan_rows_plain; [|exact P|exact R].
      intros row I E. apply (Ht f row); auto. now left.
Qed.

Lemma reconciled_plain (metric : Metric V) :
  type metric <> "gauge" -> type metric <> "histogram" ->
  reconciled metric = Ok (fold_left plain_step (samples metric) []).
Proof.
  intros Ng Nh. apply String.eqb_neq in Ng, Nh. unfold reconciled, reconcile_samples.
  assert (E : forall rows S B,
             foldM (reconcile_sample metric) rows (S, B)
             = Ok (fold_left plain_step rows S, B)).
  { induction rows as [|[[nm ls] v] rows IH]; intros S B; simpl; [reflexivity|].
    rewrite Ng, Nh. simpl. apply IH. }
  rewrite E. simpl. now rewrite Nh.
Qed.

Lemma plain_step_get (rows : list (sample V)) k :
  od_get skey_eqb (fold_left plain_step rows []) k
  = py_sum_list
      (map row_value (filter (fun r => skey_eqb (row_name r, row_labels r) k) rows)).
Proof.
  rewrite (fold_group_get skey_eqb skey_eqb_eq
             (fun r => (row_name r, row_labels r)) plain_step sum_upd).
  - unfold py_sum_list, py_sum.
    destruct (filter _ rows) as [|r rs]; simpl; [reflexivity|].
    apply fold_sum_upd.
  - intros d r. unfold plain_step. now rewrite dd_add_at.
  - intros d r k' N. unfold plain_step. now apply dd_add_other.
Qed.

Lemma plain_rows_values mn nm ls (rows : list (Key * V)) :
  map row_value
    (filter (fun r => skey_eqb (row_name r, row_labels r) (nm, ls)) (plain_rows mn rows))
  = map snd
      (filter (fun row => String.eqb (metric_name (fst row)) mn
                          && skey_eqb (sample_name (fst row), key_labels (fst row))
                               (nm, ls))
         rows).
Proof.
  unfold plain_rows. induction rows as [|row rows IHr]; simpl; [reflexivity|].
  destruct (String.eqb (metric_name (fst row)) mn); simpl; [|exact IHr].
  unfold row_name, row_labels. simpl.
  destruct (skey_eqb (sample_name (fst row), key_labels (fst row)) (nm, ls)); simpl;
    [f_equal|]; exact IHr.
Qed.

Lemma plain_rows_contributions mn nm ls (fs : list (string * Store V)) :
  map row_value
    (filter (fun r => skey_eqb (row_name r, row_labels r) (nm, ls))
       (flat_map (fun f => plain_rows mn (snd f)) fs))
  = contributions mn nm ls fs.
Proof.
  unfold contributions. induction fs as [|f fs IH]; simpl; [reflexivity|].
  now rewrite filter_app, map_app, IH, plain_rows_values.
Qed.

Lemma mapM_In {A B} (f : A -> result B) (l : list A) : forall l',
  mapM f l = Ok l' -> forall x, In x l -> exists y, f x = Ok y /\ In y l'.
Proof.
  induction l as [|a l IH]; intros l'; simpl.
  - intros _ x [].
  - destruct (f a) as [b|e] eqn:Fa; simpl; [|discriminate].
    destruct (mapM f l) as [bs|e] eqn:Fl; simpl; [|discriminate].
    intros [= <-] x [<-|I].
    + exists b. split; [exact Fa | now left].
    + destruct (IH bs eq_refl x I) as (y & Fy & Iy). exists y. split; [exact Fy | now right].
Qed.

(** With an associative and commutative [+], a sum does not depend on the
    order of its terms. *)
Lemma py_sum_Permutation (vs vs' : list V) :
  (forall x y z : V, (x +. y) +. z = x +. (y +. z)) ->
  (forall x y : V, x +. y = y +. x) ->
  Permutation vs vs' -> py_sum vs = py_sum vs'.
Proof.
  intros Hassoc Hcomm P. unfold py_sum. generalize (@vzero V _).
  induction P as [|x l l' P IH|x y l|l l' l'' P1 IH1 P2 IH2]; intros a; simpl.
  - reflexivity.
  - apply IH.
  - f_equal. rewrite !Hassoc. f_equal. apply Hcomm.
  - now rewrite IH1.
Qed.

Lemma contributions_Permutation mn nm ls (fs fs' : list (string * Store V)) :
  Permutation fs fs' ->
  Permutation (contributions mn nm ls fs) (contributions mn nm ls fs').
Proof. intros P. unfold contributions. now apply Permutation_flat_map. Qed.

(** The sample that [collect] reports for a key of a metric that only
    stores of plain type (neither gauge nor histogram) mention. *)
Lemma collect_files_plain mn nm ls (fs : list (string * Store V)) ms :
  (forall f row, In f fs -> In row (snd f) -> metric_name (fst row) = mn ->
                 file_type f <> "gauge" /\ file_type f <> "histogram") ->
  contributions mn nm ls fs <> [] ->
  collect_files fs = Ok ms ->
  exists m, In m ms /\ name m = mn /\
            In (nm, dict_of String.eqb ls, py_sum (contributions mn nm ls fs)) (samples m).
Proof.
  intros Ht Hne C. unfold collect_files in C.
  destruct (scan_files fs) as [metrics|e] eqn:Sc; simpl in C; [|discriminate].
  pose proof (@scan_files_plain mn fs [] metrics [] Ht eq_refl Sc) as P.
  simpl in P. unfold plain_entry in P.
  destruct (od_get String.eqb metrics mn) as [metric|] eqn:G.
  - destruct P as (Pn & Pg & Ph & Ps).
    apply (od_get_In _ String.eqb_eq) in G.
    assert (I : In metric (map snd metrics)).
    { change metric with (snd (mn, metric)). now apply in_map. }
    destruct (mapM_In _ _ C _ I) as (m & Rm & Im).
    exists m. split; [exact Im|].
    unfold reconcile in Rm. rewrite reconciled_plain in Rm by assumption.
    simpl in Rm. injection Rm as <-. split; [exact Pn|].
    cbn [samples set_samples].
    change (nm, dict_of String.eqb ls, py_sum (contributions mn nm ls fs))
      with (to_sample ((nm, ls), py_sum (contributions mn nm ls fs))).
    apply in_map. apply (od_get_In _ skey_eqb_eq).
    rewrite plain_step_get, Ps, plain_rows_contributions.
    unfold py_sum_list. destruct (contributions mn nm ls fs); [contradiction | reflexivity].
  - exfalso. apply Hne. rewrite <- plain_rows_contributions, P. reflexivity.
Qed.

(** C8 (amended).  For a metric that only stores of plain type mention
    (counter, summary: neither gauge nor histogram) and a key (sample name,
    labels) that occurs in the stores, [collect] reports the sum of the
    key's values, accumulated from 0.0 in the order the files are scanned.
    When the key's values add without rounding (they are integers, as
    sample values, whose magnitudes add up to no more than a bound below
    which [+] is exact), every scan order reports this same value. *)
Theorem counter_sum_in_scan_order mn nm ls (fs : list (string * Store V)) ms :
  (forall f row, In f fs -> In row (snd f) -> metric_name (fst row) = mn ->
                 file_type f <> "gauge" /\ file_type f <> "histogram") ->
  contributions mn nm ls fs <> [] ->
  collect_files fs = Ok ms ->
  (exists m, In m ms /\ name m = mn /\
             In (nm, dict_of String.eqb ls, py_sum (contributions mn nm ls fs))
                (samples m)) /\
  (forall (inj : Z -> V) (B : Z) (zs : list Z),
     exact_upto inj B ->
     contributions mn nm ls fs = map inj zs ->
     (abs_sum zs <= B)%Z ->
     forall fs' ms',
       Permutation fs fs' ->
       collect_files fs' = Ok ms' ->
       exists m', In m' ms' /\ name m' = mn /\
                  In (nm, dict_of String.eqb ls, py_sum (contributions mn nm ls fs))
                     (samples m')).
Proof.
  intros Ht Hne C. split; [now apply collect_files_plain|].
  intros inj B zs E Ez Hb fs' ms' P C'.
  pose proof (contributions_Permutation mn nm ls P) as PC.
  rewrite <- (py_sum_exact_Permutation E zs Ez Hb PC).
  apply collect_files_plain; auto.
  - intros f row I. apply Ht. apply Permutation_sym in P. now apply (Permutation_in _ P).
  - intros E0. rewrite E0 in PC. apply Permutation_sym, Permutation_nil in PC.
    contradiction.
Qed.

End CounterFacts.

(* ================================================================== *)
(** ** Counters on concrete directories *)

(** C8, as stated, fails in binary64: scanned in the order above the three
    counters add up to 0.6000000000000001, scanned in the reverse order to
    0.6. *)
Lemma counter_scan_order_counterexample :
  Permutation fs_tenths (rev fs_tenths) /\
  collect_files fs_tenths
  = Ok [mkMetric "load" "Multiprocess metric" "counter" None
          [("load", [], 0x1.3333333333334p-1%float)]] /\
  collect_files (rev fs_tenths)
  = Ok [mkMetric "load" "Multiprocess metric" "counter" None
          [("load", [], 0x1.3333333333333p-1%float)]] /\
  0x1.3333333333334p-1%float <> 0x1.3333333333333p-1%float.
Proof.
  split; [apply Permutation_rev|].
  split; [vm_compute; reflexivity|].
  split; [vm_compute; reflexivity|].
  intros E. inversion E.
Qed.

Lemma counter_sum_in_scan_order_witness :
  (exists m, In m [mkMetric "load" "Multiprocess metric" "counter" None
                     [("load", [], 11%float)];
                   mkMetric "temp" "Multiprocess metric" "counter" None
                     [("temp", [("room", "attic")], 1%float)]] /\
             name m = "load" /\
             In ("load", dict_of String.eqb [], py_sum (contributions "load" "load" [] fs_counter))
                (samples m)) /\
  (exists m', In m' [mkMetric "load" "Multiprocess metric" "counter" None
                       [("load", [], 11%float)];
                     mkMetric "temp" "Multiprocess metric" "counter" None
                       [("temp", [("room", "attic")], 1%float)]] /\
              name m' = "load" /\
              In ("load", dict_of String.eqb [],
                  py_sum (contributions "load" "load" [] fs_counter))
                 (samples m')).
Proof.
  destruct (@counter_sum_in_scan_order float binary64 table_text "load" "load" []
              fs_counter
              [mkMetric "load" "Multiprocess metric" "counter" None
                 [("load", [], 11%float)];
               mkMetric "temp" "Multiprocess metric" "counter" None
                 [("temp", [("room", "attic")], 1%float)]])
    as [Scan Any].
  - intros f row [<-|[<-|[]]] _ _; split; discriminate.
  - discriminate.
  - vm_compute. reflexivity.
  - split; [exact Scan|].
    apply (Any float_of_Z 64%Z [5%Z; 6%Z] binary64_exact_small eq_refl) with
      (fs' := rev fs_counter).
    + vm_compute. discriminate.
    + apply Permutation_rev.
    + vm_compute. reflexivity.
Defined.

(** In exact arithmetic the aggregate of a plain metric does not depend on
    the scan order. *)
Corollary exact_counter_any_scan_order mn nm ls (fs fs' : list (string * Store Z)) ms ms' :
  (forall f row, In f fs -> In row (snd f) -> metric_name (fst row) = mn ->
                 file_type f <> "gauge" /\ file_type f <> "histogram") ->
  contributions mn nm ls fs <> [] ->
  collect_files fs = Ok ms ->
  Permutation fs fs' ->
  collect_files fs' = Ok ms' ->
  exists v,
    (exists m, In m ms /\ name m = mn /\ In (nm, dict_of String.eqb ls, v) (samples m)) /\
    (exists m', In m' ms' /\ name m' = mn /\ In (nm, dict_of String.eqb ls, v) (samples m')).
Proof.
  intros Ht Hne C P C'.
  destruct (@collect_files_plain Z exactZ no_text mn nm ls fs ms Ht Hne C) as (m & Hm).
  exists (py_sum (contributions mn nm ls fs)). split; [now exists m|].
  pose proof (contributions_Permutation mn nm ls P) as PC.
  rewrite (@py_sum_Permutation Z exactZ _ _
             (fun x y z => eq_sym (Z.add_assoc x y z)) Z.add_comm PC).
  apply collect_files_plain; auto.
  - intros f row I. apply Ht. apply Permutation_sym in P. now apply (Permutation_in _ P).
  - intros E. rewrite E in PC. apply Permutation_sym, Permutation_nil in PC.
    contradiction.
Qed.

(* ================================================================== *)
(** ** Dictionaries whose key test decides equality on the keys in use *)

Section OrderedDictOn.
Context {K A : Type} (keq : K -> K -> bool) (P : K -> Prop).
Hypothesis keq_on : forall x y, P x -> P y -> (keq x y = true <-> x = y).

Lemma od_get_on_None (d : list (K * A)) k :
  Forall P (map fst d) -> P k ->
  (od_get keq d k = None <-> ~ In k (map fst d)).
Proof.
  intros Hd Hk. induction d as [|[k' a'] d IH]; simpl; [tauto|].
  simpl in Hd. inversion Hd as [|? ? Pk' Hd']. subst.
  destruct (keq k' k) eqn:E.
  - apply keq_on in E; auto. split; [discriminate | intros N; exfalso; auto].
  - rewrite (IH Hd'). split.
    + intros N [E'|I]; [|tauto]. subst.
      rewrite (proj2 (keq_on Hk Hk) eq_refl) in E. discriminate.
    + tauto.
Qed.

Lemma od_get_on_In (d : list (K * A)) k a :
  Forall P (map fst d) -> P k ->
  od_get keq d k = Some a -> In (k, a) d.
Proof.
  intros Hd Hk. induction d as [|[k' a'] d IH]; simpl; [discriminate|].
  simpl in Hd. inversion Hd as [|? ? Pk' Hd']. subst.
  destruct (keq k' k) eqn:E.
  - apply keq_on in E; auto. intros [= ->]. subst. now left.
  - intros G. right. auto.
Qed.

Lemma od_set_on_absent (d : list (K * A)) k a :
  Forall P (map fst d) -> P k ->
  ~ In k (map fst d) -> od_set keq d k a = d ++ [(k, a)].
Proof.
  intros Hd Hk. induction d as [|[k' a'] d IH]; simpl; [reflexivity|].
  simpl in Hd. inversion Hd as [|? ? Pk' Hd']. subst.
  intros N. destruct (keq k' k) eqn:E.
  - apply keq_on in E; auto. subst. exfalso. auto.
  - f_equal. apply IH; auto.
Qed.

(** Overwriting the entry of a key that is present: the keys stay, the
    entry of [k] becomes [(k, a)], the others are as they were. *)
Lemma od_set_on_present (d : list (K * A)) k a :
  Forall P (map fst d) -> P k -> NoDup (map fst d) ->
  In k (map fst d) ->
  map fst (od_set keq d k a) = map fst d /\
  forall t c, In (t, c) (od_set keq d k a) <->
              (t = k /\ c = a) \/ (t <> k /\ In (t, c) d).
Proof.
  intros Hd Hk. induction d as [|[k' a'] d IH]; simpl; [tauto|].
  simpl in Hd. inversion Hd as [|? ? Pk' Hd']. subst.
  intros ND I. inversion ND as [|? ? Nin ND']. subst.
  destruct (keq k' k) eqn:E.
  - apply keq_on in E; auto. subst k'. split; [reflexivity|].
    intros t c. simpl. split.
    + intros [[= <- <-]|I']; [now left|]. right. split; [|now right].
      intros ->. apply Nin. change k with (fst (k, c)). now apply in_map.
    + intros [[-> ->]|[N [[= -> ->]|I']]]; [now left | contradiction | now right].
  - assert (Ik : In k (map fst d)).
    { destruct I as [->|I]; [|exact I].
      rewrite (proj2 (keq_on Hk Hk) eq_refl) in E. discriminate. }
    destruct (IH Hd' ND' Ik) as [Ek Ein]. split; [simpl; now rewrite Ek|].
    intros t c. simpl. rewrite Ein. split.
    + intros [[= <- <-]|[[-> ->]|[N I']]].
      * right. split; [|now left]. intros ->. contradiction.
      * now left.
      * right. split; [exact N | now right].
    + intros [[-> ->]|[N [[= -> ->]|I']]].
      * right. now left.
      * now left.
      * right. right. now split.
Qed.

End OrderedDictOn.

(* ================================================================== *)
(** ** Histograms *)

Section HistogramInner.
Context {V : Type} `{Arith V}.
Variable T : list V.
Hypothesis Heq : forall x y, In x T -> In y T -> (x ==. y = true <-> x = y).

Lemma veqb_refl_on x : In x T -> x ==. x = true.
Proof. intros I. now apply Heq. Qed.

Lemma increment_of_snoc (items : list (V * V)) b v t :
  increment_of (items ++ [(b, v)]) t
  = if b ==. t then increment_of items t +. v else increment_of items t.
Proof.
  unfold increment_of, py_sum. rewrite filter_app. simpl.
  destruct (b ==. t); simpl.
  - now rewrite map_app, fold_left_app.
  - now rewrite app_nil_r.
Qed.

Lemma increment_of_absent (items : list (V * V)) t :
  In t T -> (forall it, In it items -> In (fst it) T) ->
  ~ In t (map fst items) -> increment_of items t = vzero.
Proof.
  intros It Hin N. unfold increment_of.
  replace (filter (fun it => fst it ==. t) items) with (@nil (V * V)); [reflexivity|].
  symmetry. induction items as [|[b v] items IH]; simpl; [reflexivity|].
  destruct (b ==. t) eqn:E.
  - apply Heq in E; auto.
    + subst. exfalso. apply N. now left.
    + apply (Hin (b, v)). now left.
  - apply IH.
    + intros it I. apply Hin. now right.
    + intros I. apply N. now right.
Qed.

(** The dictionary of a group after its rows: one entry per threshold, each
    holding the sum of the increments for that threshold. *)
Lemma inner_dict (items : list (V * V)) :
  (forall it, In it items -> In (fst it) T) ->
  NoDup (map fst (fold_left inner_add items [])) /\
  (forall t, In t (map fst (fold_left inner_add items [])) <-> In t (map fst items)) /\
  (forall t c, In (t, c) (fold_left inner_add items []) -> c = increment_of items t).
Proof.
  induction items as [|[b v] items IH] using rev_ind; intros Hin.
  - simpl. split; [constructor|]. split; [tauto | intros t c []].
  - assert (Hin' : forall it, In it items -> In (fst it) T).
    { intros it I. apply Hin. apply in_or_app. now left. }
    assert (Ib : In b T).
    { apply (Hin (b, v)). apply in_or_app. right. now left. }
    destruct (IH Hin') as (ND & Hk & Hv). clear IH.
    rewrite fold_left_app. simpl.
    set (d := fold_left inner_add items []) in *.
    assert (Pd : Forall (fun x => In x T) (map fst d)).
    { apply Forall_forall. intros x Ix. apply Hk in Ix.
      apply in_map_iff in Ix as (it & <- & Iit). now apply Hin'. }
    unfold inner_add, values_add. cbn [fst snd].
    destruct (od_get veqb d b) as [c0|] eqn:G.
    + (* the threshold has an entry *)
      pose proof (@od_get_on_In V V veqb (fun x => In x T) Heq d b c0 Pd Ib G) as I0.
      assert (Ikb : In b (map fst d)).
      { change b with (fst (b, c0)). now apply in_map. }
      destruct (@od_set_on_present V V veqb (fun x => In x T) Heq d b (c0 +. v) Pd Ib ND Ikb)
        as [Ek Ein].
      split; [now rewrite Ek|]. split.
      * intros t. rewrite Ek, map_app, in_app_iff, Hk. simpl.
        split; [tauto|]. intros [I|[<-|[]]]; [exact I|]. now apply Hk.
      * intros t c I. apply Ein in I. rewrite increment_of_snoc.
        destruct I as [[-> ->]|[N I]].
        -- rewrite veqb_refl_on by exact Ib. f_equal. now apply Hv.
        -- assert (It : In t T).
           { rewrite Forall_forall in Pd. apply Pd.
             change t with (fst (t, c)). now apply in_map. }
           destruct (b ==. t) eqn:E; [|now apply Hv].
           apply Heq in E; auto. congruence.
    + (* a new threshold *)
      assert (Nb : ~ In b (map fst d)).
      { now apply (@od_get_on_None V V veqb (fun x => In x T) Heq d b Pd Ib). }
      split; [|split].
      * rewrite map_app. simpl. apply NoDup_app; [exact ND | repeat constructor; simpl; tauto |].
        intros x Ix [<-|[]]. contradiction.
      * intros t. rewrite !map_app, !in_app_iff, Hk. simpl. tauto.
      * intros t c I. apply in_app_or in I. rewrite increment_of_snoc.
        destruct I as [I|[[= <- <-]|[]]].
        -- assert (It : In t T).
           { rewrite Forall_forall in Pd. apply Pd.
             change t with (fst (t, c)). now apply in_map. }
           destruct (b ==. t) eqn:E; [|now apply Hv].
           apply Heq in E; auto. subst t. exfalso. apply Nb.
           change b with (fst (b, c)). now apply in_map.
        -- rewrite veqb_refl_on by exact Ib. f_equal. symmetry.
           apply increment_of_absent; auto. now rewrite <- Hk.
Qed.

End HistogramInner.

Section HistogramSort.
Context {V : Type} `{Arith V}.
Variable T : list V.
Hypothesis Heq : forall x y, In x T -> In y T -> (x ==. y = true <-> x = y).
Hypothesis Hirr : forall x, In x T -> x <. x = false.
Hypothesis Htrans : forall x y z, In x T -> In y T -> In z T ->
  x <. y = true -> y <. z = true -> x <. z = true.
Hypothesis Htotal : forall x y, In x T -> In y T -> x <> y ->
  x <. y = true \/ y <. x = true.

Lemma insert_item_Permutation (x : V * V) l : Permutation (insert_item x l) (x :: l).
Proof.
  induction l as [|y l IH]; simpl; [reflexivity|].
  destruct (item_ltb x y); [reflexivity|].
  rewrite IH. apply perm_swap.
Qed.

Lemma item_ltb_distinct (x y : V * V) :
  In (fst x) T -> In (fst y) T -> fst x <> fst y ->
  item_ltb x y = (fst x <. fst y).
Proof.
  intros Ix Iy N. unfold item_ltb.
  destruct (fst x ==. fst y) eqn:E; [|reflexivity].
  apply Heq in E; auto. contradiction.
Qed.

Lemma insert_item_sorted (x : V * V) l :
  In (fst x) T -> (forall y, In y l -> In (fst y) T) ->
  ~ In (fst x) (map fst l) ->
  StronglySorted key_asc l -> StronglySorted key_asc (insert_item x l).
Proof.
  intros Ix. induction l as [|y l IH]; intros Hl Nx Sl; simpl.
  - repeat constructor.
  - assert (Iy : In (fst y) T) by (apply Hl; now left).
    assert (Nxy : fst x <> fst y) by (intros E; apply Nx; left; now rewrite E).
    inversion Sl as [|? ? Sl' Fy]. subst.
    rewrite item_ltb_distinct by assumption.
    destruct (fst x <. fst y) eqn:C.
    + constructor; [exact Sl|]. constructor; [exact C|].
      rewrite Forall_forall in *. intros z Iz.
      apply (@Htrans (fst x) (fst y) (fst z) Ix Iy); auto.
      * apply Hl. now right.
      * now apply Fy.
    + constructor.
      * apply IH; auto.
        -- intros z Iz. apply Hl. now right.
        -- intros I. apply Nx. now right.
      * rewrite Forall_forall in *. intros z Iz.
        apply (Permutation_in _ (insert_item_Permutation x l)) in Iz.
        destruct Iz as [<-|Iz]; [|now apply Fy].
        destruct (@Htotal (fst x) (fst y) Ix Iy Nxy) as [L|L]; [congruence | exact L].
Qed.

Lemma sorted_from (xs : list (V * V)) : forall acc,
  (forall y, In y (acc ++ xs) -> In (fst y) T) ->
  NoDup (map fst (acc ++ xs)) ->
  StronglySorted key_asc acc ->
  Permutation (fold_left (fun acc x => insert_item x acc) xs acc) (acc ++ xs) /\
  StronglySorted key_asc (fold_left (fun acc x => insert_item x acc) xs acc).
Proof.
  induction xs as [|x xs IH]; intros acc Hin ND Sa; simpl.
  - rewrite app_nil_r. split; [reflexivity | exact Sa].
  - assert (P : Permutation (insert_item x acc ++ xs) (acc ++ x :: xs)).
    { rewrite insert_item_Permutation. simpl. apply Permutation_middle. }
    destruct (@IH (insert_item x acc)) as [Pf Sf].
    + intros y Iy. apply Hin. now apply (Permutation_in _ P).
    + apply (Permutation_NoDup (l := map fst (acc ++ x :: xs))); [|exact ND].
      apply Permutation_map. now symmetry.
    + apply insert_item_sorted; auto.
      * apply Hin. apply in_or_app. right. now left.
      * intros y Iy. apply Hin. apply in_or_app. now left.
      * rewrite map_app in ND. simpl in ND. apply NoDup_remove_2 in ND.
        intros I. apply ND. apply in_or_app. now left.
    + split; [|exact Sf]. now rewrite Pf.
Qed.

(** [sorted] on a dictionary with distinct keys among [T]: the same
    items, in strictly ascending order of their keys. *)
Lemma sorted_spec (d : list (V * V)) :
  (forall y, In y d -> In (fst y) T) ->
  NoDup (map fst d) ->
  Permutation (sorted d) d /\ StronglySorted key_asc (sorted d).
Proof.
  intros Hin ND. unfold sorted. apply (@sorted_from d []); auto. constructor.
Qed.

Lemma StronglySorted_map_fst (l : list (V * V)) :
  StronglySorted key_asc l -> StronglySorted asc (map fst l).
Proof.
  induction 1 as [|x l S IH F]; simpl; constructor; auto.
  rewrite Forall_forall in *. intros t It.
  apply in_map_iff in It as (y & <- & Iy). now apply F.
Qed.

Lemma StronglySorted_app_asc (pre suf : list V) :
  StronglySorted asc (pre ++ suf) ->
  forall p s, In p pre -> In s suf -> p <. s = true.
Proof.
  induction pre as [|a pre IH]; simpl; intros S p s Ip Is; [contradiction|].
  inversion S as [|? ? S' F]. subst. destruct Ip as [<-|Ip].
  - rewrite Forall_forall in F. apply F. apply in_or_app. now right.
  - now apply IH.
Qed.

(** In a strictly ascending list, the thresholds at or below an element
    are the elements up to it. *)
Lemma filter_at_or_below (pre suf : list V) t :
  (forall x, In x (pre ++ t :: suf) -> In x T) ->
  StronglySorted asc (pre ++ t :: suf) ->
  filter (fun t' => negb (t <. t')) (pre ++ t :: suf) = pre ++ [t].
Proof.
  intros Hin S. rewrite filter_app. simpl.
  assert (It : In t T) by (apply Hin; apply in_or_app; right; now left).
  rewrite (@Hirr t It). simpl. f_equal.
  - apply forallb_filter_id. apply forallb_forall. intros p Ip.
    assert (L : p <. t = true).
    { apply (@StronglySorted_app_asc pre (t :: suf) S); [exact Ip | now left]. }
    destruct (t <. p) eqn:C; [|reflexivity].
    assert (Ipt : In p T) by (apply Hin; apply in_or_app; now left).
    pose proof (@Htrans p t p Ipt It Ipt L C) as X.
    rewrite (@Hirr p Ipt) in X. discriminate.
  - f_equal. 
    assert (E : forall l, (forall s, In s l -> t <. s = true) ->
                          filter (fun t' => negb (t <. t')) l = []).
    { induction l as [|s l IHl]; intros Hl; simpl; [reflexivity|].
      rewrite (Hl s) by now left. simpl. apply IHl. intros s' I. apply Hl. now right. }
    apply E. intros s Is.
    apply (@StronglySorted_app_asc (pre ++ [t]) suf).
    + now rewrite <- app_assoc.
    + apply in_or_app. right. now left.
    + exact Is.
Qed.

End HistogramSort.

Section HistogramAccumulate.
Context {V : Type} `{Arith V} `{FloatText V}.

Lemma accumulate_group_from (metric : Metric V) g (items : list (V * V)) :
  forall a S,
    fold_left
      (fun (st : V * list (skey * V)) (item : V * V) =>
         let (acc, samples) := st in
         let (bucket, value) := item in
         let acc' := acc +. value in
         (acc',
          od_set skey_eqb samples
            ((name metric ++ "_bucket")%string,
             g ++ [("le", floatToGoString bucket)]) acc'))
      items (a, S)
    = (fold_left vadd (map snd items) a,
       fold_left set_kv
         (map (fun tc => (bucket_key metric g (fst tc), snd tc)) (running a items)) S).
Proof.
  induction items as [|[t v] items IH]; intros a S; simpl; [reflexivity|].
  rewrite IH. reflexivity.
Qed.

Lemma accumulate_group_eq (metric : Metric V) g items S :
  accumulate_group metric g items S
  = (py_sum (map snd items), fold_left set_kv (bucket_writes metric g items) S).
Proof. unfold accumulate_group. apply accumulate_group_from. Qed.

Lemma accumulate_buckets_eq (metric : Metric V) (B : list (labels * list (V * V))) :
  forall S,
    accumulate_buckets metric B S
    = fold_left set_kv (flat_map (group_writes metric) B) S.
Proof.
  unfold accumulate_buckets.
  induction B as [|[g values] B IH]; intros S; simpl; [reflexivity|].
  rewrite accumulate_group_eq. rewrite IH.
  unfold group_writes. cbn [fst snd]. rewrite !fold_left_app. reflexivity.
Qed.

(** *** Filtering a dictionary by its keys *)

Lemma od_set_keys_incl (d : list (skey * V)) k v x :
  In x (map fst (od_set skey_eqb d k v)) -> x = k \/ In x (map fst d).
Proof.
  induction d as [|[k' v'] d IH]; simpl.
  - intros [<-|[]]. now left.
  - destruct (skey_eqb k' k); simpl; [tauto|].
    intros [<-|I]; [tauto|]. destruct (IH I); tauto.
Qed.

Lemma od_set_filter_out (P : skey -> bool) (d : list (skey * V)) k v :
  P k = false ->
  filter (on_key P) (od_set skey_eqb d k v) = filter (on_key P) d.
Proof.
  intros Pk. induction d as [|[k' v'] d IH]; simpl.
  - unfold on_key. simpl. now rewrite Pk.
  - destruct (skey_eqb k' k) eqn:E; simpl.
    + apply skey_eqb_eq in E. subst k'. unfold on_key. simpl. now rewrite Pk.
    + now rewrite IH.
Qed.

Lemma od_set_filter_new (P : skey -> bool) (d : list (skey * V)) k v :
  P k = true -> ~ In k (map fst d) ->
  filter (on_key P) (od_set skey_eqb d k v) = filter (on_key P) d ++ [(k, v)].
Proof.
  intros Pk N. rewrite (od_set_keys_absent _ skey_eqb_eq) by exact N.
  rewrite filter_app. simpl. unfold on_key at 2. simpl. now rewrite Pk.
Qed.

Lemma fold_set_filter (P : skey -> bool) (W : list (skey * V)) : forall d,
  NoDup (map fst (filter (on_key P) W)) ->
  (forall k, In k (map fst (filter (on_key P) W)) -> ~ In k (map fst d)) ->
  filter (on_key P) (fold_left set_kv W d) = filter (on_key P) d ++ filter (on_key P) W.
Proof.
  induction W as [|[k v] W IH]; intros d ND Hfresh.
  - simpl. now rewrite app_nil_r.
  - change (filter (on_key P) ((k, v) :: W))
      with (if P k then (k, v) :: filter (on_key P) W else filter (on_key P) W) in *.
    change (fold_left set_kv ((k, v) :: W) d)
      with (fold_left set_kv W (od_set skey_eqb d k v)).
    destruct (P k) eqn:Pk.
    + simpl in ND, Hfresh. inversion ND as [|? ? Nin ND']. subst.
      rewrite IH.
      * rewrite od_set_filter_new; auto. now rewrite <- app_assoc.
      * exact ND'.
      * intros k' I' I''. apply od_set_keys_incl in I''.
        destruct I'' as [->|I'']; [contradiction|]. apply (Hfresh k'); auto.
    + rewrite IH.
      * now rewrite od_set_filter_out.
      * exact ND.
      * intros k' I' I''. apply od_set_keys_incl in I''.
        destruct I'' as [->|I'']; [|apply (Hfresh k'); auto].
        apply in_map_iff in I' as ([k0 v0] & E0 & I0). simpl in E0. subst k0.
        apply filter_In in I0 as [_ P0]. unfold on_key in P0. simpl in P0. congruence.
Qed.

Lemma fold_set_get_other (W : list (skey * V)) k : forall d,
  ~ In k (map fst W) ->
  od_get skey_eqb (fold_left set_kv W d) k = od_get skey_eqb d k.
Proof.
  induction W as [|[k' v] W IH]; intros d N; simpl; [reflexivity|].
  simpl in N. rewrite IH by tauto. unfold set_kv. simpl.
  apply (od_get_set_other _ skey_eqb_eq). tauto.
Qed.

End HistogramAccumulate.

Section HistogramLoop.
Context {V : Type} `{Arith V} `{FloatText V}.

Lemma reconcile_sample_histogram (metric : Metric V) S B r :
  type metric = "histogram" -> le_parses r ->
  reconcile_sample metric (S, B) r = Ok (hist_raw_step S r, hist_bucket_step B r).
Proof.
  intros Ty [bs Hbs]. destruct r as [[nm ls] v].
  unfold reconcile_sample, hist_raw_step, hist_bucket_step, threshold_of,
    row_name, row_labels, row_value in *.
  cbn [fst snd] in *. rewrite Ty. cbn [String.eqb Ascii.eqb Bool.eqb].
  rewrite Hbs. simpl. now destruct bs.
Qed.

Lemma reconcile_samples_histogram (metric : Metric V) :
  type metric = "histogram" -> Forall le_parses (samples metric) ->
  reconcile_samples metric
  = Ok (fold_left hist_raw_step (samples metric) [],
        fold_left hist_bucket_step (samples metric) []).
Proof.
  intros Ty. unfold reconcile_samples.
  generalize (@nil (skey * V)) as S, (@nil (labels * list (V * V))) as B.
  induction (samples metric) as [|r rows IH]; intros S B F; simpl; [reflexivity|].
  inversion F as [|? ? Fr F']. subst.
  rewrite reconcile_sample_histogram by assumption. simpl. now apply IH.
Qed.

Lemma mapM_nil {A B} (f : A -> result B) (l : list A) :
  mapM f l = Ok [] -> l = [].
Proof.
  destruct l as [|a l]; [reflexivity|]. simpl.
  destruct (f a); simpl; [|discriminate].
  destruct (mapM f l); simpl; discriminate.
Qed.

Lemma has_le_filter (ls : labels) :
  filter (fun l => String.eqb (fst l) "le") ls = [] -> has_le ls = false.
Proof.
  unfold has_le. induction ls as [|l ls IH]; simpl; [reflexivity|].
  destruct (String.eqb (fst l) "le"); [discriminate | exact IH].
Qed.

(** The raw samples carry no 'le' label. *)
Lemma hist_raw_keys (rows : list (sample V)) : forall S,
  Forall le_parses rows ->
  (forall k, In k (map fst S) -> has_le (snd k) = false) ->
  forall k, In k (map fst (fold_left hist_raw_step rows S)) -> has_le (snd k) = false.
Proof.
  induction rows as [|r rows IH]; intros S F HS; simpl; [exact HS|].
  inversion F as [|? ? [bs Hbs] F']. subst. apply IH; [exact F'|].
  unfold hist_raw_step, threshold_of. rewrite Hbs.
  destruct bs as [|b bs]; [|exact HS].
  intros k I. unfold dd_add in I.
  assert (I' : k = (row_name r, row_labels r) \/ In k (map fst S)).
  { destruct (od_get skey_eqb S (row_name r, row_labels r));
      now apply od_set_keys_incl in I. }
  destruct I' as [->|I']; [|now apply HS]. simpl.
  apply has_le_filter. unfold bucket_of in Hbs. now apply mapM_nil in Hbs.
Qed.

(** *** The dictionary [buckets] *)

Lemma bucket_add_at (B : list (labels * list (V * V))) g b v :
  od_get labels_eqb (bucket_add B g b v) g
  = Some (inner_add (default [] (od_get labels_eqb B g)) (b, v)).
Proof.
  unfold bucket_add, inner_add.
  pose proof (od_setdefault_fst labels_eqb B g []) as F.
  destruct (od_setdefault labels_eqb B g []) as [values B1]. simpl in F. subst values.
  apply (od_get_set_same _ labels_eqb_eq).
Qed.

Lemma bucket_add_other (B : list (labels * list (V * V))) g b v g' :
  g' <> g -> od_get labels_eqb (bucket_add B g b v) g' = od_get labels_eqb B g'.
Proof.
  intros N. unfold bucket_add.
  pose proof (od_setdefault_other labels_eqb labels_eqb_eq B [] N) as O.
  destruct (od_setdefault labels_eqb B g []) as [values B1]. simpl in O.
  rewrite (od_get_set_other _ labels_eqb_eq) by congruence. exact O.
Qed.

Lemma bucket_add_NoDup (B : list (labels * list (V * V))) g b v :
  NoDup (map fst B) -> NoDup (map fst (bucket_add B g b v)).
Proof.
  intros ND. unfold bucket_add.
  pose proof (od_setdefault_NoDup labels_eqb labels_eqb_eq B g [] ND) as N1.
  destruct (od_setdefault labels_eqb B g []) as [values B1]. simpl in N1.
  now apply (od_set_NoDup _ labels_eqb_eq).
Qed.

Lemma group_items_snoc g (rows : list (sample V)) r :
  group_items g (rows ++ [r])
  = group_items g rows
    ++ match threshold_of r with
       | Some b =>
           if labels_eqb (without "le" (row_labels r)) g then [(b, row_value r)] else []
       | None => []
       end.
Proof. unfold group_items. rewrite flat_map_app. simpl. now rewrite app_nil_r. Qed.

Lemma buckets_spec (rows : list (sample V)) :
  NoDup (map fst (fold_left hist_bucket_step rows [])) /\
  forall g, od_get labels_eqb (fold_left hist_bucket_step rows []) g = group_dict g rows.
Proof.
  induction rows as [|r rows [ND IH]] using rev_ind.
  - simpl. split; [constructor | reflexivity].
  - rewrite fold_left_app. simpl.
    set (B := fold_left hist_bucket_step rows []) in *.
    assert (E : hist_bucket_step B r
                = match threshold_of r with
                  | Some b => bucket_add B (without "le" (row_labels r)) b (row_value r)
                  | None => B
                  end) by reflexivity.
    rewrite E. clear E. unfold group_dict.
    split.
    + destruct (threshold_of r); [now apply bucket_add_NoDup | exact ND].
    + intros g. rewrite group_items_snoc.
      destruct (threshold_of r) as [b|].
      * destruct (labels_eqb (without "le" (row_labels r)) g) eqn:E.
        -- apply labels_eqb_eq in E. subst g. rewrite bucket_add_at, IH.
           unfold group_dict.
           destruct (group_items (without "le" (row_labels r)) rows) as [|it its] eqn:G;
             simpl; [reflexivity|].
           rewrite fold_left_app. reflexivity.
        -- rewrite app_nil_r. rewrite bucket_add_other.
           ++ apply IH.
           ++ intros ->. rewrite (proj2 (labels_eqb_eq _ _) eq_refl) in E. discriminate.
      * rewrite app_nil_r. apply IH.
Qed.

End HistogramLoop.

Section HistogramClaims.
Context {V : Type} `{Arith V} `{FloatText V}.

Lemma append_inv_head (s a b : string) : (s ++ a = s ++ b)%string -> a = b.
Proof.
  induction s as [|c s IH]; simpl; [tauto|]. intros E. inversion E. auto.
Qed.

Lemma count_name_not_bucket (n : string) :
  String.eqb (n ++ "_count") (n ++ "_bucket") = false.
Proof.
  apply String.eqb_neq. intros E. apply append_inv_head in E. discriminate.
Qed.

Lemma without_idem s (ls : labels) : without s (without s ls) = without s ls.
Proof.
  unfold without. induction ls as [|l ls IH]; simpl; [reflexivity|].
  destruct (negb (String.eqb (fst l) s)) eqn:E; simpl; [rewrite E; f_equal|]; exact IH.
Qed.

Lemma without_le_snoc (g : labels) x : without "le" (g ++ [("le", x)]) = without "le" g.
Proof. unfold without. rewrite filter_app. simpl. apply app_nil_r. Qed.

Lemma has_le_snoc (g : labels) x : has_le (g ++ [("le", x)]) = true.
Proof. unfold has_le. rewrite existsb_app. simpl. apply orb_true_r. Qed.

Lemma is_bucket_of_bucket_key (metric : Metric V) g g' t :
  without "le" g' = g' ->
  is_bucket_of metric g (bucket_key metric g' t) = labels_eqb g' g.
Proof.
  intros W. unfold is_bucket_of, bucket_key. cbn [fst snd].
  rewrite String.eqb_refl, without_le_snoc, W.
  fold (has_le (g' ++ [("le", floatToGoString t)])). rewrite has_le_snoc.
  now rewrite andb_true_r.
Qed.

Lemma is_bucket_of_count_key (metric : Metric V) g g' :
  is_bucket_of metric g (count_key metric g') = false.
Proof.
  unfold is_bucket_of, count_key. cbn [fst snd]. now rewrite count_name_not_bucket.
Qed.

Lemma is_bucket_of_has_le (metric : Metric V) g k :
  has_le (snd k) = false -> is_bucket_of metric g k = false.
Proof.
  intros E. unfold is_bucket_of. fold (has_le (snd k)). rewrite E. apply andb_false_r.
Qed.

Lemma filter_group_writes (metric : Metric V) g (group : labels * list (V * V)) :
  without "le" (fst group) = fst group ->
  filter (on_key (is_bucket_of metric g)) (group_writes metric group)
  = if labels_eqb (fst group) g
    then bucket_writes metric (fst group) (sorted (snd group))
    else [].
Proof.
  intros W. unfold group_writes. rewrite filter_app. simpl.
  unfold on_key at 2. cbn [fst]. rewrite is_bucket_of_count_key. rewrite app_nil_r.
  unfold bucket_writes. generalize (running vzero (sorted (snd group))) as l.
  induction l as [|tc l IH]; simpl.
  - now destruct (labels_eqb (fst group) g).
  - unfold on_key at 1. cbn [fst]. rewrite is_bucket_of_bucket_key by exact W.
    rewrite IH. now destruct (labels_eqb (fst group) g).
Qed.

Lemma filter_all_writes (metric : Metric V) g (B : list (labels * list (V * V))) :
  NoDup (map fst B) ->
  (forall g', In g' (map fst B) -> without "le" g' = g') ->
  forall values, In (g, values) B ->
    filter (on_key (is_bucket_of metric g)) (flat_map (group_writes metric) B)
    = bucket_writes metric g (sorted values).
Proof.
  induction B as [|[g' v'] B IH]; intros ND Wl values I; simpl in *; [contradiction|].
  inversion ND as [|? ? Nin ND']. subst.
  rewrite filter_app, filter_group_writes by (apply Wl; now left). cbn [fst snd].
  destruct I as [[= -> ->]|I].
  - rewrite (proj2 (labels_eqb_eq g g) eq_refl).
    replace (filter _ (flat_map (group_writes metric) B)) with (@nil (skey * V));
      [apply app_nil_r|].
    symmetry. clear IH ND ND'.
    assert (Wl' : forall g', In g' (map fst B) -> without "le" g' = g')
      by (intros g' I'; apply Wl; now right).
    clear Wl. induction B as [|[g' v'] B IHB]; simpl; [reflexivity|].
    rewrite filter_app, filter_group_writes by (apply Wl'; now left). cbn [fst snd].
    destruct (labels_eqb g' g) eqn:E.
    + apply labels_eqb_eq in E. subst. exfalso. apply Nin. now left.
    + simpl. apply IHB.
      * intros I'. apply Nin. now right.
      * intros g'' I'. apply Wl'. now right.
  - destruct (labels_eqb g' g) eqn:E.
    + apply labels_eqb_eq in E. subst. exfalso. apply Nin.
      change g with (fst (g, values)). now apply in_map.
    + simpl. apply IH; auto.
Qed.

Lemma count_get (metric : Metric V) (B : list (labels * list (V * V))) :
  NoDup (map fst B) ->
  forall S g values, In (g, values) B ->
    od_get skey_eqb (fold_left set_kv (flat_map (group_writes metric) B) S)
      (count_key metric g)
    = Some (py_sum (map snd (sorted values))).
Proof.
  induction B as [|[g' v'] B IH] using rev_ind; intros ND S g values I; [contradiction|].
  rewrite flat_map_app, fold_left_app. simpl. rewrite app_nil_r.
  unfold group_writes at 1. cbn [fst snd]. rewrite fold_left_app. simpl.
  unfold set_kv at 1. cbn [fst snd].
  rewrite map_app in ND. simpl in ND.
  apply in_app_or in I. destruct I as [I|[[= -> ->]|[]]].
  - assert (N : g' <> g).
    { intros ->. apply NoDup_remove_2 in ND. apply ND. rewrite app_nil_r.
      change g with (fst (g, values)). now apply in_map. }
    rewrite (od_get_set_other _ skey_eqb_eq)
      by (unfold count_key; intros E; inversion E; contradiction).
    rewrite fold_set_get_other.
    + apply IH; auto. apply NoDup_remove_1 in ND. now rewrite app_nil_r in ND.
    + unfold bucket_writes. rewrite map_map. cbn [fst]. intros I'.
      apply in_map_iff in I' as (tc & E & _). unfold bucket_key, count_key in E.
      inversion E as [[E1 E2]]. apply append_inv_head in E1. discriminate.
  - apply (od_get_set_same _ skey_eqb_eq).
Qed.

Lemma running_fst (items : list (V * V)) : forall a,
  map fst (running a items) = map fst items.
Proof.
  induction items as [|[t v] items IH]; intros a; simpl; [reflexivity|]. now rewrite IH.
Qed.

Lemma map_fst_recover {A B} (f : A -> B) (l : list (A * B)) :
  (forall p, In p l -> snd p = f (fst p)) ->
  l = map (fun t => (t, f t)) (map fst l).
Proof.
  induction l as [|[a b] l IH]; intros Hl; simpl; [reflexivity|].
  rewrite <- IH by (intros p I; apply Hl; now right).
  f_equal. f_equal. apply (Hl (a, b)). now left.
Qed.

End HistogramClaims.

Section HistogramTheorem.
Context {V : Type} `{Arith V} `{FloatText V}.

Lemma running_cumulative (T : list V) (items : list (V * V)) (ts : list V) :
  (forall x, In x T -> x <. x = false) ->
  (forall x y z, In x T -> In y T -> In z T ->
     x <. y = true -> y <. z = true -> x <. z = true) ->
  (forall t, In t ts -> In t T) ->
  StronglySorted asc ts ->
  running vzero (map (fun t => (t, increment_of items t)) ts)
  = map (fun t => (t, cumulative_of items ts t)) ts.
Proof.
  intros Hirr Htrans Hin S.
  assert (G : forall suf pre, ts = pre ++ suf ->
            running (py_sum (map (increment_of items) pre))
              (map (fun t => (t, increment_of items t)) suf)
            = map (fun t => (t, cumulative_of items ts t)) suf).
  { induction suf as [|t suf IH]; intros pre E; simpl; [reflexivity|].
    assert (F : filter (fun t' => negb (t <. t')) ts = pre ++ [t]).
    { rewrite E. apply (@filter_at_or_below V _ T Hirr Htrans pre suf t).
      - intros x I. apply Hin. now rewrite E.
      - now rewrite <- E. }
    assert (A : py_sum (map (increment_of items) pre) +. increment_of items t
                = py_sum (map (increment_of items) (pre ++ [t]))).
    { unfold py_sum. now rewrite map_app, fold_left_app. }
    f_equal.
    - f_equal. unfold cumulative_of. now rewrite F.
    - rewrite A. apply IH. rewrite E. now rewrite <- app_assoc. }
  apply (G ts []). reflexivity.
Qed.

Lemma cumulative_of_last (T : list V) (items : list (V * V)) (ts : list V) :
  (forall x, In x T -> x <. x = false) ->
  (forall x y z, In x T -> In y T -> In z T ->
     x <. y = true -> y <. z = true -> x <. z = true) ->
  (forall t, In t ts -> In t T) ->
  StronglySorted asc ts -> ts <> [] ->
  cumulative_of items ts (last ts vzero) = py_sum (map (increment_of items) ts).
Proof.
  intros Hirr Htrans Hin S N. unfold cumulative_of.
  pose proof (app_removelast_last vzero N) as E.
  assert (F : filter (fun t' => negb (last ts vzero <. t')) ts = ts).
  { set (l := last ts vzero) in *. rewrite E.
    apply (@filter_at_or_below V _ T Hirr Htrans (removelast ts) [] l).
    - intros x I. apply Hin. now rewrite E.
    - now rewrite <- E. }
  now rewrite F.
Qed.

Lemma group_items_thresholds g (rows : list (sample V)) it :
  In it (group_items g rows) -> In (fst it) (thresholds rows).
Proof.
  unfold group_items, thresholds. rewrite !in_flat_map.
  intros (r & Ir & I). exists r. split; [exact Ir|].
  destruct (threshold_of r); [|contradiction].
  destruct (labels_eqb (without "le" (row_labels r)) g); [|contradiction].
  destruct I as [<-|[]]. now left.
Qed.

Lemma group_items_without g (rows : list (sample V)) :
  group_items g rows <> [] -> without "le" g = g.
Proof.
  intros N. destruct (group_items g rows) as [|it its] eqn:E; [contradiction|].
  assert (I : In it (group_items g rows)) by (rewrite E; now left).
  unfold group_items in I. apply in_flat_map in I as (r & _ & I).
  destruct (threshold_of r); [|contradiction].
  destruct (labels_eqb (without "le" (row_labels r)) g) eqn:L; [|contradiction].
  apply labels_eqb_eq in L. subst g. apply without_idem.
Qed.

Lemma NoDup_map_on {A B} (f : A -> B) (l : list A) :
  (forall x y, In x l -> In y l -> f x = f y -> x = y) ->
  NoDup l -> NoDup (map f l).
Proof.
  induction l as [|a l IH]; intros Hinj ND; simpl; [constructor|].
  inversion ND as [|? ? Nin ND']. subst. constructor.
  - intros I. apply in_map_iff in I as (x & E & Ix).
    apply Nin. rewrite <- (Hinj x a); auto; [now right | now left].
  - apply IH; auto. intros x y Ix Iy. apply Hinj; now right.
Qed.

Lemma filter_on_key_none (P : skey -> bool) (d : list (skey * V)) :
  (forall k, In k (map fst d) -> P k = false) -> filter (on_key P) d = [].
Proof.
  induction d as [|[k v] d IH]; intros Hd; simpl; [reflexivity|].
  unfold on_key at 1. cbn [fst]. rewrite (Hd k) by now left.
  apply IH. intros k' I. apply Hd. now right.
Qed.

(** C1.  For a histogram metric whose 'le' labels are numerals and whose
    thresholds are well ordered, the samples that carry an 'le' label are
    grouped by their remaining labels [g].  For every group there is the
    list [ts] of its distinct thresholds in strictly ascending order such
    that the bucket samples of the group among the reconciled samples are,
    in this order, one per threshold [t], named [name_bucket], labelled
    [g + (le = _floatToGoString(t))] and valued the cumulative sum, over
    the thresholds at or below [t] in ascending order, of the summed
    increments of each threshold; and the sample [name_count] labelled [g]
    holds the cumulative value at the largest threshold. *)
Theorem histogram_buckets_cumulative (metric : Metric V) :
  type metric = "histogram" ->
  Forall le_parses (samples metric) ->
  well_ordered (thresholds (samples metric)) ->
  exists S,
    reconciled metric = Ok S /\
    reconcile metric = Ok (set_samples metric (map to_sample S)) /\
    forall g, group_items g (samples metric) <> [] ->
      exists ts,
        NoDup ts /\
        (forall t, In t ts <-> In t (map fst (group_items g (samples metric)))) /\
        StronglySorted (fun a b => a <. b = true) ts /\
        filter (on_key (is_bucket_of metric g)) S
        = map (fun t =>
                 (((name metric ++ "_bucket")%string, g ++ [("le", floatToGoString t)]),
                  cumulative_of (group_items g (samples metric)) ts t))
            ts /\
        od_get skey_eqb S ((name metric ++ "_count")%string, g)
        = Some (cumulative_of (group_items g (samples metric)) ts (last ts vzero)).
Proof.
  intros Ty Fp (Heq & Hirr & Htrans & Htotal & Hgo).
  set (rows := samples metric) in *.
  set (T := thresholds rows) in *.
  set (Sraw := fold_left hist_raw_step rows []).
  set (B := fold_left hist_bucket_step rows []).
  exists (accumulate_buckets metric B Sraw).
  assert (R : reconciled metric = Ok (accumulate_buckets metric B Sraw)).
  { unfold reconciled. rewrite reconcile_samples_histogram by assumption.
    simpl. now rewrite Ty. }
  split; [exact R|]. split; [now apply reconcile_of_reconciled|].
  intros g Ng. set (items := group_items g rows) in *.
  destruct (buckets_spec rows) as [NDB HB]. fold B in NDB, HB.
  set (values := fold_left inner_add items []).
  assert (GB : od_get labels_eqb B g = Some values).
  { rewrite HB. unfold group_dict. fold items. subst values.
    destruct items; [contradiction | reflexivity]. }
  assert (IB : In (g, values) B) by now apply (od_get_In _ labels_eqb_eq).
  assert (Hitems : forall it, In it items -> In (fst it) T).
  { intros it I. now apply (group_items_thresholds g rows). }
  destruct (@inner_dict V _ T Heq items Hitems) as (NDv & Hk & Hv). fold values in NDv, Hk, Hv.
  assert (Hvals : forall y, In y values -> In (fst y) T).
  { intros y I. assert (I' : In (fst y) (map fst items)) by (apply Hk; now apply in_map).
    apply in_map_iff in I' as (it & <- & Iit). now apply Hitems. }
  destruct (@sorted_spec V _ T Heq Htrans Htotal values Hvals NDv) as [Psd Ssd].
  set (sd := sorted values) in *. set (ts := map fst sd).
  assert (Pts : Permutation ts (map fst values)) by now apply Permutation_map.
  assert (Hts : forall t, In t ts <-> In t (map fst items)).
  { intros t. rewrite <- Hk. split; apply Permutation_in; [exact Pts | now symmetry]. }
  assert (HtsT : forall t, In t ts -> In t T).
  { intros t I. apply Hts in I. apply in_map_iff in I as (it & <- & Iit). now apply Hitems. }
  assert (NDts : NoDup ts).
  { apply (Permutation_NoDup (l := map fst values)); [now symmetry | exact NDv]. }
  assert (Sts : StronglySorted asc ts) by now apply StronglySorted_map_fst.
  assert (Esd : sd = map (fun t => (t, increment_of items t)) ts).
  { apply map_fst_recover. intros [t c] I. simpl. apply Hv.
    now apply (Permutation_in _ Psd). }
  exists ts. split; [exact NDts|]. split; [exact Hts|]. split; [exact Sts|]. split.
  - rewrite accumulate_buckets_eq.
    assert (Wl : forall g', In g' (map fst B) -> without "le" g' = g').
    { intros g' I. apply (group_items_without g' rows). intros E.
      pose proof (HB g') as G'. unfold group_dict in G'. rewrite E in G'.
      apply (od_get_None _ labels_eqb_eq) in G'. contradiction. }
    pose proof (@filter_all_writes V _ _ metric g B NDB Wl values IB) as FW. fold sd in FW.
    assert (Kw : map fst (bucket_writes metric g sd) = map (bucket_key metric g) ts).
    { unfold bucket_writes. rewrite map_map. cbn [fst].
      rewrite <- (map_map fst (bucket_key metric g)). now rewrite running_fst. }
    rewrite fold_set_filter.
    + rewrite FW.
      replace (filter (on_key (is_bucket_of metric g)) Sraw) with (@nil (skey * V)).
      * simpl. unfold bucket_writes. rewrite Esd at 1.
        rewrite (@running_cumulative T items ts Hirr Htrans HtsT Sts).
        rewrite map_map. reflexivity.
      * symmetry. apply filter_on_key_none. intros k I.
        apply is_bucket_of_has_le.
        apply (@hist_raw_keys V _ _ rows [] Fp); [intros k' [] | exact I].
    + rewrite FW, Kw. apply NoDup_map_on; [|exact NDts].
      intros x y Ix Iy E. unfold bucket_key in E. inversion E as [E'].
      apply app_inv_head in E'. inversion E'. apply Hgo; auto.
    + rewrite FW, Kw. intros k I Ik.
      apply in_map_iff in I as (t & <- & It).
      assert (Hraw : has_le (snd (bucket_key metric g t)) = false).
      { apply (@hist_raw_keys V _ _ rows [] Fp); [intros k' [] | exact Ik]. }
      unfold bucket_key in Hraw. cbn [snd] in Hraw. rewrite has_le_snoc in Hraw.
      discriminate.
  - rewrite accumulate_buckets_eq.
    change ((name metric ++ "_count")%string, g) with (count_key metric g).
    rewrite (@count_get V _ _ metric B NDB Sraw g values IB). fold sd. f_equal.
    rewrite (@cumulative_of_last T items ts Hirr Htrans HtsT Sts).
    + rewrite Esd at 1. now rewrite map_map.
    + intros E. apply Ng. fold items.
      destruct items as [|it items']; [reflexivity|].
      assert (I : In (fst it) ts) by (apply Hts; now left). rewrite E in I. contradiction.
Qed.

End HistogramTheorem.

(* ================================================================== *)
(** ** Binary64: the order of Python floats *)

(** Facts on IEEE-754 comparison, from the specification of Rocq's
    primitive floats ([SFcompare]). *)

Ltac cmp_cases :=
  repeat match goal with
         | |- context [Z.compare ?a ?b] => destruct (Z.compare_spec a b)
         | |- context [Pos.compare_cont Eq ?a ?b] =>
             change (Pos.compare_cont Eq a b) with (Pos.compare a b);
             destruct (Pos.compare_spec a b)
         end.

Lemma SFltb_irrefl x : SFltb x x = false.
Proof.
  unfold SFltb, SFcompare. destruct x as [s|s| |s m e]; try destruct s; simpl;
    try reflexivity; cmp_cases; simpl; try reflexivity; exfalso; lia.
Qed.

Lemma SFltb_trans x y z : SFltb x y = true -> SFltb y z = true -> SFltb x z = true.
Proof.
  unfold SFltb, SFcompare.
  destruct x as [s1|s1| |s1 m1 e1], y as [s2|s2| |s2 m2 e2], z as [s3|s3| |s3 m3 e3];
    try destruct s1; try destruct s2; try destruct s3; simpl;
    try congruence; cmp_cases; simpl; try congruence; intros; exfalso; subst; lia.
Qed.

Lemma SFcompare_total x y :
  x <> S754_nan -> y <> S754_nan ->
  SFltb x y = true \/ SFeqb x y = true \/ SFltb y x = true.
Proof.
  unfold SFltb, SFeqb, SFcompare.
  destruct x as [s1|s1| |s1 m1 e1], y as [s2|s2| |s2 m2 e2];
    try destruct s1; try destruct s2; simpl; try congruence; auto;
    cmp_cases; simpl; auto; intros; exfalso; subst; lia.
Qed.

Lemma SFeqb_eq x y :
  SFeqb x y = true ->
  x = y \/ exists s s', x = S754_zero s /\ y = S754_zero s'.
Proof.
  unfold SFeqb, SFcompare.
  destruct x as [s1|s1| |s1 m1 e1], y as [s2|s2| |s2 m2 e2];
    try destruct s1; try destruct s2; simpl; try congruence; eauto;
    cmp_cases; simpl; try congruence; subst; auto.
Qed.

Lemma SFeqb_refl x : x <> S754_nan -> SFeqb x x = true.
Proof.
  unfold SFeqb, SFcompare. destruct x as [s|s| |s m e]; try destruct s; simpl;
    try congruence; cmp_cases; simpl; try reflexivity; intros; exfalso; lia.
Qed.

Lemma Prim2SF_inj (x y : float) : Prim2SF x = Prim2SF y -> x = y.
Proof.
  intros E. rewrite <- (SF2Prim_Prim2SF x), <- (SF2Prim_Prim2SF y). now rewrite E.
Qed.

Lemma is_nan_false (x : float) : PrimFloat.is_nan x = false -> Prim2SF x <> S754_nan.
Proof.
  unfold PrimFloat.is_nan. rewrite eqb_spec. intros N E. rewrite E in N. discriminate.
Qed.

(** Binary64 [<] is irreflexive and transitive, NaN included. *)
Lemma binary64_ltb_irrefl (x : float) : x <. x = false.
Proof. simpl. rewrite ltb_spec. apply SFltb_irrefl. Qed.

Lemma binary64_ltb_trans (x y z : float) :
  x <. y = true -> y <. z = true -> x <. z = true.
Proof. simpl. rewrite !ltb_spec. apply SFltb_trans. Qed.

Lemma binary64_strict_order (vs : list float) : strict_order_on vs.
Proof.
  split.
  - intros x _. apply binary64_ltb_irrefl.
  - intros x y z _ _ _. apply binary64_ltb_trans.
Qed.

(** Binary64 thresholds are well ordered when none is NaN, 0.0 and -0.0 do
    not both occur, and their texts differ. *)
Lemma binary64_well_ordered `{FloatText float} (T : list float) :
  (forall x, In x T -> PrimFloat.is_nan x = false) ->
  ~ (In PrimFloat.zero T /\ In PrimFloat.neg_zero T) ->
  (forall x y, In x T -> In y T -> floatToGoString x = floatToGoString y -> x = y) ->
  well_ordered T.
Proof.
  intros Hnan Hzero Hgo.
  assert (Heq : forall x y, In x T -> In y T -> (x ==. y = true <-> x = y)).
  { intros x y Ix Iy. simpl. rewrite eqb_spec. split.
    - intros E. apply SFeqb_eq in E. destruct E as [E|(s & s' & Ex & Ey)].
      + now apply Prim2SF_inj.
      + apply (f_equal SF2Prim) in Ex, Ey. rewrite SF2Prim_Prim2SF in Ex, Ey.
        destruct s, s'; subst; try reflexivity; exfalso; apply Hzero; split; assumption.
    - intros <-. apply SFeqb_refl. now apply is_nan_false, Hnan. }
  split; [exact Heq|]. split; [intros x _; apply binary64_ltb_irrefl|].
  split; [intros x y z _ _ _; apply binary64_ltb_trans|]. split; [|exact Hgo].
  intros x y Ix Iy N. simpl. rewrite !ltb_spec.
  destruct (@SFcompare_total (Prim2SF x) (Prim2SF y)) as [L|[E|L]]; auto.
  - now apply is_nan_false, Hnan.
  - now apply is_nan_false, Hnan.
  - exfalso. apply N. apply Heq; auto. simpl. now rewrite eqb_spec.
Qed.

(** In binary64 the gauge that [collect] reports under mode min (max) is a
    minimum (maximum) of the partition's values, whatever they are. *)
Corollary binary64_gauge_extremum `{FloatText float} (metric : Metric float) S k m :
  type metric = "gauge" ->
  reconciled metric = Ok S ->
  od_get skey_eqb S k = Some m ->
  (_multiprocess_mode metric = Some "min" ->
   is_minimum m (contributing k (samples metric))) /\
  (_multiprocess_mode metric = Some "max" ->
   is_maximum m (contributing k (samples metric))).
Proof.
  intros T R G. rewrite reconciled_gauge in R by exact T. injection R as <-.
  split; intros M; rewrite M in G; unfold gauge_step in G;
    cbn [mode_is String.eqb Ascii.eqb Bool.eqb] in G.
  - rewrite gauge_min_get in G.
    apply py_min_list_minimum; [apply binary64_strict_order | exact G].
  - rewrite gauge_max_get in G.
    apply py_max_list_maximum; [apply binary64_strict_order | exact G].
Qed.

(* ================================================================== *)
(** ** Histograms on a concrete directory (binary64 values) *)

Example collect_histogram :
  collect_files fs_hist
  = Ok [mkMetric "lat" "Multiprocess metric" "histogram" None
          [("lat_sum", [], 7%float);
           ("lat_bucket", [("le", "1.0")], 2%float);
           ("lat_bucket", [("le", "5.0")], 3%float);
           ("lat_count", [], 3%float)]].
Proof. vm_compute. reflexivity. Qed.

Example collect_histogram_other_order :
  collect_files (rev fs_hist)
  = Ok [mkMetric "lat" "Multiprocess metric" "histogram" None
          [("lat_sum", [], 7%float);
           ("lat_bucket", [("le", "1.0")], 2%float);
           ("lat_bucket", [("le", "5.0")], 3%float);
           ("lat_count", [], 3%float)]].
Proof. vm_compute. reflexivity. Qed.

Lemma m_hist_le_parses : Forall le_parses (samples m_hist).
Proof.
  repeat constructor; eexists; vm_compute; reflexivity.
Defined.

Ltac in_cases :=
  repeat match goal with
         | I : _ \/ _ |- _ => destruct I as [I|I]
         | I : False |- _ => destruct I
         end.

Lemma m_hist_well_ordered : well_ordered (thresholds (samples m_hist)).
Proof.
  apply binary64_well_ordered.
  - intros x Ix. vm_compute in Ix. in_cases; subst; vm_compute; reflexivity.
  - intros [I _]. vm_compute in I. in_cases; inversion I.
  - intros x y Ix Iy. vm_compute in Ix, Iy. in_cases; subst; intros E;
      try reflexivity; vm_compute in E; discriminate.
Defined.

Lemma histogram_buckets_cumulative_witness :
  exists S,
    reconciled m_hist = Ok S /\
    reconcile m_hist = Ok (set_samples m_hist (map to_sample S)) /\
    forall g, group_items g (samples m_hist) <> [] ->
      exists ts,
        NoDup ts /\
        (forall t, In t ts <-> In t (map fst (group_items g (samples m_hist)))) /\
        StronglySorted (fun a b => a <. b = true) ts /\
        filter (on_key (is_bucket_of m_hist g)) S
        = map (fun t =>
                 (((name m_hist ++ "_bucket")%string, g ++ [("le", floatToGoString t)]),
                  cumulative_of (group_items g (samples m_hist)) ts t))
            ts /\
        od_get skey_eqb S ((name m_hist ++ "_count")%string, g)
        = Some (cumulative_of (group_items g (samples m_hist)) ts (last ts vzero)).
Proof.
  exact (@histogram_buckets_cumulative float binary64 table_text m_hist
           eq_refl m_hist_le_parses m_hist_well_ordered).
Defined.

(* ================================================================== *)
(** * Further properties of the code *)

(** ** The scoped lock *)

Section Flocking.
Context {V : Type} `{Arith V}.

(** X1.  [flocking(fn, op)] around any block: when the lock is granted the
    block runs with the lock held and its result, value or exception, is
    the result of the whole; when the lock is refused the block does not
    run, the [IOError] of [flock] is raised and the stores are as they
    were.  On every exit path the handle has been closed, so that no lock
    on [fn] is left. *)
Theorem flocking_scoped {A} (fn : string) (op : lock_op) (body : M V A) (w : World V) :
  ~ In fn (held (trace (snd (flocking fn op body w)))) /\
  match flock_env w fn op with
  | Acquired =>
      let w1 := mkWorld (files w) (flock_env w)
                  (EvFlock fn op :: EvOpen fn :: trace w) in
      In fn (held (trace w1)) /\
      fst (flocking fn op body w) = fst (body w1) /\
      files (snd (flocking fn op body w)) = files (snd (body w1))
  | Failed errno =>
      fst (flocking fn op body w) = Raise (IOError errno) /\
      files (snd (flocking fn op body w)) = files w
  end.
Proof.
  cbv [flocking finally flock bind emit]. cbn [files flock_env trace].
  destruct (flock_env w fn op) as [|errno]; cbn [files flock_env trace].
  - destruct (body _) as [[a|e] w2]; cbn [fst snd files trace held];
      (split; [apply remove_In|]); (split; [now left|]); split; reflexivity.
  - cbn [fst snd files trace held]. split; [apply remove_In|]. split; reflexivity.
Qed.

End Flocking.

(* ================================================================== *)
(** ** Compaction: outcome and frame *)

Section CompactOutcome.
Context {V : Type} `{Arith V}.

Ltac run :=
  cbv [compact flocking finally flock bind emit lift ret raise get_files put_files
       mmap_open_read mmap_open mmap_flush os_remove with_open_rb catch_IOError
       mark_file_dead index];
  cbn [files flock_env trace].

(** Every run of [compact], by what it finds. *)
Lemma compact_cases (w : World V) srcf :
  compact srcf w =
  match flock_env w "compacting" LOCK_EX with
  | Failed errno =>
      (Raise (IOError errno),
       mkWorld (files w) (flock_env w)
         (EvClose "compacting" :: EvOpen "compacting" :: EvCompact srcf :: trace w))
  | Acquired =>
      let tr := EvClose "compacting" :: EvFlock "compacting" LOCK_EX
                  :: EvOpen "compacting" :: EvCompact srcf :: trace w in
      if has_segments srcf then
        match od_get String.eqb (files w) srcf with
        | Some src =>
            (Ok tt, compacted w srcf (src_typ srcf) (src_mode srcf) (src_pid srcf) src)
        | None => (Raise (IOError ENOENT), mkWorld (files w) (flock_env w) tr)
        end
      else (Raise IndexError, mkWorld (files w) (flock_env w) tr)
  end.
Proof.
  destruct (flock_env w "compacting" LOCK_EX) as [|errno] eqn:L.
  2:{ run. now rewrite L. }
  cbv zeta. unfold has_segments, src_mode, src_pid, src_typ.
  pose proof (split_nonempty "_" srcf) as Ne.
  destruct (split "_" srcf) as [|typ [|p1 rest]] eqn:Hs; [contradiction| |].
  - cbn [hd List.length nth]. run. rewrite L, Hs. cbn [nth_error files flock_env trace].
    destruct (String.eqb typ "gauge"); reflexivity.
  - cbn [hd List.length nth].
    destruct (String.eqb typ "gauge") eqn:T.
    + apply String.eqb_eq in T. subst typ.
      destruct rest as [|p2 rest].
      * simpl. run. rewrite L, Hs. cbn [nth_error files flock_env trace]. reflexivity.
      * simpl Nat.leb. cbv iota.
        destruct (od_get String.eqb (files w) srcf) as [src|] eqn:G.
        -- now apply compact_run_gauge with (rest := rest).
        -- run. rewrite L, Hs. cbn [nth_error files flock_env trace].
           cbn [String.eqb Ascii.eqb Bool.eqb files flock_env trace].
           rewrite G. reflexivity.
    + simpl Nat.leb. cbv iota.
      destruct (od_get String.eqb (files w) srcf) as [src|] eqn:G.
      * apply compact_run_plain with (rest := rest); auto. now apply String.eqb_neq.
      * run. rewrite L, Hs. cbn [nth_error files flock_env trace].
        rewrite T. cbn [files flock_env trace]. rewrite G. reflexivity.
Qed.

(** X2.  The outcome of [compact(srcf)], in the order the code meets the
    failures: a refused exclusive lock raises the [IOError] of [flock];
    else a name without the segments that are subscripted ([parts[1]], and
    [parts[2]] for a gauge) raises [IndexError]; else a missing source
    raises [IOError] (ENOENT); else [compact] returns normally.  (Stores
    that exist are taken to be readable and their keys well formed.) *)
Theorem compact_outcome (w : World V) srcf :
  fst (compact srcf w) =
  match flock_env w "compacting" LOCK_EX with
  | Failed errno => Raise (IOError errno)
  | Acquired =>
      if has_segments srcf then
        match od_get String.eqb (files w) srcf with
        | Some _ => Ok tt
        | None => Raise (IOError ENOENT)
        end
      else Raise IndexError
  end.
Proof.
  rewrite compact_cases.
  destruct (flock_env w "compacting" LOCK_EX); [|reflexivity].
  cbv zeta. destruct (has_segments srcf); [|reflexivity].
  now destruct (od_get String.eqb (files w) srcf).
Qed.

(** X3.  A [compact] that fails before it opens a store has changed
    nothing: when the exclusive lock is refused, or the name lacks the
    segments that are subscripted, [compact] raises, every store is what
    it was (no archive was created, the source is still there) and the
    exclusive lock is not left behind. *)
Theorem compact_failure_changes_nothing (w : World V) srcf :
  flock_env w "compacting" LOCK_EX <> Acquired \/ has_segments srcf = false ->
  (exists e, fst (compact srcf w) = Raise e) /\
  files (snd (compact srcf w)) = files w /\
  ~ In "compacting" (held (trace (snd (compact srcf w)))).
Proof.
  intros Hf. rewrite compact_cases.
  destruct (flock_env w "compacting" LOCK_EX) as [|errno].
  - destruct Hf as [Hf|Hf]; [contradiction|]. cbv zeta. rewrite Hf.
    cbn [fst snd files trace held].
    split; [now exists IndexError|]. split; [reflexivity | apply remove_In].
  - cbn [fst snd files trace held].
    split; [now exists (IOError errno)|]. split; [reflexivity | apply remove_In].
Qed.

Lemma compact_ok_inv (w w' : World V) srcf :
  compact srcf w = (Ok tt, w') ->
  exists src,
    od_get String.eqb (files w) srcf = Some src /\
    has_segments srcf = true /\
    flock_env w "compacting" LOCK_EX = Acquired /\
    w' = compacted w srcf (src_typ srcf) (src_mode srcf) (src_pid srcf) src.
Proof.
  rewrite compact_cases.
  destruct (flock_env w "compacting" LOCK_EX); [|discriminate].
  cbv zeta. destruct (has_segments srcf); [|discriminate].
  destruct (od_get String.eqb (files w) srcf) as [src|]; [|discriminate].
  intros [= <-]. now exists src.
Qed.

(** X4.  A successful [compact(srcf)] touches two files and no other: the
    source is gone, the archive of its class exists, and every other file
    of the directory is what it was. *)
Theorem compact_touches_two_files (w w' : World V) srcf :
  NoDup (map fst (files w)) ->
  compact srcf w = (Ok tt, w') ->
  od_get String.eqb (files w') srcf = None /\
  (dest_of srcf <> srcf -> od_get String.eqb (files w') (dest_of srcf) <> None) /\
  (forall f, f <> srcf -> f <> dest_of srcf ->
     od_get String.eqb (files w') f = od_get String.eqb (files w) f).
Proof.
  intros ND R. pose proof R as R0; apply compact_ok_inv in R0;
    destruct R0 as (src & G & _ & _ & ->).
  split; [now apply compacted_source_gone|]. split.
  - intros N. unfold compacted. cbn [files]. fold (dest_of srcf).
    rewrite (od_get_del_other _ String.eqb_eq) by congruence.
    rewrite (od_get_set_same _ String.eqb_eq). discriminate.
  - intros f N1 N2. unfold compacted. cbn [files]. fold (dest_of srcf).
    rewrite (od_get_del_other _ String.eqb_eq) by congruence.
    now rewrite (od_get_set_other _ String.eqb_eq) by congruence.
Qed.

Lemma od_set_keys_prefix {K A} (keq : K -> K -> bool) (d : list (K * A)) k a :
  exists l, map fst (od_set keq d k a) = map fst d ++ l.
Proof.
  induction d as [|[k' a'] d [l IH]]; simpl.
  - now exists [k].
  - destruct (keq k' k); simpl.
    + exists []. now rewrite app_nil_r.
    + exists l. now rewrite IH.
Qed.

Lemma merge_row_keys_prefix typ mm pid (d : Store V) row :
  exists l, map fst (merge_row typ mm pid d row) = map fst d ++ l.
Proof.
  assert (Id : exists l, map fst d = map fst d ++ l)
    by (exists []; now rewrite app_nil_r).
  assert (Rv : forall k, exists l, map fst (snd (read_value d k)) = map fst d ++ l).
  { intros k. unfold read_value. destruct (od_get key_eqb d k); simpl; [exact Id|].
    apply od_set_keys_prefix. }
  assert (Tr : forall (d1 : Store V) k v,
             (exists l, map fst d1 = map fst d ++ l) ->
             exists l, map fst (write_value d1 k v) = map fst d ++ l).
  { intros d1 k v [l E]. unfold write_value.
    destruct (od_set_keys_prefix key_eqb d1 k v) as [l' E'].
    exists (l ++ l'). now rewrite E', E, app_assoc. }
  destruct row as [key value]. unfold merge_row.
  destruct (String.eqb typ "gauge").
  - destruct (mode_is mm "min").
    { unfold read_value_noinit. destruct (od_get key_eqb d key); [|now apply Tr].
      destruct (value <. v); [now apply Tr | exact Id]. }
    destruct (mode_is mm "max").
    { specialize (Rv key). destruct (read_value d key) as [v0 d1]. simpl in Rv.
      destruct (value >. v0); [|exact Rv].
      unfold read_value_noinit. destruct (od_get key_eqb d1 key); [|now apply Tr].
      destruct (value >. v); [now apply Tr | exact Rv]. }
    destruct (mode_is mm "all"); [now apply Tr | exact Id].
  - specialize (Rv key). destruct (read_value d key) as [v0 d1]. simpl in Rv.
    now apply Tr.
Qed.

Lemma merge_rows_keys_prefix typ mm pid (src : Store V) : forall d,
  exists l, map fst (merge_rows typ mm pid src d) = map fst d ++ l.
Proof.
  unfold merge_rows, read_all_values.
  induction src as [|row src IH]; intros d; simpl.
  - exists []. now rewrite app_nil_r.
  - destruct (IH (merge_row typ mm pid d row)) as [l E].
    destruct (merge_row_keys_prefix typ mm pid d row) as [l' E'].
    exists (l' ++ l). now rewrite E, E', app_assoc.
Qed.

(** X5.  Compaction only grows an archive, whatever the type and the
    mode: the keys the archive held are all still there, in their order,
    and the keys that are new come after them. *)
Theorem compact_archive_grows (w w' : World V) srcf d :
  compact srcf w = (Ok tt, w') ->
  dest_of srcf <> srcf ->
  od_get String.eqb (files w) (dest_of srcf) = Some d ->
  exists d' new,
    od_get String.eqb (files w') (dest_of srcf) = Some d' /\
    map fst d' = map fst d ++ new.
Proof.
  intros R N G. pose proof R as R0; apply compact_ok_inv in R0;
    destruct R0 as (src & _ & _ & _ & ->).
  destruct (merge_rows_keys_prefix (src_typ srcf) (src_mode srcf) (src_pid srcf) src d)
    as [new E].
  exists (merge_rows (src_typ srcf) (src_mode srcf) (src_pid srcf) src d), new.
  split; [|exact E].
  unfold compacted. cbn [files]. fold (dest_of srcf).
  rewrite (od_get_del_other _ String.eqb_eq) by congruence.
  rewrite (od_get_set_same _ String.eqb_eq).
  unfold archive_of. fold (dest_of srcf). now rewrite G.
Qed.

End CompactOutcome.

Lemma compact_failure_changes_nothing_witness :
  (exists e, fst (compact "counter" w_counter) = Raise e) /\
  files (snd (compact "counter" w_counter)) = files w_counter /\
  ~ In "compacting" (held (trace (snd (compact "counter" w_counter)))).
Proof.
  apply (@compact_failure_changes_nothing float binary64 w_counter "counter").
  right. reflexivity.
Defined.

Lemma NoDup_counter_files : NoDup (map fst (files w_counter)).
Proof.
  constructor; [|constructor; [|constructor]]; simpl; intuition discriminate.
Defined.

Lemma compact_touches_two_files_witness :
  od_get String.eqb (files (snd (compact "counter_123_0.db" w_counter)))
    "counter_123_0.db" = None /\
  (dest_of "counter_123_0.db" <> "counter_123_0.db" ->
   od_get String.eqb (files (snd (compact "counter_123_0.db" w_counter)))
     (dest_of "counter_123_0.db") <> None) /\
  (forall f, f <> "counter_123_0.db" -> f <> dest_of "counter_123_0.db" ->
     od_get String.eqb (files (snd (compact "counter_123_0.db" w_counter))) f
     = od_get String.eqb (files w_counter) f).
Proof.
  apply (@compact_touches_two_files float binary64 w_counter
           (snd (compact "counter_123_0.db" w_counter)) "counter_123_0.db").
  - exact NoDup_counter_files.
  - reflexivity.
Defined.

Lemma compact_archive_grows_witness :
  exists d' new,
    od_get String.eqb (files (snd (compact "counter_123_0.db" w_counter)))
      (dest_of "counter_123_0.db") = Some d' /\
    map fst d' = map fst [(k_temp, 5%float)] ++ new.
Proof.
  apply (@compact_archive_grows float binary64 w_counter
           (snd (compact "counter_123_0.db" w_counter)) "counter_123_0.db"
           [(k_temp, 5%float)]).
  - reflexivity.
  - discriminate.
  - reflexivity.
Defined.

(* ================================================================== *)
(** ** Compaction of plain stores in exact arithmetic *)

(** Sums when [+] is associative and commutative with [0.0] neutral: the
    laws of the integers, which the sample values that add without
    rounding inherit below. *)
Section Totals.
Context {V : Type} `{Arith V}.
Hypothesis Hassoc : forall x y z : V, (x +. y) +. z = x +. (y +. z).
Hypothesis Hcomm : forall x y : V, x +. y = y +. x.
Hypothesis Hzero : forall x : V, vzero +. x = x.

Lemma add_zero_r (x : V) : x +. vzero = x.
Proof. now rewrite Hcomm. Qed.

Lemma fold_add_shift (l : list V) : forall a, fold_left vadd l a = a +. py_sum l.
Proof.
  unfold py_sum. induction l as [|x l IH]; intros a; simpl.
  - now rewrite add_zero_r.
  - rewrite IH, (IH (vzero +. x)), Hzero. apply Hassoc.
Qed.

Lemma py_sum_cons (x : V) l : py_sum (x :: l) = x +. py_sum l.
Proof. unfold py_sum at 1. simpl. now rewrite fold_add_shift, Hzero. Qed.

Lemma py_sum_app (l1 l2 : list V) : py_sum (l1 ++ l2) = py_sum l1 +. py_sum l2.
Proof. unfold py_sum at 1. rewrite fold_left_app. now rewrite fold_add_shift. Qed.

Variable P : Key -> bool.

Lemma store_total_cons (k : Key) (v : V) d :
  store_total P ((k, v) :: d) = (if P k then v else vzero) +. store_total P d.
Proof.
  unfold store_total. simpl. destruct (P k); simpl.
  - apply py_sum_cons.
  - now rewrite Hzero.
Qed.

Lemma store_total_app (d1 d2 : Store V) :
  store_total P (d1 ++ d2) = store_total P d1 +. store_total P d2.
Proof. unfold store_total. now rewrite filter_app, map_app, py_sum_app. Qed.

Lemma store_total_set_present (d : Store V) k v0 v :
  od_get key_eqb d k = Some v0 ->
  store_total P (od_set key_eqb d k (v0 +. v))
  = store_total P d +. (if P k then v else vzero).
Proof.
  induction d as [|[k' a'] d IH]; simpl; [discriminate|].
  destruct (key_eqb k' k) eqn:E.
  - apply key_eqb_eq in E. subst k'. intros [= ->].
    rewrite !store_total_cons. destruct (P k).
    + rewrite !Hassoc. f_equal. apply Hcomm.
    + now rewrite add_zero_r.
  - intros G. rewrite !store_total_cons, IH by exact G. now rewrite Hassoc.
Qed.

Lemma store_total_read_value (d : Store V) k :
  store_total P (snd (read_value d k)) = store_total P d.
Proof.
  unfold read_value. destruct (od_get key_eqb d k) eqn:G; simpl; [reflexivity|].
  apply (od_get_None _ key_eqb_eq) in G.
  rewrite (od_set_keys_absent _ key_eqb_eq) by exact G.
  rewrite store_total_app, store_total_cons. unfold store_total at 3. simpl.
  destruct (P k); now rewrite ?Hzero, ?add_zero_r.
Qed.

(** One row of a plain store adds its value to the total when its key
    satisfies [P]. *)
Lemma store_total_merge_row typ mm pid (d : Store V) k v :
  typ <> "gauge" ->
  store_total P (merge_row typ mm pid d (k, v))
  = store_total P d +. (if P k then v else vzero).
Proof.
  intros N. unfold merge_row. apply String.eqb_neq in N. rewrite N.
  pose proof (read_value_get d k) as G. pose proof (store_total_read_value d k) as T.
  destruct (read_value d k) as [v0 d1]. simpl in G, T. unfold write_value.
  rewrite (@store_total_set_present d1 k v0 v G). now rewrite T.
Qed.

Lemma store_total_merge_rows typ mm pid (src : Store V) : forall d,
  typ <> "gauge" ->
  store_total P (merge_rows typ mm pid src d) = store_total P d +. store_total P src.
Proof.
  unfold merge_rows, read_all_values.
  induction src as [|[k v] src IH]; intros d N; cbn [fold_left].
  - unfold store_total at 3. simpl. now rewrite add_zero_r.
  - rewrite IH by exact N. rewrite store_total_merge_row by exact N.
    rewrite store_total_cons. now rewrite Hassoc.
Qed.

Lemma total_over_cons (f : string * Store V) fs :
  total_over P (f :: fs) = store_total P (snd f) +. total_over P fs.
Proof. unfold total_over. simpl. now rewrite py_sum_app. Qed.

Lemma total_over_del (fs : list (string * Store V)) f d :
  od_get String.eqb fs f = Some d ->
  total_over P fs = store_total P d +. total_over P (od_del String.eqb fs f).
Proof.
  induction fs as [|[f' d'] fs IH]; simpl; [discriminate|].
  destruct (String.eqb f' f).
  - intros [= ->]. now rewrite total_over_cons.
  - intros G. rewrite !total_over_cons, (IH G). cbn [snd].
    rewrite <- !Hassoc. f_equal. apply Hcomm.
Qed.

End Totals.

Section DictMore.
Context {K A : Type} (keq : K -> K -> bool).
Hypothesis keq_eq : forall x y, keq x y = true <-> x = y.

Lemma od_del_absent (d : list (K * A)) k :
  od_get keq d k = None -> od_del keq d k = d.
Proof.
  induction d as [|[k' a'] d IH]; simpl; [reflexivity|].
  destruct (keq k' k); [discriminate|]. intros G. now rewrite IH.
Qed.

Lemma od_del_set_same (d : list (K * A)) k a :
  od_del keq (od_set keq d k a) k = od_del keq d k.
Proof.
  induction d as [|[k' a'] d IH]; simpl.
  - now rewrite (keq_refl _ keq_eq).
  - destruct (keq k' k) eqn:E; simpl; rewrite E; [reflexivity|]. now rewrite IH.
Qed.

Lemma od_del_set_comm (d : list (K * A)) k g a :
  k <> g -> od_del keq (od_set keq d g a) k = od_set keq (od_del keq d k) g a.
Proof.
  intros N. induction d as [|[k' a'] d IH]; simpl.
  - rewrite (keq_neq _ keq_eq); [reflexivity | congruence].
  - destruct (keq k' g) eqn:Eg; destruct (keq k' k) eqn:Ek; simpl; rewrite ?Eg, ?Ek.
    + apply keq_eq in Eg, Ek. congruence.
    + reflexivity.
    + reflexivity.
    + now rewrite IH.
Qed.

Lemma od_set_In (d : list (K * A)) k a x :
  In x (od_set keq d k a) -> x = (k, a) \/ In x d.
Proof.
  induction d as [|[k' a'] d IH]; simpl.
  - intros [<-|[]]. now left.
  - destruct (keq k' k) eqn:E; simpl.
    + apply keq_eq in E. subst k'. intros [<-|I]; auto.
    + intros [<-|I]; auto. destruct (IH I); auto.
Qed.

Lemma od_del_In (d : list (K * A)) k x :
  In x (od_del keq d k) -> In x d.
Proof.
  induction d as [|[k' a'] d IH]; simpl; [tauto|].
  destruct (keq k' k); simpl; [tauto|]. intros [<-|I]; auto.
Qed.

Lemma od_get_Some_In_keys (d : list (K * A)) k a :
  od_get keq d k = Some a -> In k (map fst d).
Proof.
  intros G. apply (od_get_In _ keq_eq) in G.
  change k with (fst (k, a)). now apply in_map.
Qed.

Lemma od_set_keys_In (d : list (K * A)) k a x :
  In x (map fst (od_set keq d k a)) -> x = k \/ In x (map fst d).
Proof.
  induction d as [|[k' a'] d IH]; simpl.
  - intros [<-|[]]. now left.
  - destruct (keq k' k); simpl; [tauto|].
    intros [<-|I]; [tauto|]. destruct (IH I); tauto.
Qed.

Lemma od_set_key_In (d : list (K * A)) k a : In k (map fst (od_set keq d k a)).
Proof.
  pose proof (od_get_set_same keq keq_eq d k a) as G.
  now apply od_get_Some_In_keys in G.
Qed.

(** An entry of [d] is the one [k] names, or survives [del d[k]]. *)
Lemma od_del_In_or (d : list (K * A)) k x :
  In x d -> (exists a, x = (k, a) /\ od_get keq d k = Some a) \/ In x (od_del keq d k).
Proof.
  induction d as [|[k' a'] d IH]; simpl; [tauto|].
  destruct (keq k' k) eqn:E.
  - apply keq_eq in E. subst k'. intros [<-|I]; [left; now exists a' | now right].
  - intros [<-|I]; [right; now left|].
    destruct (IH I) as [L|R]; [now left | right; now right].
Qed.

(** An entry of [d] is the one [k] names, or survives [d[k] = a]. *)
Lemma od_set_In_or (d : list (K * A)) k a x :
  In x d -> (exists a0, x = (k, a0) /\ od_get keq d k = Some a0) \/ In x (od_set keq d k a).
Proof.
  induction d as [|[k' a'] d IH]; simpl; [tauto|].
  destruct (keq k' k) eqn:E.
  - apply keq_eq in E. subst k'. intros [<-|I]; [left; now exists a'|].
    right. simpl. now right.
  - intros [<-|I]; [right; now left|].
    destruct (IH I) as [L|R]; [now left | right; now right].
Qed.

Lemma od_del_keys_incl (d : list (K * A)) k x :
  In x (map fst (od_del keq d k)) -> In x (map fst d).
Proof.
  induction d as [|[k' a'] d IH]; simpl; [tauto|].
  destruct (keq k' k); simpl; [tauto|]. intros [<-|I]; auto.
Qed.

Lemma od_del_NoDup (d : list (K * A)) k :
  NoDup (map fst d) -> NoDup (map fst (od_del keq d k)).
Proof.
  induction d as [|[k' a'] d IH]; simpl; [auto|].
  intros ND. inversion ND as [|? ? Nin ND']. subst.
  destruct (keq k' k); [exact ND'|]. simpl. constructor; [|auto].
  intros I. apply Nin. now apply od_del_keys_incl in I.
Qed.

End DictMore.

(** The keys of the archive after the merge of a plain store. *)
Section MergeKeys.
Context {V : Type} `{Arith V}.

Lemma merge_row_plain_keys typ mm pid (d : Store V) k v x :
  typ <> "gauge" ->
  In x (map fst (merge_row typ mm pid d (k, v))) -> x = k \/ In x (map fst d).
Proof.
  intros N. unfold merge_row. apply String.eqb_neq in N. rewrite N.
  unfold read_value, write_value.
  destruct (od_get key_eqb d k); intros I; apply od_set_keys_In in I.
  - exact I.
  - destruct I as [I|I]; [now left|]. now apply od_set_keys_In in I.
Qed.

Lemma merge_row_plain_key typ mm pid (d : Store V) k v :
  typ <> "gauge" -> In k (map fst (merge_row typ mm pid d (k, v))).
Proof.
  intros N. unfold merge_row. apply String.eqb_neq in N. rewrite N.
  destruct (read_value d k) as [v0 d1]. unfold write_value.
  apply (od_set_key_In _ key_eqb_eq).
Qed.

Lemma merge_rows_plain_keys typ mm pid (src : Store V) : forall d x,
  typ <> "gauge" ->
  In x (map fst (merge_rows typ mm pid src d)) ->
  In x (map fst d) \/ In x (map fst src).
Proof.
  unfold merge_rows, read_all_values.
  induction src as [|[k v] src IH]; intros d x N; cbn [fold_left].
  - now left.
  - intros I. destruct (IH _ _ N I) as [I'|I'].
    + apply merge_row_plain_keys in I'; [|exact N].
      destruct I' as [->|I']; [right; now left | now left].
    + right. now right.
Qed.

Lemma merge_rows_keeps typ mm pid (src d : Store V) x :
  In x (map fst d) -> In x (map fst (merge_rows typ mm pid src d)).
Proof.
  intros I. destruct (merge_rows_keys_prefix typ mm pid src d) as [l E]. rewrite E.
  apply in_or_app. now left.
Qed.

Lemma merge_rows_plain_src typ mm pid (src : Store V) : forall d x,
  typ <> "gauge" ->
  In x (map fst src) -> In x (map fst (merge_rows typ mm pid src d)).
Proof.
  induction src as [|[k v] src IH]; intros d x N I; simpl in I; [tauto|].
  assert (E : merge_rows typ mm pid ((k, v) :: src) d
              = merge_rows typ mm pid src (merge_row typ mm pid d (k, v))) by reflexivity.
  rewrite E. destruct I as [<-|I].
  - apply merge_rows_keeps. now apply merge_row_plain_key.
  - now apply IH.
Qed.

Lemma merge_row_NoDup typ mm pid (d : Store V) row :
  NoDup (map fst d) -> NoDup (map fst (merge_row typ mm pid d row)).
Proof.
  intros ND.
  assert (Rv : forall k, NoDup (map fst (snd (read_value d k)))).
  { intros k. unfold read_value. destruct (od_get key_eqb d k); simpl; [exact ND|].
    now apply (od_set_NoDup _ key_eqb_eq). }
  assert (Wr : forall (d1 : Store V) k v,
             NoDup (map fst d1) -> NoDup (map fst (write_value d1 k v))).
  { intros d1 k v N1. unfold write_value. now apply (od_set_NoDup _ key_eqb_eq). }
  destruct row as [key value]. unfold merge_row.
  destruct (String.eqb typ "gauge").
  - destruct (mode_is mm "min").
    { unfold read_value_noinit. destruct (od_get key_eqb d key); [|now apply Wr].
      destruct (value <. v); [now apply Wr | exact ND]. }
    destruct (mode_is mm "max").
    { specialize (Rv key). destruct (read_value d key) as [v0 d1]. simpl in Rv.
      destruct (value >. v0); [|exact Rv].
      unfold read_value_noinit. destruct (od_get key_eqb d1 key); [|now apply Wr].
      destruct (value >. v); [now apply Wr | exact Rv]. }
    destruct (mode_is mm "all"); [now apply Wr | exact ND].
  - specialize (Rv key). destruct (read_value d key) as [v0 d1]. simpl in Rv.
    now apply Wr.
Qed.

Lemma merge_rows_NoDup typ mm pid (src : Store V) : forall d,
  NoDup (map fst d) -> NoDup (map fst (merge_rows typ mm pid src d)).
Proof.
  unfold merge_rows, read_all_values.
  induction src as [|row src IH]; intros d ND; cbn [fold_left]; [exact ND|].
  apply IH. now apply merge_row_NoDup.
Qed.

End MergeKeys.

Lemma split_hd_app sep s t :
  split sep (hd EmptyString (split sep s) ++ String sep t)
  = hd EmptyString (split sep s) :: split sep t.
Proof.
  induction s as [|c s IH]; simpl.
  - now rewrite Ascii.eqb_refl.
  - destruct (Ascii.eqb c sep) eqn:E; simpl.
    + now rewrite Ascii.eqb_refl.
    + pose proof (split_nonempty sep s) as Ne.
      destruct (split sep s) as [|w ws]; [contradiction|]. simpl in *.
      rewrite E, IH. reflexivity.
Qed.

(** The archive of a plain store has the type of the store in its name. *)
Lemma dest_of_plain_type srcf :
  src_typ srcf <> "gauge" ->
  hd EmptyString (split "_" (dest_of srcf)) = src_typ srcf.
Proof.
  intros N. unfold dest_of, src_mode. apply String.eqb_neq in N. rewrite N.
  unfold archive_name, src_typ.
  change "_archived.db" with (String "_" "archived.db").
  now rewrite split_hd_app.
Qed.

Section Conservation.
Context {V : Type} `{Arith V} `{FloatText V}.
Hypothesis Hassoc : forall x y z : V, (x +. y) +. z = x +. (y +. z).
Hypothesis Hcomm : forall x y : V, x +. y = y +. x.
Hypothesis Hzero : forall x : V, vzero +. x = x.

Lemma compacted_total (P : Key -> bool) (w : World V) srcf typ mm pid src :
  typ <> "gauge" ->
  archive_name typ mm <> srcf ->
  od_get String.eqb (files w) srcf = Some src ->
  total_over P (files (compacted w srcf typ mm pid src)) = total_over P (files w).
Proof.
  intros Nt Nd G. unfold compacted. cbn [files].
  rewrite (od_del_set_comm _ String.eqb_eq) by congruence.
  set (fs0 := od_del String.eqb (files w) srcf).
  rewrite (total_over_del Hassoc Hcomm Hzero P (files w) srcf G). fold fs0.
  assert (G1 : od_get String.eqb
                 (od_set String.eqb fs0 (archive_name typ mm)
                    (merge_rows typ mm pid src (archive_of w typ mm)))
                 (archive_name typ mm)
               = Some (merge_rows typ mm pid src (archive_of w typ mm)))
    by apply (od_get_set_same _ String.eqb_eq).
  rewrite (total_over_del Hassoc Hcomm Hzero P _ _ G1).
  rewrite (od_del_set_same _ String.eqb_eq).
  rewrite (store_total_merge_rows Hassoc Hcomm Hzero) by exact Nt.
  assert (G0 : od_get String.eqb fs0 (archive_name typ mm)
               = od_get String.eqb (files w) (archive_name typ mm)).
  { unfold fs0. apply (od_get_del_other _ String.eqb_eq). congruence. }
  unfold archive_of. rewrite <- G0.
  destruct (od_get String.eqb fs0 (archive_name typ mm)) as [dst|] eqn:Gd; cbn [default].
  - rewrite (total_over_del Hassoc Hcomm Hzero P fs0 _ Gd).
    rewrite <- !Hassoc. f_equal. apply Hcomm.
  - rewrite (od_del_absent _ _ _ Gd).
    unfold store_total at 1. simpl. now rewrite Hzero.
Qed.

Lemma contributions_total mn nm ls (fs : list (string * Store V)) :
  py_sum (contributions mn nm ls fs) = total_over (reads_as mn nm ls) fs.
Proof. reflexivity. Qed.

Lemma contributions_nonempty mn nm ls (fs : list (string * Store V)) :
  contributions mn nm ls fs <> [] <->
  exists f row, In f fs /\ In row (snd f) /\ reads_as mn nm ls (fst row) = true.
Proof.
  split.
  - intros N. destruct (contributions mn nm ls fs) as [|v vs] eqn:E; [contradiction|].
    assert (I : In v (contributions mn nm ls fs)) by (rewrite E; now left).
    unfold contributions in I.
    apply in_flat_map in I as (f & If & Iv).
    apply in_map_iff in Iv as (row & _ & Ir). apply filter_In in Ir as [Ir Pr].
    now exists f, row.
  - intros (f & row & If & Ir & Pr) E.
    assert (I : In (snd row) (contributions mn nm ls fs)).
    { unfold contributions. apply in_flat_map. exists f. split; [exact If|].
      apply in_map. apply filter_In. now split. }
    rewrite E in I. exact I.
Qed.

(** *** The order of two compactions *)

Lemma store_total_key_absent (d : Store V) k :
  ~ In k (map fst d) -> store_total (fun k' => key_eqb k' k) d = vzero.
Proof.
  induction d as [|[k' a] d IH]; intros N; [reflexivity|].
  rewrite (store_total_cons Hassoc Hcomm Hzero). simpl in N.
  rewrite (keq_neq _ key_eqb_eq) by tauto. rewrite Hzero. apply IH. tauto.
Qed.

Lemma store_total_key_get (d : Store V) k :
  NoDup (map fst d) ->
  store_total (fun k' => key_eqb k' k) d = default vzero (od_get key_eqb d k).
Proof.
  induction d as [|[k' a] d IH]; intros ND; [reflexivity|].
  inversion ND as [|? ? Nin ND']. subst.
  rewrite (store_total_cons Hassoc Hcomm Hzero). simpl.
  destruct (key_eqb k' k) eqn:E.
  - apply key_eqb_eq in E. subst k'. rewrite store_total_key_absent by exact Nin.
    cbn [default]. now rewrite Hcomm, Hzero.
  - rewrite Hzero. now apply IH.
Qed.

Lemma merge_rows_plain_default typ mm pid (src d : Store V) k :
  typ <> "gauge" -> NoDup (map fst d) ->
  default vzero (od_get key_eqb (merge_rows typ mm pid src d) k)
  = default vzero (od_get key_eqb d k) +. store_total (fun k' => key_eqb k' k) src.
Proof.
  intros N ND.
  rewrite <- !store_total_key_get by (try apply merge_rows_NoDup; exact ND).
  now apply store_total_merge_rows.
Qed.

Lemma merge_rows_plain_present typ mm pid (src d : Store V) k :
  typ <> "gauge" ->
  (od_get key_eqb (merge_rows typ mm pid src d) k = None <->
   od_get key_eqb d k = None /\ ~ In k (map fst src)).
Proof.
  intros N. rewrite !(od_get_None _ key_eqb_eq). split.
  - intros Nk. split; intros I; apply Nk.
    + now apply merge_rows_keeps.
    + now apply merge_rows_plain_src.
  - intros [N1 N2] I. apply merge_rows_plain_keys in I; [|exact N]. tauto.
Qed.

Lemma merge_rows_commute typ mm pid1 pid2 (s1 s2 d : Store V) k :
  typ <> "gauge" -> NoDup (map fst d) ->
  od_get key_eqb (merge_rows typ mm pid2 s2 (merge_rows typ mm pid1 s1 d)) k
  = od_get key_eqb (merge_rows typ mm pid1 s1 (merge_rows typ mm pid2 s2 d)) k.
Proof.
  intros N ND.
  pose proof (@merge_rows_plain_default typ mm pid2 s2 (merge_rows typ mm pid1 s1 d) k N
                (@merge_rows_NoDup _ _ typ mm pid1 s1 d ND)) as D12.
  pose proof (@merge_rows_plain_default typ mm pid1 s1 (merge_rows typ mm pid2 s2 d) k N
                (@merge_rows_NoDup _ _ typ mm pid2 s2 d ND)) as D21.
  rewrite (@merge_rows_plain_default typ mm pid1 s1 d k N ND) in D12.
  rewrite (@merge_rows_plain_default typ mm pid2 s2 d k N ND) in D21.
  pose proof (@merge_rows_plain_present typ mm pid2 s2 (merge_rows typ mm pid1 s1 d) k N) as P12.
  pose proof (@merge_rows_plain_present typ mm pid1 s1 (merge_rows typ mm pid2 s2 d) k N) as P21.
  rewrite (@merge_rows_plain_present typ mm pid1 s1 d k N) in P12.
  rewrite (@merge_rows_plain_present typ mm pid2 s2 d k N) in P21.
  destruct (od_get key_eqb (merge_rows typ mm pid2 s2 (merge_rows typ mm pid1 s1 d)) k)
    as [a|] eqn:G12;
    destruct (od_get key_eqb (merge_rows typ mm pid1 s1 (merge_rows typ mm pid2 s2 d)) k)
      as [b|] eqn:G21; cbn [default] in *.
  - f_equal. rewrite D12, D21. rewrite !Hassoc. f_equal. apply Hcomm.
  - exfalso. assert (X : Some a = None) by (apply P12; tauto). discriminate.
  - exfalso. assert (X : Some b = None) by (apply P21; tauto). discriminate.
  - reflexivity.
Qed.

(** With such a [+], two distinct stores of one plain type compacted in
    either order leave the same value under every key of their archive. *)
Lemma compact_order_assoc (w wa wab wb wba : World V) s1 s2 :
  s1 <> s2 ->
  src_typ s1 <> "gauge" ->
  src_typ s2 = src_typ s1 ->
  dest_of s1 <> s1 -> dest_of s1 <> s2 ->
  NoDup (map fst (archive_of w (src_typ s1) None)) ->
  compact s1 w = (Ok tt, wa) -> compact s2 wa = (Ok tt, wab) ->
  compact s2 w = (Ok tt, wb) -> compact s1 wb = (Ok tt, wba) ->
  forall key,
    od_get key_eqb (archive_of wab (src_typ s1) None) key
    = od_get key_eqb (archive_of wba (src_typ s1) None) key.
Proof.
  intros Ns Nt Et Nd1 Nd2 ND Ra Rab Rb Rba key.
  assert (Em1 : src_mode s1 = None).
  { unfold src_mode. apply String.eqb_neq in Nt. now rewrite Nt. }
  assert (Em2 : src_mode s2 = None).
  { unfold src_mode. rewrite Et. apply String.eqb_neq in Nt. now rewrite Nt. }
  unfold dest_of in Nd1, Nd2. rewrite Em1 in Nd1, Nd2.
  apply compact_ok_inv in Ra, Rab, Rb, Rba.
  destruct Ra as (src1 & G1 & _ & _ & ->). destruct Rb as (src2 & G2 & _ & _ & ->).
  destruct Rab as (src2' & G2' & _ & _ & ->). destruct Rba as (src1' & G1' & _ & _ & ->).
  rewrite Em1, Em2, Et in *.
  assert (E2 : src2' = src2).
  { unfold compacted in G2'. cbn [files] in G2'.
    rewrite (od_get_del_other _ String.eqb_eq) in G2' by congruence.
    rewrite (od_get_set_other _ String.eqb_eq) in G2' by congruence.
    congruence. }
  assert (E1 : src1' = src1).
  { unfold compacted in G1'. cbn [files] in G1'.
    rewrite (od_get_del_other _ String.eqb_eq) in G1' by congruence.
    rewrite (od_get_set_other _ String.eqb_eq) in G1' by congruence.
    congruence. }
  subst src1' src2'.
  rewrite !compacted_archive by congruence.
  now apply merge_rows_commute.
Qed.

End Conservation.

(** The integers have these laws. *)
Lemma Z_add_assoc_r (x y z : Z) : (x + y + z = x + (y + z))%Z.
Proof. lia. Qed.

(* ================================================================== *)
(** ** Directories whose values add without rounding *)

Section MapValues.
Context {K A A' : Type} (keq : K -> K -> bool) (g : A -> A').

Lemma od_get_map_values (d : list (K * A)) k :
  od_get keq (map (fun p => (fst p, g (snd p))) d) k = option_map g (od_get keq d k).
Proof.
  induction d as [|[k' a] d IH]; simpl; [reflexivity|].
  now destruct (keq k' k).
Qed.

Lemma od_set_map_values (d : list (K * A)) k a :
  od_set keq (map (fun p => (fst p, g (snd p))) d) k (g a)
  = map (fun p => (fst p, g (snd p))) (od_set keq d k a).
Proof.
  induction d as [|[k' a'] d IH]; simpl; [reflexivity|].
  destruct (keq k' k); simpl; [reflexivity | now rewrite IH].
Qed.

Lemma od_del_map_values (d : list (K * A)) k :
  od_del keq (map (fun p => (fst p, g (snd p))) d) k
  = map (fun p => (fst p, g (snd p))) (od_del keq d k).
Proof.
  induction d as [|[k' a'] d IH]; simpl; [reflexivity|].
  destruct (keq k' k); simpl; [reflexivity | now rewrite IH].
Qed.

End MapValues.

(** The magnitudes a store and a directory of integers hold. *)
Section Magnitudes.

Lemma abs_get (d : Store Z) k v :
  od_get key_eqb d k = Some v -> (Z.abs v <= abs_sum (map snd d))%Z.
Proof.
  induction d as [|[k' a] d IH]; simpl; [discriminate|].
  pose proof (abs_sum_nonneg (map snd d)).
  destruct (key_eqb k' k).
  - intros [= ->]. lia.
  - intros G. specialize (IH G). lia.
Qed.

Lemma abs_set (d : Store Z) k v :
  abs_sum (map snd (od_set key_eqb d k v))
  = (abs_sum (map snd d) - Z.abs (default 0%Z (od_get key_eqb d k)) + Z.abs v)%Z.
Proof.
  induction d as [|[k' a] d IH]; simpl; [lia|].
  destruct (key_eqb k' k); simpl; [lia | rewrite IH; lia].
Qed.

Lemma abs_merge_row typ mm pid (d : Store Z) k v :
  typ <> "gauge" ->
  (abs_sum (map snd (merge_row typ mm pid d (k, v))) <= abs_sum (map snd d) + Z.abs v)%Z.
Proof.
  intros N. unfold merge_row. apply String.eqb_neq in N. rewrite N.
  unfold read_value, write_value.
  destruct (od_get key_eqb d k) as [v0|] eqn:G.
  - rewrite abs_set, G. cbn [default vadd exactZ]. lia.
  - rewrite !abs_set. rewrite (od_get_set_same _ key_eqb_eq), G.
    cbn [default vadd vzero exactZ]. lia.
Qed.

Lemma abs_merge_rows typ mm pid (src : Store Z) : forall d,
  typ <> "gauge" ->
  (abs_sum (map snd (merge_rows typ mm pid src d))
   <= abs_sum (map snd d) + abs_sum (map snd src))%Z.
Proof.
  unfold merge_rows, read_all_values.
  induction src as [|[k v] src IH]; intros d N; cbn [fold_left map snd];
    rewrite ?abs_sum_cons; change (abs_sum []) with 0%Z.
  - lia.
  - specialize (IH (merge_row typ mm pid d (k, v)) N).
    pose proof (@abs_merge_row typ mm pid d k v N). lia.
Qed.

Lemma stored_get (fs : list (string * Store Z)) f :
  abs_sum (stored fs)
  = (abs_sum (map snd (default [] (od_get String.eqb fs f)))
     + abs_sum (stored (od_del String.eqb fs f)))%Z.
Proof.
  unfold stored. induction fs as [|[f' d'] fs IH]; simpl; [reflexivity|].
  destruct (String.eqb f' f); simpl.
  - now rewrite abs_sum_app.
  - rewrite !abs_sum_app, IH. lia.
Qed.

Lemma stored_set (fs : list (string * Store Z)) f d :
  abs_sum (stored (od_set String.eqb fs f d))
  = (abs_sum (stored (od_del String.eqb fs f)) + abs_sum (map snd d))%Z.
Proof.
  unfold stored. induction fs as [|[f' d'] fs IH]; simpl.
  - rewrite app_nil_r. lia.
  - destruct (String.eqb f' f); simpl; rewrite !abs_sum_app; [lia | rewrite IH; lia].
Qed.

Lemma stored_filter (P : Key -> bool) (fs : list (string * Store Z)) :
  (abs_sum (flat_map (fun f => map snd (filter (fun row => P (fst row)) (snd f))) fs)
   <= abs_sum (stored fs))%Z.
Proof.
  unfold stored. induction fs as [|[f d] fs IH]; simpl; [lia|].
  rewrite !abs_sum_app.
  assert (abs_sum (map snd (filter (fun row => P (fst row)) d)) <= abs_sum (map snd d))%Z.
  { clear. induction d as [|[k v] d IH]; simpl; [lia|].
    destruct (P k); simpl; lia. }
  lia.
Qed.

(** What a compaction of a plain store leaves of the magnitudes. *)
Lemma stored_compacted (wz : World Z) srcf typ mm pid src :
  typ <> "gauge" ->
  archive_name typ mm <> srcf ->
  od_get String.eqb (files wz) srcf = Some src ->
  (abs_sum (map snd (archive_of wz typ mm)) + abs_sum (map snd src)
   <= abs_sum (stored (files wz)))%Z /\
  (abs_sum (stored (files (compacted wz srcf typ mm pid src)))
   <= abs_sum (stored (files wz)))%Z.
Proof.
  intros Nt Nd G. unfold compacted. cbn [files].
  rewrite (od_del_set_comm _ String.eqb_eq) by congruence.
  rewrite stored_set.
  pose proof (@abs_merge_rows typ mm pid src (archive_of wz typ mm) Nt) as M.
  rewrite (stored_get (files wz) srcf), G. cbn [default].
  rewrite (stored_get (od_del String.eqb (files wz) srcf) (archive_name typ mm)).
  rewrite (od_get_del_other _ String.eqb_eq) by congruence.
  fold (archive_of wz typ mm).
  pose proof (abs_sum_nonneg
                (stored (od_del String.eqb (od_del String.eqb (files wz) srcf)
                           (archive_name typ mm)))).
  lia.
Qed.

End Magnitudes.

Section Embedding.
Context {V : Type} `{Arith V}.
Variables (inj : Z -> V) (B : Z).
Hypothesis E : exact_upto inj B.

Lemma merge_row_embed typ mm pid (d : Store Z) k v :
  typ <> "gauge" ->
  (abs_sum (map snd d) + Z.abs v <= B)%Z ->
  merge_row typ mm pid (embed_store inj d) (k, inj v)
  = embed_store inj (merge_row typ mm pid d (k, v)).
Proof.
  intros N Hb. unfold merge_row. apply String.eqb_neq in N. rewrite N.
  unfold read_value, write_value, embed_store.
  rewrite od_get_map_values. destruct E as [E0 Ea].
  pose proof (abs_sum_nonneg (map snd d)).
  destruct (od_get key_eqb d k) as [v0|] eqn:G; cbn [option_map].
  - pose proof (abs_get _ _ G). rewrite Ea by lia. apply od_set_map_values.
  - rewrite <- E0. rewrite od_set_map_values. rewrite Ea by (simpl; lia).
    apply od_set_map_values.
Qed.

Lemma merge_rows_embed typ mm pid (src : Store Z) : forall d,
  typ <> "gauge" ->
  (abs_sum (map snd d) + abs_sum (map snd src) <= B)%Z ->
  merge_rows typ mm pid (embed_store inj src) (embed_store inj d)
  = embed_store inj (merge_rows typ mm pid src d).
Proof.
  unfold merge_rows, read_all_values.
  induction src as [|[k v] src IH]; intros d N Hb; [reflexivity|].
  cbn [embed_store map fst snd fold_left] in *. rewrite abs_sum_cons in Hb.
  pose proof (abs_sum_nonneg (map snd src)).
  rewrite merge_row_embed by (try exact N; lia).
  apply IH; [exact N|].
  pose proof (@abs_merge_row typ mm pid d k v N). lia.
Qed.

Lemma archive_of_embed (wz : World Z) typ mm :
  archive_of (embed_world inj wz) typ mm = embed_store inj (archive_of wz typ mm).
Proof.
  unfold archive_of, embed_world, embed_files. cbn [files].
  rewrite od_get_map_values. now destruct (od_get String.eqb (files wz) _).
Qed.

Lemma compacted_embed (wz : World Z) srcf typ mm pid src :
  typ <> "gauge" ->
  archive_name typ mm <> srcf ->
  od_get String.eqb (files wz) srcf = Some src ->
  (abs_sum (stored (files wz)) <= B)%Z ->
  compacted (embed_world inj wz) srcf typ mm pid (embed_store inj src)
  = embed_world inj (compacted wz srcf typ mm pid src).
Proof.
  intros Nt Nd G Hb.
  destruct (@stored_compacted wz srcf typ mm pid src Nt Nd G) as [Hm _].
  unfold compacted at 1. rewrite archive_of_embed.
  rewrite merge_rows_embed by (try exact Nt; lia).
  unfold embed_world at 1 2. cbn [files flock_env trace].
  unfold embed_files. rewrite od_set_map_values, od_del_map_values. reflexivity.
Qed.

(** A compaction of a plain store in a directory of values that add
    without rounding is the compaction of the integers. *)
Lemma compact_embed (wz : World Z) srcf :
  src_typ srcf <> "gauge" ->
  dest_of srcf <> srcf ->
  (abs_sum (stored (files wz)) <= B)%Z ->
  compact srcf (embed_world inj wz)
  = (fst (compact srcf wz), embed_world inj (snd (compact srcf wz))).
Proof.
  intros Nt Nd Hb. rewrite !compact_cases.
  unfold embed_world at 1 2 3. cbn [files flock_env trace].
  destruct (flock_env wz "compacting" LOCK_EX); [|reflexivity].
  cbv zeta. destruct (has_segments srcf); [|reflexivity].
  unfold embed_files at 1. rewrite od_get_map_values.
  destruct (od_get String.eqb (files wz) srcf) as [src|] eqn:G; cbn [option_map fst snd];
    [|reflexivity].
  f_equal. now apply compacted_embed.
Qed.

Lemma total_over_embed (P : Key -> bool) (fz : list (string * Store Z)) :
  (abs_sum (stored fz) <= B)%Z ->
  total_over P (embed_files inj fz) = inj (total_over P fz).
Proof.
  intros Hb. unfold total_over.
  assert (Em : flat_map (fun f => map snd (filter (fun row => P (fst row)) (snd f)))
                 (embed_files inj fz)
               = map inj (flat_map (fun f => map snd (filter (fun row => P (fst row)) (snd f)))
                            fz)).
  { clear. induction fz as [|[f d] fz IH]; simpl; [reflexivity|].
    rewrite map_app, IH. f_equal. clear.
    induction d as [|[k v] d IH]; simpl; [reflexivity|].
    destruct (P k); simpl; now rewrite IH. }
  rewrite Em. apply (py_sum_exact E).
  pose proof (stored_filter P fz). lia.
Qed.

(** The totals of such a directory are conserved by the compaction of a
    plain store. *)
Lemma compact_total_exact (P : Key -> bool) (wz : World Z) (w' : World V) srcf :
  (abs_sum (stored (files wz)) <= B)%Z ->
  src_typ srcf <> "gauge" ->
  dest_of srcf <> srcf ->
  compact srcf (embed_world inj wz) = (Ok tt, w') ->
  total_over P (files w') = total_over P (files (embed_world inj wz)).
Proof.
  intros Hb Nt Nd R. rewrite compact_embed in R by assumption.
  injection R as R <-.
  assert (Rz : compact srcf wz = (Ok tt, snd (compact srcf wz)))
    by (rewrite <- R; apply surjective_pairing).
  apply compact_ok_inv in Rz. destruct Rz as (src & G & _ & _ & Ew).
  rewrite Ew. unfold embed_world at 1 2. cbn [files].
  destruct (@stored_compacted wz srcf (src_typ srcf) (src_mode srcf) (src_pid srcf) src
              Nt Nd G) as [_ Hc].
  rewrite !total_over_embed by lia. f_equal.
  apply (@compacted_total Z exactZ Z_add_assoc_r
           Z.add_comm Z.add_0_l P wz srcf); assumption.
Qed.

End Embedding.

(* ================================================================== *)
(** ** Compaction of plain stores whose values add without rounding *)

Section Unchanged.
Context {V : Type} `{Arith V} `{FloatText V}.

(** What [collect] reports for a key of a plain metric after a compaction
    that has conserved the sum of the key's values. *)
Lemma compact_invisible_if (w w' : World V) srcf mn nm ls ms' :
  (forall f row, In f (files w) -> In row (snd f) -> metric_name (fst row) = mn ->
                 file_type f <> "gauge" /\ file_type f <> "histogram") ->
  src_typ srcf <> "gauge" ->
  dest_of srcf <> srcf ->
  contributions mn nm ls (files w) <> [] ->
  compact srcf w = (Ok tt, w') ->
  py_sum (contributions mn nm ls (files w')) = py_sum (contributions mn nm ls (files w)) ->
  collect_files (files w') = Ok ms' ->
  exists m', In m' ms' /\ name m' = mn /\
             In (nm, dict_of String.eqb ls, py_sum (contributions mn nm ls (files w)))
                (samples m').
Proof.
  intros Ht Nt Nd Hne R Et C'.
  pose proof R as R0. apply compact_ok_inv in R0. destruct R0 as (src & G & _ & _ & Ew).
  assert (Em : src_mode srcf = None).
  { unfold src_mode. apply String.eqb_neq in Nt. now rewrite Nt. }
  rewrite <- Et.
  assert (Fs : files w' = od_set String.eqb (od_del String.eqb (files w) srcf) (dest_of srcf)
                            (merge_rows (src_typ srcf) None (src_pid srcf) src
                               (archive_of w (src_typ srcf) None))).
  { rewrite Ew. unfold compacted. cbn [files]. rewrite Em.
    unfold dest_of. rewrite Em.
    apply (od_del_set_comm _ String.eqb_eq). unfold dest_of in Nd. rewrite Em in Nd.
    congruence. }
  assert (Isrc : In (srcf, src) (files w)) by now apply (od_get_In _ String.eqb_eq).
  apply collect_files_plain; [| |exact C'].
  - (* the stores of the compacted directory are of plain type *)
    intros f row If Ir Emn. rewrite Fs in If.
    apply (od_set_In _ String.eqb_eq) in If. destruct If as [->|If].
    + cbn [snd] in Ir.
      assert (Ik : In (fst row) (map fst (merge_rows (src_typ srcf) None (src_pid srcf) src
                                            (archive_of w (src_typ srcf) None))))
        by now apply in_map.
      apply merge_rows_plain_keys in Ik; [|exact Nt].
      destruct Ik as [Ik|Ik].
      * unfold archive_of in Ik.
        destruct (od_get String.eqb (files w) (archive_name (src_typ srcf) None))
          as [dst|] eqn:Gd; cbn [default] in Ik; [|destruct Ik].
        apply (od_get_In _ String.eqb_eq) in Gd.
        apply in_map_iff in Ik as (row0 & E0 & I0).
        assert (T := Ht _ row0 Gd I0). rewrite E0 in T. specialize (T Emn).
        unfold file_type in *. cbn [fst] in *.
        unfold dest_of. rewrite Em. exact T.
      * apply in_map_iff in Ik as (row0 & E0 & I0).
        assert (T := Ht _ row0 Isrc I0). rewrite E0 in T. specialize (T Emn).
        unfold file_type in *. cbn [fst] in *.
        rewrite dest_of_plain_type by exact Nt. exact T.
    + apply od_del_In in If. now apply (Ht f row).
  - (* the key still occurs *)
    apply contributions_nonempty. apply contributions_nonempty in Hne.
    destruct Hne as (f & row & If & Ir & Pr).
    set (merged := merge_rows (src_typ srcf) None (src_pid srcf) src
                     (archive_of w (src_typ srcf) None)) in *.
    assert (Hm : In (fst row) (map fst merged) ->
                 exists f' row', In f' (files w') /\ In row' (snd f') /\
                                 reads_as mn nm ls (fst row') = true).
    { intros Ik. apply in_map_iff in Ik as (row' & E' & I').
      exists (dest_of srcf, merged), row'. split; [|split].
      - rewrite Fs. apply (od_get_In _ String.eqb_eq).
        apply (od_get_set_same _ String.eqb_eq).
      - exact I'.
      - now rewrite E'. }
    destruct (od_del_In_or String.eqb String.eqb_eq (files w) srcf f If)
      as [(a & -> & Ga)|If0].
    + (* a row of the source *)
      apply Hm. rewrite G in Ga. injection Ga as <-. cbn [snd] in Ir.
      apply merge_rows_plain_src; [exact Nt | now apply in_map].
    + destruct (od_set_In_or String.eqb String.eqb_eq _ (dest_of srcf) merged f If0)
        as [(a & -> & Ga)|If1].
      * (* a row of the archive *)
        apply Hm. cbn [snd] in Ir. unfold merged. apply merge_rows_keeps.
        unfold archive_of. fold (dest_of srcf) in *.
        rewrite (od_get_del_other _ String.eqb_eq) in Ga by congruence.
        unfold dest_of in Ga. rewrite Em in Ga. rewrite Ga. cbn [default].
        now apply in_map.
      * exists f, row. rewrite Fs. auto.
Qed.

End Unchanged.

Section ExactCompaction.
Context {V : Type} `{Arith V} `{FloatText V}.
Variables (inj : Z -> V) (B : Z).

(** X6.  Where the values add without rounding (the directory holds
    integers, as sample values, whose magnitudes add up to no more than a
    bound below which [+] is exact), compacting a store of any type but
    gauge conserves what the directory holds: for every set of keys, the
    sum of the values stored under them over all the files is after the
    compaction what it was before.  The values have moved from the source
    into the archive. *)
Theorem compact_conserves_totals (P : Key -> bool) (wz : World Z) (w' : World V) srcf :
  exact_upto inj B ->
  (abs_sum (stored (files wz)) <= B)%Z ->
  src_typ srcf <> "gauge" ->
  dest_of srcf <> srcf ->
  compact srcf (embed_world inj wz) = (Ok tt, w') ->
  total_over P (files w') = total_over P (files (embed_world inj wz)).
Proof. intros E Hb Nt Nd R. eapply compact_total_exact; eassumption. Qed.

(** X7.  Compaction is invisible to the collector for plain metrics, where
    the values add without rounding: for a metric that only stores of
    plain type mention (counter, summary) and a key that occurs in them,
    [collect] reports after the compaction of one of the stores the value
    it reported before. *)
Theorem compact_invisible_to_collect (wz : World Z) (w' : World V) srcf mn nm ls ms ms' :
  exact_upto inj B ->
  (abs_sum (stored (files wz)) <= B)%Z ->
  (forall f row, In f (files (embed_world inj wz)) -> In row (snd f) ->
                 metric_name (fst row) = mn ->
                 file_type f <> "gauge" /\ file_type f <> "histogram") ->
  src_typ srcf <> "gauge" ->
  dest_of srcf <> srcf ->
  contributions mn nm ls (files (embed_world inj wz)) <> [] ->
  collect_files (files (embed_world inj wz)) = Ok ms ->
  compact srcf (embed_world inj wz) = (Ok tt, w') ->
  collect_files (files w') = Ok ms' ->
  exists v,
    (exists m, In m ms /\ name m = mn /\ In (nm, dict_of String.eqb ls, v) (samples m)) /\
    (exists m', In m' ms' /\ name m' = mn /\ In (nm, dict_of String.eqb ls, v) (samples m')).
Proof.
  intros E Hb Ht Nt Nd Hne C R C'.
  exists (py_sum (contributions mn nm ls (files (embed_world inj wz)))).
  split; [now apply collect_files_plain|].
  apply (compact_invisible_if _ _ _ Ht Nt Nd Hne R); [|exact C'].
  rewrite !contributions_total. eapply compact_total_exact; eassumption.
Qed.

(** X8.  The order of two compactions does not matter for what the
    archive holds, where the values add without rounding: two distinct
    stores of one plain type compacted in either order leave the same
    value under every key of their archive. *)
Theorem compact_order_irrelevant (wz : World Z) (wa wab wb wba : World V) s1 s2 :
  exact_upto inj B ->
  (abs_sum (stored (files wz)) <= B)%Z ->
  s1 <> s2 ->
  src_typ s1 <> "gauge" ->
  src_typ s2 = src_typ s1 ->
  dest_of s1 <> s1 -> dest_of s1 <> s2 ->
  NoDup (map fst (archive_of (embed_world inj wz) (src_typ s1) None)) ->
  compact s1 (embed_world inj wz) = (Ok tt, wa) -> compact s2 wa = (Ok tt, wab) ->
  compact s2 (embed_world inj wz) = (Ok tt, wb) -> compact s1 wb = (Ok tt, wba) ->
  forall key,
    od_get key_eqb (archive_of wab (src_typ s1) None) key
    = od_get key_eqb (archive_of wba (src_typ s1) None) key.
Proof.
  intros E Hb Ns Nt Et Nd1 Nd2 ND Ra Rab Rb Rba key.
  assert (Nt2 : src_typ s2 <> "gauge") by congruence.
  assert (Ed : dest_of s2 = dest_of s1).
  { unfold dest_of, src_mode. rewrite Et.
    now rewrite (proj2 (String.eqb_neq _ _) Nt). }
  assert (Nd3 : dest_of s2 <> s2) by congruence.
  assert (Run : forall (wz0 : World Z) (w1 : World V) s,
             (abs_sum (stored (files wz0)) <= B)%Z ->
             src_typ s <> "gauge" -> dest_of s <> s ->
             compact s (embed_world inj wz0) = (Ok tt, w1) ->
             exists wz1, compact s wz0 = (Ok tt, wz1) /\ w1 = embed_world inj wz1 /\
                         (abs_sum (stored (files wz1)) <= B)%Z).
  { intros wz0 w1 s Hb0 Nt0 Nd0 R. rewrite (compact_embed E) in R by assumption.
    injection R as R <-. exists (snd (compact s wz0)).
    assert (Rz : compact s wz0 = (Ok tt, snd (compact s wz0)))
      by (rewrite <- R; apply surjective_pairing).
    split; [exact Rz|]. split; [reflexivity|].
    pose proof Rz as Rz0. apply compact_ok_inv in Rz0.
    destruct Rz0 as (src & G & _ & _ & Ew). rewrite Ew.
    destruct (@stored_compacted wz0 s (src_typ s) (src_mode s) (src_pid s) src Nt0 Nd0 G)
      as [_ Hc].
    lia. }
  destruct (Run wz wa s1 Hb Nt Nd1 Ra) as (wza & Za & -> & Hba).
  destruct (Run wza wab s2 Hba Nt2 Nd3 Rab) as (wzab & Zab & -> & _).
  destruct (Run wz wb s2 Hb Nt2 Nd3 Rb) as (wzb & Zb & -> & Hbb).
  destruct (Run wzb wba s1 Hbb Nt Nd1 Rba) as (wzba & Zba & -> & _).
  rewrite !archive_of_embed. unfold embed_store. rewrite !od_get_map_values. f_equal.
  apply (@compact_order_assoc Z exactZ
           Z_add_assoc_r Z.add_comm Z.add_0_l
           wz wza wzab wzb wzba s1 s2); try assumption.
  rewrite archive_of_embed in ND. unfold embed_store in ND.
  rewrite map_map in ND. exact ND.
Qed.

End ExactCompaction.

(** *** On a concrete directory (binary64 values) *)

Lemma compact_conserves_totals_witness :
  total_over (fun _ => true)
    (files (snd (compact "counter_123_0.db" (embed_world float_of_Z wz_counter))))
  = total_over (fun _ => true) (files (embed_world float_of_Z wz_counter)).
Proof.
  apply (@compact_conserves_totals float binary64 float_of_Z 64%Z
           (fun _ => true) wz_counter
           (snd (compact "counter_123_0.db" (embed_world float_of_Z wz_counter)))
           "counter_123_0.db" binary64_exact_small).
  - vm_compute. discriminate.
  - discriminate.
  - discriminate.
  - reflexivity.
Defined.

Lemma compact_invisible_to_collect_witness :
  exists v,
    (exists m,
       In m [mkMetric "temp" "Multiprocess metric" "counter" None
               [("temp", [("room", "attic")], 9%float)];
             mkMetric "load" "Multiprocess metric" "counter" None
               [("load", [], 4%float)]] /\
       name m = "temp" /\
       In ("temp", dict_of String.eqb [("room", "attic")], v) (samples m)) /\
    (exists m',
       In m' [mkMetric "temp" "Multiprocess metric" "counter" None
                [("temp", [("room", "attic")], 9%float)];
              mkMetric "load" "Multiprocess metric" "counter" None
                [("load", [], 4%float)]] /\
       name m' = "temp" /\
       In ("temp", dict_of String.eqb [("room", "attic")], v) (samples m')).
Proof.
  apply (@compact_invisible_to_collect float binary64 table_text float_of_Z 64%Z
           wz_counter
           (snd (compact "counter_123_0.db" (embed_world float_of_Z wz_counter)))
           "counter_123_0.db" "temp" "temp" [("room", "attic")]).
  - exact binary64_exact_small.
  - vm_compute. discriminate.
  - intros f row [<-|[<-|[<-|[]]]] _ _; split; discriminate.
  - discriminate.
  - discriminate.
  - discriminate.
  - vm_compute. reflexivity.
  - reflexivity.
  - vm_compute. reflexivity.
Defined.

Lemma compact_order_irrelevant_witness :
  od_get key_eqb
    (archive_of
       (snd (compact "counter_124_0.db"
               (snd (compact "counter_123_0.db" (embed_world float_of_Z wz_counter)))))
       "counter" None) k_temp
  = od_get key_eqb
      (archive_of
         (snd (compact "counter_123_0.db"
                 (snd (compact "counter_124_0.db" (embed_world float_of_Z wz_counter)))))
         "counter" None) k_temp.
Proof.
  apply (@compact_order_irrelevant float binary64 float_of_Z 64%Z
           wz_counter
           (snd (compact "counter_123_0.db" (embed_world float_of_Z wz_counter)))
           (snd (compact "counter_124_0.db"
                   (snd (compact "counter_123_0.db" (embed_world float_of_Z wz_counter)))))
           (snd (compact "counter_124_0.db" (embed_world float_of_Z wz_counter)))
           (snd (compact "counter_123_0.db"
                   (snd (compact "counter_124_0.db" (embed_world float_of_Z wz_counter)))))
           "counter_123_0.db" "counter_124_0.db").
  - exact binary64_exact_small.
  - vm_compute. discriminate.
  - discriminate.
  - discriminate.
  - reflexivity.
  - discriminate.
  - discriminate.
  - repeat constructor; simpl; tauto.
  - reflexivity.
  - reflexivity.
  - reflexivity.
  - reflexivity.
Defined.

(* ================================================================== *)
(** ** The scan of the stores *)

Section Scan.
Context {V : Type} `{Arith V} `{FloatText V}.

(** X9.  [collect] changes no store.  It returns what the pure scan and
    reconciliation make of the stores when the shared lock is granted and
    raises the [IOError] of [flock] when it is refused; either way no lock
    on the coordination file is left. *)
Theorem collect_reads_only (w : World V) :
  files (snd (collect w)) = files w /\
  ~ In "compacting" (held (trace (snd (collect w)))) /\
  fst (collect w) = match flock_env w "compacting" LOCK_SH with
                    | Acquired => collect_files (files w)
                    | Failed errno => Raise (IOError errno)
                    end.
Proof.
  unfold collect, collect_files.
  cbv [flocking finally flock bind emit lift get_files]. cbn [files flock_env trace].
  destruct (flock_env w "compacting" LOCK_SH) as [|errno]; cbn [files flock_env trace].
  - destruct (scan_files (files w)) as [ms|e]; cbn [fst snd files trace held rbind];
      (split; [reflexivity|]); (split; [apply remove_In | reflexivity]).
  - cbn [fst snd files trace held]. split; [reflexivity|].
    split; [apply remove_In | reflexivity].
Qed.

Lemma index_nth (l : list string) i :
  i < List.length l -> index l i = Ok (nth i l EmptyString).
Proof.
  intros L. unfold index.
  destruct (nth_error l i) as [a|] eqn:E.
  - now rewrite (nth_error_nth _ _ _ E).
  - apply nth_error_None in E. lia.
Qed.

Lemma index_out {A} (l : list A) i :
  List.length l <= i -> index l i = Raise IndexError.
Proof.
  intros L. unfold index. apply nth_error_None in L. now rewrite L.
Qed.

(** One iteration of the loop over the rows of the store named [fname]. *)
Lemma scan_row_cases fname (ms : list (string * Metric V)) row :
  scan_row (split "_" fname) (hd EmptyString (split "_" fname)) ms row
  = if negb (String.eqb (hd EmptyString (split "_" fname)) "gauge")
       || Nat.leb 3 (List.length (split "_" fname))
    then Ok (scan_step ms (fname, row))
    else Raise IndexError.
Proof.
  destruct row as [key value].
  unfold scan_row, scan_step, upd_metric, raw_sample, live_gauge, key_labels.
  cbn [fst snd].
  destruct (String.eqb (hd EmptyString (split "_" fname)) "gauge") eqn:T;
    cbn [negb orb andb].
  - destruct (Nat.leb 3 (List.length (split "_" fname))) eqn:L.
    + apply Nat.leb_le in L.
      rewrite (@index_nth (split "_" fname) 2) by lia.
      rewrite (@index_nth (split "_" fname) 1) by lia.
      cbn [rbind].
      destruct (String.eqb (nth 2 (split "_" fname) EmptyString) "archived.db");
        cbn [negb rbind]; reflexivity.
    + apply Nat.leb_gt in L. rewrite (@index_out _ (split "_" fname) 2) by lia.
      reflexivity.
  - cbn [rbind]. reflexivity.
Qed.

Lemma scan_rows_cases fname (rows : list (Key * V)) :
  forall ms : list (string * Metric V),
    foldM (scan_row (split "_" fname) (hd EmptyString (split "_" fname))) rows ms
    = if scannable (fname, rows)
      then Ok (fold_left scan_step (map (fun row => (fname, row)) rows) ms)
      else Raise IndexError.
Proof.
  unfold scannable. cbn [fst snd].
  destruct rows as [|row rows]; intros ms.
  - simpl. now rewrite orb_true_r.
  - set (ok := negb (String.eqb (hd EmptyString (split "_" fname)) "gauge")
               || Nat.leb 3 (List.length (split "_" fname))).
    assert (E : forall (rs : list (Key * V)) (ms0 : list (string * Metric V)),
               foldM (scan_row (split "_" fname) (hd EmptyString (split "_" fname)))
                 rs ms0
               = if ok
                 then Ok (fold_left scan_step (map (fun row => (fname, row)) rs) ms0)
                 else match rs with [] => Ok ms0 | _ :: _ => Raise IndexError end).
    { induction rs as [|r rs IH]; intros ms0; simpl.
      - now destruct ok.
      - rewrite scan_row_cases. fold ok. destruct ok eqn:O; simpl; [|reflexivity].
        rewrite IH. reflexivity. }
    rewrite E. reflexivity.
Qed.

Lemma scan_file_cases (ms : list (string * Metric V)) (f : string * Store V) :
  scan_file ms f
  = if scannable f
    then Ok (fold_left scan_step (map (fun row => (fst f, row)) (snd f)) ms)
    else Raise IndexError.
Proof.
  unfold scan_file. rewrite index_0_split. cbn [rbind]. unfold read_all_values.
  rewrite scan_rows_cases. now destruct f.
Qed.

Lemma scan_files_from (fs : list (string * Store V)) :
  forall ms : list (string * Metric V),
    foldM scan_file fs ms
    = if forallb scannable fs
      then Ok (fold_left scan_step (tagged fs) ms)
      else Raise IndexError.
Proof.
  induction fs as [|f fs IH]; intros ms; simpl; [reflexivity|].
  rewrite scan_file_cases. destruct (scannable f); simpl; [|reflexivity].
  rewrite IH. unfold tagged. simpl. now rewrite fold_left_app.
Qed.

(** X10.  The code of the scan (lines 31-51) raises in one case only: a
    gauge store that has rows and a name of fewer than three segments
    raises [IndexError] (from [parts[2]]).  Stores of the other types, and
    gauge stores without rows, never make it fail.  (The stores are taken
    to be readable and their keys well formed: what the store collaborator
    may raise is not part of this.) *)
Theorem scan_files_outcome (fs : list (string * Store V)) :
  if forallb scannable fs
  then exists ms, scan_files fs = Ok ms
  else scan_files fs = Raise IndexError.
Proof.
  unfold scan_files. rewrite scan_files_from.
  destruct (forallb scannable fs); [eexists|]; reflexivity.
Qed.

(** *** What the scan knows of one metric *)

Lemma scan_step_at (ms : list (string * Metric V)) r :
  od_get String.eqb (scan_step ms r) (metric_name (fst (snd r)))
  = Some (upd_metric (od_get String.eqb ms (metric_name (fst (snd r)))) r).
Proof. unfold scan_step. apply (od_get_set_same _ String.eqb_eq). Qed.

Lemma scan_step_other (ms : list (string * Metric V)) r mn :
  mn <> metric_name (fst (snd r)) ->
  od_get String.eqb (scan_step ms r) mn = od_get String.eqb ms mn.
Proof.
  intros N. unfold scan_step. apply (od_get_set_other _ String.eqb_eq). congruence.
Qed.

Lemma scan_step_NoDup (ms : list (string * Metric V)) r :
  NoDup (map fst ms) -> NoDup (map fst (scan_step ms r)).
Proof. intros ND. unfold scan_step. now apply (od_set_NoDup _ String.eqb_eq). Qed.

Lemma scan_get (fs : list (string * Store V)) mn :
  od_get String.eqb (fold_left scan_step (tagged fs) []) mn
  = fold_left (fun o r => Some (upd_metric o r)) (filter (of_metric mn) (tagged fs)) None.
Proof.
  apply (fold_group_get String.eqb String.eqb_eq
           (fun r : string * (Key * V) => metric_name (fst (snd r)))
           scan_step upd_metric scan_step_at).
  intros d r k N. now apply scan_step_other.
Qed.

(** The metric after the rows [rs] of metric [mn], from the entry [o]. *)
Lemma upd_fold_samples mn (rs : list (string * (Key * V))) :
  forall m0 : Metric V,
    Forall (fun r => of_metric mn r = true) rs ->
    exists m,
      fold_left (fun o r => Some (upd_metric o r)) rs (Some m0) = Some m /\
      name m = name m0 /\
      documentation m = documentation m0 /\
      type m = type m0 /\
      samples m = samples m0 ++ map (fun r => raw_sample (fst r) (snd r)) rs /\
      _multiprocess_mode m = fold_left mode_step rs (_multiprocess_mode m0).
Proof.
  induction rs as [|r rs IH]; intros m0 F.
  - exists m0. simpl. rewrite app_nil_r. repeat split; reflexivity.
  - inversion F as [|? ? Fr F']. subst.
    destruct (IH (upd_metric (Some m0) r) F') as (m & E & En & Ed & Et & Es & Em).
    exists m. cbn [fold_left]. split; [exact E|].
    unfold mode_step at 2.
    unfold upd_metric in En, Ed, Et, Es, Em.
    destruct (live_gauge (fst r)); cbn [name documentation type samples _multiprocess_mode
                                         set_multiprocess_mode] in *;
      repeat split; try assumption;
      cbn [map]; rewrite Es, <- app_assoc; reflexivity.
Qed.

Lemma upd_fold_first mn (r : string * (Key * V)) rs :
  Forall (fun r => of_metric mn r = true) (r :: rs) ->
  exists m : Metric V,
    fold_left (fun o r => Some (upd_metric o r)) (r :: rs) None = Some m /\
    name m = mn /\
    documentation m = "Multiprocess metric" /\
    type m = hd EmptyString (split "_" (fst r)) /\
    samples m = map (fun r => raw_sample (fst r) (snd r)) (r :: rs) /\
    _multiprocess_mode m = fold_left mode_step (r :: rs) None.
Proof.
  intros F. inversion F as [|? ? Fr F']. subst.
  destruct (@upd_fold_samples mn rs (upd_metric None r) F')
    as (m & E & En & Ed & Et & Es & Em).
  exists m. cbn [fold_left]. split; [exact E|].
  unfold of_metric in Fr. apply String.eqb_eq in Fr.
  unfold mode_step at 2.
  unfold upd_metric in En, Ed, Et, Es, Em.
  destruct (live_gauge (fst r)); cbn [name documentation type samples _multiprocess_mode
                                       set_multiprocess_mode] in *;
    repeat split; try assumption; try congruence.
Qed.

Lemma filter_of_metric_Forall mn (rs : list (string * (Key * V))) :
  Forall (fun r => of_metric mn r = true) (filter (of_metric mn) rs).
Proof. apply Forall_forall. intros r I. now apply filter_In in I. Qed.

(** *** The tagged rows and the stores *)

Lemma tagged_filter_one mn (f : string * Store V) :
  filter (of_metric mn) (map (fun row => (fst f, row)) (snd f))
  = map (fun row => (fst f, row))
      (filter (fun row => String.eqb (metric_name (fst row)) mn) (snd f)).
Proof.
  induction (snd f) as [|row rows IHr]; simpl; [reflexivity|].
  unfold of_metric at 1. cbn [fst snd].
  destruct (String.eqb (metric_name (fst row)) mn); simpl; [f_equal|]; exact IHr.
Qed.

Lemma tagged_filter_samples mn (fs : list (string * Store V)) :
  map (fun r => raw_sample (fst r) (snd r)) (filter (of_metric mn) (tagged fs))
  = raw_samples mn fs.
Proof.
  unfold tagged, raw_samples. induction fs as [|f fs IH]; simpl; [reflexivity|].
  rewrite filter_app, map_app, IH. f_equal.
  rewrite tagged_filter_one, map_map. reflexivity.
Qed.

Lemma mentions_filter mn (d : Store V) :
  mentions mn d = match filter (fun row => String.eqb (metric_name (fst row)) mn) d with
                  | [] => false
                  | _ :: _ => true
                  end.
Proof.
  unfold mentions. induction d as [|row d IH]; simpl; [reflexivity|].
  destruct (String.eqb (metric_name (fst row)) mn); simpl; [reflexivity | exact IH].
Qed.

Lemma tagged_filter_first mn (fs : list (string * Store V)) :
  option_map (fun r : string * (Key * V) => hd EmptyString (split "_" (fst r)))
    (hd_error (filter (of_metric mn) (tagged fs)))
  = first_type mn fs.
Proof.
  unfold tagged, first_type. induction fs as [|f fs IH]; simpl; [reflexivity|].
  rewrite filter_app, tagged_filter_one, mentions_filter.
  destruct (filter (fun row => String.eqb (metric_name (fst row)) mn) (snd f));
    simpl; [exact IH | reflexivity].
Qed.

Lemma mode_step_one_file (fname : string) (rows : list (Key * V)) mode :
  fold_left mode_step (map (fun row => (fname, row)) rows) mode
  = match rows with
    | [] => mode
    | _ :: _ => if live_gauge fname then Some (nth 1 (split "_" fname) EmptyString) else mode
    end.
Proof.
  destruct rows as [|row rows]; [reflexivity|].
  cbn [map fold_left]. unfold mode_step at 2. cbn [fst].
  destruct (live_gauge fname) eqn:L.
  - induction rows as [|r rs IH]; simpl; [reflexivity|].
    unfold mode_step at 2. cbn [fst]. now rewrite L.
  - induction rows as [|r rs IH]; simpl; [reflexivity|].
    unfold mode_step at 2. cbn [fst]. now rewrite L.
Qed.

Lemma tagged_app (fs fs' : list (string * Store V)) :
  tagged (fs ++ fs') = tagged fs ++ tagged fs'.
Proof. unfold tagged. apply flat_map_app. Qed.

Lemma tagged_one (f : string * Store V) :
  tagged [f] = map (fun row => (fst f, row)) (snd f).
Proof. unfold tagged. simpl. apply app_nil_r. Qed.

Lemma tagged_filter_mode mn (fs : list (string * Store V)) :
  fold_left mode_step (filter (of_metric mn) (tagged fs)) None = last_mode mn fs.
Proof.
  unfold last_mode. induction fs as [|f fs IH] using rev_ind; [reflexivity|].
  rewrite tagged_app, filter_app, fold_left_app, IH.
  rewrite tagged_one, tagged_filter_one, mode_step_one_file.
  rewrite rev_app_distr. simpl. rewrite mentions_filter.
  destruct (filter (fun row => String.eqb (metric_name (fst row)) mn) (snd f)).
  - now rewrite andb_false_r.
  - rewrite andb_true_r. now destruct (live_gauge (fst f)).
Qed.

(** The entry of metric [mn] after the scan. *)
Lemma scan_entry (fs : list (string * Store V)) mn :
  match od_get String.eqb (fold_left scan_step (tagged fs) []) mn with
  | Some m =>
      name m = mn /\
      documentation m = "Multiprocess metric" /\
      Some (type m) = first_type mn fs /\
      samples m = raw_samples mn fs /\
      raw_samples mn fs <> [] /\
      _multiprocess_mode m = last_mode mn fs
  | None => raw_samples mn fs = []
  end.
Proof.
  rewrite scan_get.
  rewrite <- tagged_filter_samples, <- tagged_filter_first, <- tagged_filter_mode.
  pose proof (filter_of_metric_Forall mn (tagged fs)) as F.
  destruct (filter (of_metric mn) (tagged fs)) as [|r rs]; [reflexivity|].
  destruct (@upd_fold_first mn r rs F) as (m & -> & En & Ed & Et & Es & Em).
  repeat split; try assumption.
  - simpl. now rewrite Et.
  - simpl. discriminate.
Qed.

(** X11.  After the scan a metric has exactly the samples its rows
    contribute, in the order the files and their rows are read: each row
    gives one sample with its sample name, its labels (and the label pid
    when the file is a live gauge store) and its value; no row is dropped
    or repeated.  A metric is known if and only if some row names it. *)
Theorem scan_groups_rows (fs : list (string * Store V)) ms mn :
  scan_files fs = Ok ms ->
  match od_get String.eqb ms mn with
  | Some m => name m = mn /\ samples m = raw_samples mn fs /\ samples m <> []
  | None => raw_samples mn fs = []
  end.
Proof.
  unfold scan_files. rewrite scan_files_from.
  destruct (forallb scannable fs); [|discriminate]. intros [= <-].
  pose proof (scan_entry fs mn) as E.
  destruct (od_get String.eqb (fold_left scan_step (tagged fs) []) mn) as [m|];
    [|exact E].
  destruct E as (En & _ & _ & Es & Ene & _). rewrite Es. auto.
Qed.

(** X12.  The type of a metric is the type segment of the first store
    scanned that has a row of it; stores of another type read later add
    samples and leave the type as it is.  The documentation is the fixed
    text. *)
Theorem scan_type_of_first_store (fs : list (string * Store V)) ms mn m :
  scan_files fs = Ok ms ->
  od_get String.eqb ms mn = Some m ->
  first_type mn fs = Some (type m) /\ documentation m = "Multiprocess metric".
Proof.
  unfold scan_files. rewrite scan_files_from.
  destruct (forallb scannable fs); [|discriminate]. intros [= <-] G.
  pose proof (scan_entry fs mn) as E. rewrite G in E.
  destruct E as (_ & Ed & Et & _). auto.
Qed.

(** X13.  The gauge mode of a metric is the mode segment of the last
    live gauge store scanned that has a row of it.  Archives do not set it:
    it is absent when only archives (or stores of other types) mention the
    metric. *)
Theorem scan_mode_of_last_live_gauge (fs : list (string * Store V)) ms mn m :
  scan_files fs = Ok ms ->
  od_get String.eqb ms mn = Some m ->
  _multiprocess_mode m = last_mode mn fs.
Proof.
  unfold scan_files. rewrite scan_files_from.
  destruct (forallb scannable fs); [|discriminate]. intros [= <-] G.
  pose proof (scan_entry fs mn) as E. rewrite G in E.
  now destruct E as (_ & _ & _ & _ & _ & Em).
Qed.

End Scan.

(** *** The scan on a concrete directory *)

Lemma scan_groups_rows_witness :
  match od_get String.eqb [("temp", m_reuse)] "temp" with
  | Some m => name m = "temp" /\ samples m = raw_samples "temp" fs_pid_reuse /\ samples m <> []
  | None => raw_samples "temp" fs_pid_reuse = []
  end.
Proof.
  apply (@scan_groups_rows float fs_pid_reuse [("temp", m_reuse)] "temp").
  vm_compute. reflexivity.
Defined.

Lemma scan_type_of_first_store_witness :
  first_type "temp" fs_pid_reuse = Some (type m_reuse) /\
  documentation m_reuse = "Multiprocess metric".
Proof.
  apply (@scan_type_of_first_store float fs_pid_reuse [("temp", m_reuse)] "temp" m_reuse).
  - vm_compute. reflexivity.
  - reflexivity.
Defined.

Lemma scan_mode_of_last_live_gauge_witness :
  _multiprocess_mode m_reuse = last_mode "temp" fs_pid_reuse.
Proof.
  apply (@scan_mode_of_last_live_gauge float fs_pid_reuse [("temp", m_reuse)] "temp" m_reuse).
  - vm_compute. reflexivity.
  - reflexivity.
Defined.

(* ================================================================== *)
(** ** The reconciliation: outcome and shape *)

Section Monadic.

Lemma mapM_map_inv {A B C} (f : A -> result B) (g : B -> C) (h : A -> C) :
  (forall a b, f a = Ok b -> g b = h a) ->
  forall l l', mapM f l = Ok l' -> map g l' = map h l.
Proof.
  intros E l. induction l as [|a l IH]; intros l'; simpl.
  - now intros [= <-].
  - destruct (f a) as [b|e] eqn:Fa; simpl; [|discriminate].
    destruct (mapM f l) as [bs|e] eqn:Fl; simpl; [|discriminate].
    intros [= <-]. simpl. now rewrite (E _ _ Fa), (IH bs).
Qed.

Lemma mapM_raises {A B} (f : A -> result B) (e0 : exn) :
  (forall a e, f a = Raise e -> e = e0) ->
  forall l e, mapM f l = Raise e -> e = e0.
Proof.
  intros E l. induction l as [|a l IH]; intros e; simpl; [discriminate|].
  destruct (f a) as [b|e1] eqn:Fa; simpl.
  - destruct (mapM f l) as [bs|e2] eqn:Fl; simpl; [discriminate|].
    intros [= <-]. now apply IH.
  - intros [= <-]. now apply (E a).
Qed.

Lemma foldM_invariant {A B} (f : A -> B -> result A) (P : A -> Prop) :
  (forall a b a', f a b = Ok a' -> P a -> P a') ->
  forall l a a', foldM f l a = Ok a' -> P a -> P a'.
Proof.
  intros St l. induction l as [|b l IH]; intros a a'; simpl.
  - now intros [= <-].
  - destruct (f a b) as [a1|e] eqn:Fa; simpl; [|discriminate].
    intros F Pa. apply (IH a1 a' F). now apply (St a b).
Qed.

End Monadic.

Section Reconcile.
Context {V : Type} `{Arith V} `{FloatText V}.

Lemma reconcile_name (metric m : Metric V) :
  reconcile metric = Ok m -> name m = name metric.
Proof.
  unfold reconcile. destruct (reconciled metric); simpl; [|discriminate].
  now intros [= <-].
Qed.

Lemma raw_samples_nonempty mn (fs : list (string * Store V)) :
  raw_samples mn fs <> [] <->
  exists f row, In f fs /\ In row (snd f) /\ metric_name (fst row) = mn.
Proof.
  split.
  - intros N. destruct (raw_samples mn fs) as [|s ss] eqn:E; [contradiction|].
    assert (I : In s (raw_samples mn fs)) by (rewrite E; now left).
    unfold raw_samples in I. apply in_flat_map in I as (f & If & Is).
    apply in_map_iff in Is as (row & _ & Ir). apply filter_In in Ir as [Ir Pr].
    exists f, row. repeat split; auto. now apply String.eqb_eq.
  - intros (f & row & If & Ir & Pr) E.
    assert (I : In (raw_sample (fst f) row) (raw_samples mn fs)).
    { unfold raw_samples. apply in_flat_map. exists f. split; [exact If|].
      apply in_map. apply filter_In. split; [exact Ir|]. now apply String.eqb_eq. }
    rewrite E in I. exact I.
Qed.

(** X14.  [collect] returns one metric per metric name: the names of the
    metrics returned are pairwise distinct, and a name is among them if and
    only if some row of some store has it. *)
Theorem collect_one_metric_per_name (fs : list (string * Store V)) out :
  collect_files fs = Ok out ->
  NoDup (map (@name V) out) /\
  forall mn, In mn (map (@name V) out) <->
             exists f row, In f fs /\ In row (snd f) /\ metric_name (fst row) = mn.
Proof.
  unfold collect_files, scan_files. rewrite scan_files_from.
  destruct (forallb scannable fs); [|discriminate]. cbn [rbind].
  set (ms := fold_left scan_step (tagged fs) []).
  intros C.
  assert (ND : NoDup (map fst ms)).
  { unfold ms. apply fold_group_NoDup; [|constructor].
    intros d r. apply scan_step_NoDup. }
  assert (Nm : map (@name V) (map snd ms) = map fst ms).
  { rewrite map_map. apply map_ext_in. intros [k m] I. cbn [fst snd].
    apply (od_get_NoDup String.eqb String.eqb_eq _ _ _ ND) in I.
    pose proof (scan_entry fs k) as E. fold ms in E. rewrite I in E. tauto. }
  assert (En : map (@name V) out = map fst ms).
  { rewrite <- Nm. apply (mapM_map_inv reconcile); [|exact C].
    intros a b. apply reconcile_name. }
  rewrite En. split; [exact ND|].
  intros mn. rewrite <- raw_samples_nonempty.
  pose proof (scan_entry fs mn) as E. fold ms in E.
  destruct (od_get String.eqb ms mn) as [m|] eqn:G.
  - split; [tauto|]. intros _. now apply (od_get_Some_In_keys _ String.eqb_eq) in G.
  - apply (od_get_None _ String.eqb_eq) in G. rewrite E. tauto.
Qed.

(** *** Failures of the reconciliation *)

Lemma bucket_of_raises (ls : labels) e :
  bucket_of ls = Raise e -> e = ValueError.
Proof.
  unfold bucket_of. apply mapM_raises. intros a e0. unfold py_float.
  destruct (pyfloat (snd a)); [discriminate|]. now intros [= <-].
Qed.

Lemma reconcile_sample_cases (metric : Metric V) st r :
  match bucket_of (row_labels r) with
  | Ok _ => exists st', reconcile_sample metric st r = Ok st'
  | Raise _ =>
      if String.eqb (type metric) "histogram"
      then reconcile_sample metric st r = Raise ValueError
      else exists st', reconcile_sample metric st r = Ok st'
  end.
Proof.
  destruct r as [[nm ls] v], st as [S B]. unfold row_labels. cbn [fst snd].
  assert (G : String.eqb (type metric) "histogram" = false ->
              exists st', reconcile_sample metric (S, B) (nm, ls, v) = Ok st').
  { intros Th. unfold reconcile_sample.
    destruct (String.eqb (type metric) "gauge").
    - destruct (mode_is (_multiprocess_mode metric) "min").
      { destruct (od_setdefault skey_eqb S (nm, without "pid" ls) v) as [c S1].
        destruct (v <. c); eexists; reflexivity. }
      destruct (mode_is (_multiprocess_mode metric) "max").
      { destruct (od_setdefault skey_eqb S (nm, without "pid" ls) v) as [c S1].
        destruct (v >. c); eexists; reflexivity. }
      destruct (mode_is (_multiprocess_mode metric) "livesum"); eexists; reflexivity.
    - rewrite Th. eexists; reflexivity. }
  destruct (String.eqb (type metric) "histogram") eqn:Th.
  - apply String.eqb_eq in Th.
    destruct (bucket_of ls) as [bs|e] eqn:Bk.
    + exists (hist_raw_step S (nm, ls, v), hist_bucket_step B (nm, ls, v)).
      apply reconcile_sample_histogram; [exact Th|]. now exists bs.
    + unfold reconcile_sample. rewrite Th. cbn [String.eqb Ascii.eqb Bool.eqb].
      rewrite Bk. cbn [rbind]. now rewrite (bucket_of_raises _ Bk).
  - destruct (bucket_of ls); now apply G.
Qed.

Lemma le_parses_dec (r : sample V) : {le_parses r} + {~ le_parses r}.
Proof.
  unfold le_parses. destruct (bucket_of (row_labels r)) as [bs|e].
  - left. now exists bs.
  - right. intros [bs E]. discriminate.
Qed.

Lemma reconcile_samples_cases (metric : Metric V) (rows : list (sample V)) :
  forall st,
    (exists st', foldM (reconcile_sample metric) rows st = Ok st') /\
    (type metric = "histogram" -> Forall le_parses rows)
    \/
    foldM (reconcile_sample metric) rows st = Raise ValueError /\
    type metric = "histogram" /\ ~ Forall le_parses rows.
Proof.
  induction rows as [|r rows IH]; intros st; simpl.
  - left. split; [now exists st | constructor].
  - pose proof (reconcile_sample_cases metric st r) as C.
    destruct (bucket_of (row_labels r)) as [bs|e] eqn:Bk.
    + destruct C as [st1 ->]. cbn [rbind].
      destruct (IH st1) as [[Ok1 F]|(R & Th & NF)].
      * left. split; [exact Ok1|]. intros Th. constructor; [now exists bs | auto].
      * right. split; [exact R|]. split; [exact Th|].
        intros F. apply NF. now inversion F.
    + destruct (String.eqb (type metric) "histogram") eqn:Th.
      * right. rewrite C. split; [reflexivity|]. split; [now apply String.eqb_eq|].
        intros F. inversion F as [|? ? [bs E] ?]. subst. congruence.
      * destruct C as [st1 ->]. cbn [rbind].
        apply String.eqb_neq in Th.
        destruct (IH st1) as [[Ok1 F]|(R & Th' & NF)]; [|contradiction].
        left. split; [exact Ok1 | contradiction].
Qed.

(** X15.  The code of the reconciliation (lines 54-98) raises in one case
    only: for a histogram with a sample whose 'le' label is not the text of
    a number, [float] raises [ValueError].  Gauges, counters and summaries
    are always reconciled, and so is a histogram whose thresholds all
    parse.  (A gauge mode that no live store has set reads as absent, and
    [core._floatToGoString] is taken to return for every float.) *)
Theorem reconcile_outcome (metric : Metric V) :
  (exists m, reconcile metric = Ok m) /\
  (type metric = "histogram" -> Forall le_parses (samples metric))
  \/
  reconcile metric = Raise ValueError /\
  type metric = "histogram" /\ ~ Forall le_parses (samples metric).
Proof.
  unfold reconcile, reconciled, reconcile_samples.
  destruct (reconcile_samples_cases metric (samples metric) ([], []))
    as [[[[S B] ->] F]|(-> & Th & NF)].
  - left. split; [|exact F]. cbn [rbind].
    destruct (String.eqb (type metric) "histogram"); cbn [rbind]; eexists; reflexivity.
  - right. auto.
Qed.

(** *** One sample per key *)

Lemma values_keys_NoDup_step (metric : Metric V) st r st' :
  reconcile_sample metric st r = Ok st' ->
  NoDup (map fst (fst st)) -> NoDup (map fst (fst st')).
Proof.
  destruct r as [[nm ls] v], st as [S B]. cbn [fst]. unfold reconcile_sample.
  destruct (String.eqb (type metric) "gauge").
  - destruct (mode_is (_multiprocess_mode metric) "min").
    { pose proof (od_setdefault_NoDup skey_eqb skey_eqb_eq S (nm, without "pid" ls) v) as O.
      destruct (od_setdefault skey_eqb S (nm, without "pid" ls) v) as [c S1].
      cbn [snd] in O.
      destruct (v <. c); intros [= <-] ND; cbn [fst]; auto.
      apply (od_set_NoDup _ skey_eqb_eq). auto. }
    destruct (mode_is (_multiprocess_mode metric) "max").
    { pose proof (od_setdefault_NoDup skey_eqb skey_eqb_eq S (nm, without "pid" ls) v) as O.
      destruct (od_setdefault skey_eqb S (nm, without "pid" ls) v) as [c S1].
      cbn [snd] in O.
      destruct (v >. c); intros [= <-] ND; cbn [fst]; auto.
      apply (od_set_NoDup _ skey_eqb_eq). auto. }
    destruct (mode_is (_multiprocess_mode metric) "livesum"); intros [= <-] ND; cbn [fst].
    + now apply dd_add_NoDup.
    + now apply (od_set_NoDup _ skey_eqb_eq).
  - destruct (String.eqb (type metric) "histogram").
    + destruct (bucket_of ls) as [[|b bs]|e]; cbn [rbind]; [| |discriminate];
        intros [= <-] ND; cbn [fst]; [now apply dd_add_NoDup | exact ND].
    + intros [= <-] ND. cbn [fst]. now apply dd_add_NoDup.
Qed.

Lemma fold_set_kv_NoDup (W : list (skey * V)) : forall S,
  NoDup (map fst S) -> NoDup (map fst (fold_left set_kv W S)).
Proof.
  induction W as [|kv W IH]; intros S ND; simpl; [exact ND|].
  apply IH. unfold set_kv. now apply (od_set_NoDup _ skey_eqb_eq).
Qed.

(** X16.  Whatever the type of the metric, the reconciled samples hold at
    most one sample per key (sample name, label tuple). *)
Theorem reconciled_one_sample_per_key (metric : Metric V) S :
  reconciled metric = Ok S -> NoDup (map fst S).
Proof.
  unfold reconciled, reconcile_samples.
  destruct (foldM (reconcile_sample metric) (samples metric) ([], [])) as [[S0 B0]|e] eqn:F;
    cbn [rbind]; [|discriminate].
  assert (ND : NoDup (map fst S0)).
  { change S0 with (fst (S0, B0)).
    apply (foldM_invariant (reconcile_sample metric)
             (fun st => NoDup (map fst (fst st)))
             (@values_keys_NoDup_step metric) _ _ F).
    constructor. }
  destruct (String.eqb (type metric) "histogram"); intros [= <-]; [|exact ND].
  rewrite accumulate_buckets_eq. now apply fold_set_kv_NoDup.
Qed.

(** *** The pid label *)

Lemma without_not_In s (ls : labels) : ~ In s (map fst (without s ls)).
Proof.
  unfold without. intros I. apply in_map_iff in I as (l & E & I).
  apply filter_In in I as [_ P]. subst s. rewrite String.eqb_refl in P. discriminate.
Qed.

Lemma od_setdefault_keys (d : list (skey * V)) k a x :
  In x (map fst (snd (od_setdefault skey_eqb d k a))) -> x = k \/ In x (map fst d).
Proof.
  unfold od_setdefault. destruct (od_get skey_eqb d k); simpl; [tauto|].
  apply od_set_keys_In.
Qed.

Lemma gauge_merge_step_keys mode (S : list (skey * V)) r x :
  mode_is mode "min" = true \/ mode_is mode "max" = true \/ mode_is mode "livesum" = true ->
  In x (map fst (gauge_step mode S r)) ->
  x = (row_name r, without "pid" (row_labels r)) \/ In x (map fst S).
Proof.
  intros M. unfold gauge_step.
  assert (Hmm : forall (c : bool) S1,
             (forall y, In y (map fst S1) ->
                        y = (row_name r, without "pid" (row_labels r)) \/ In y (map fst S)) ->
             In x (map fst (if c then od_set skey_eqb S1 (row_name r, without "pid" (row_labels r))
                                        (row_value r)
                            else S1)) ->
             x = (row_name r, without "pid" (row_labels r)) \/ In x (map fst S)).
  { intros c S1 Hs I. destruct c; [|now apply Hs].
    apply od_set_keys_In in I. destruct I as [->|I]; [now left | now apply Hs]. }
  destruct (mode_is mode "min").
  { unfold gauge_min_step.
    pose proof (fun y => @od_setdefault_keys S (row_name r, without "pid" (row_labels r))
                           (row_value r) y) as O.
    destruct (od_setdefault skey_eqb S _ (row_value r)) as [c S1]. cbn [snd] in O.
    now apply Hmm. }
  destruct (mode_is mode "max").
  { unfold gauge_max_step.
    pose proof (fun y => @od_setdefault_keys S (row_name r, without "pid" (row_labels r))
                           (row_value r) y) as O.
    destruct (od_setdefault skey_eqb S _ (row_value r)) as [c S1]. cbn [snd] in O.
    now apply Hmm. }
  destruct (mode_is mode "livesum"); [|destruct M as [M|[M|M]]; discriminate].
  unfold gauge_livesum_step, dd_add.
  destruct (od_get skey_eqb S _); apply od_set_keys_In.
Qed.

Lemma dict_of_keys_incl (ls : labels) x :
  In x (map fst (dict_of String.eqb ls)) -> In x (map fst ls).
Proof.
  induction ls as [|[k a] ls IH] using rev_ind; [simpl; tauto|].
  rewrite dict_of_snoc, map_app. intros I. apply od_set_keys_In in I.
  apply in_or_app. destruct I as [->|I]; [right; now left | left; auto].
Qed.

(** X17.  The samples of a gauge reconciled under mode min, max or
    livesum carry no pid label. *)
Theorem gauge_merged_samples_drop_pid (metric m : Metric V) :
  type metric = "gauge" ->
  _multiprocess_mode metric = Some "min" \/
  _multiprocess_mode metric = Some "max" \/
  _multiprocess_mode metric = Some "livesum" ->
  reconcile metric = Ok m ->
  forall nm ls v, In (nm, ls, v) (samples m) -> ~ In "pid" (map fst ls).
Proof.
  intros T M. unfold reconcile. rewrite reconciled_gauge by exact T. cbn [rbind].
  intros [= <-] nm ls v I. cbn [samples set_samples] in I.
  apply in_map_iff in I as ([[nm0 ls0] v0] & E & I). unfold to_sample in E.
  cbn [fst snd] in E. injection E as <- <- <-.
  intros Ip. apply dict_of_keys_incl in Ip.
  assert (Q : forall rows (S : list (skey * V)),
             (forall k, In k (map fst S) -> ~ In "pid" (map fst (snd k))) ->
             forall k, In k (map fst (fold_left (gauge_step (_multiprocess_mode metric))
                                        rows S)) ->
                       ~ In "pid" (map fst (snd k))).
  { induction rows as [|r rows IH]; intros S HS k; simpl; [apply HS|].
    apply IH. intros k' I'. apply gauge_merge_step_keys in I'.
    - destruct I' as [->|I']; [apply without_not_In | now apply HS].
    - destruct M as [M|[M|M]]; rewrite M; simpl; auto. }
  apply (Q (samples metric) [] (fun k (F : In k []) => match F with end) (nm0, ls0)).
  - change (nm0, ls0) with (fst ((nm0, ls0), v0)). now apply in_map.
  - exact Ip.
Qed.

End Reconcile.
Section HistogramRaw.
Context {V : Type} `{Arith V} `{FloatText V}.

Lemma hist_raw_fold (rows : list (sample V)) : forall S,
  fold_left hist_raw_step rows S = fold_left plain_step (filter unbucketed rows) S.
Proof.
  induction rows as [|r rows IH]; intros S; simpl; [reflexivity|].
  unfold unbucketed at 1, hist_raw_step at 2.
  destruct (threshold_of r); simpl; apply IH.
Qed.

Lemma has_le_false_unbucketed (r : sample V) :
  has_le (row_labels r) = false -> unbucketed r = true.
Proof.
  intros E. unfold unbucketed, threshold_of, bucket_of.
  replace (filter (fun l => String.eqb (fst l) "le") (row_labels r)) with (@nil (string * string));
    [reflexivity|].
  unfold has_le in E. induction (row_labels r) as [|l ls IH]; simpl in *; [reflexivity|].
  destruct (String.eqb (fst l) "le"); [discriminate | auto].
Qed.

Lemma filter_key_unbucketed (rows : list (sample V)) k :
  has_le (snd k) = false ->
  filter (fun r => skey_eqb (row_name r, row_labels r) k) (filter unbucketed rows)
  = filter (fun r => skey_eqb (row_name r, row_labels r) k) rows.
Proof.
  intros E. induction rows as [|r rows IH]; simpl; [reflexivity|].
  destruct (skey_eqb (row_name r, row_labels r) k) eqn:K.
  - apply skey_eqb_eq in K. subst k. cbn [snd] in E.
    rewrite (has_le_false_unbucketed _ E). simpl.
    rewrite (proj2 (skey_eqb_eq _ _) eq_refl). now rewrite IH.
  - destruct (unbucketed r); simpl; [rewrite K|]; exact IH.
Qed.

Lemma group_writes_keys (metric : Metric V) (B : list (labels * list (V * V))) k :
  In k (map fst (flat_map (group_writes metric) B)) ->
  has_le (snd k) = true \/
  exists g, In g (map fst B) /\ k = count_key metric g.
Proof.
  intros I. apply in_map_iff in I as ([k' v] & E & I). cbn [fst] in E. subst k'.
  apply in_flat_map in I as ([g values] & Ig & Iw).
  unfold group_writes in Iw. cbn [fst snd] in Iw. apply in_app_or in Iw.
  destruct Iw as [Iw|[Iw|[]]].
  - left. unfold bucket_writes in Iw. apply in_map_iff in Iw as (tc & E & _).
    injection E as <- _. unfold bucket_key. cbn [snd]. apply has_le_snoc.
  - right. exists g. injection Iw as <- _. split; [|reflexivity].
    change g with (fst (g, values)). now apply in_map.
Qed.

(** X18.  The samples of a histogram that carry no 'le' label (the sums)
    are summed like those of a counter: the reconciled value of such a key
    is the sum of the values of its rows, from 0.0 in the order of the
    rows.  Only a key (name_count, labels) whose labels are those of a
    bucket group is excepted: line 95 overwrites it. *)
Theorem histogram_raw_samples_summed (metric : Metric V) S nm ls :
  type metric = "histogram" ->
  reconciled metric = Ok S ->
  has_le ls = false ->
  nm <> (name metric ++ "_count")%string \/ group_items ls (samples metric) = [] ->
  od_get skey_eqb S (nm, ls)
  = py_sum_list
      (map row_value
         (filter (fun r => skey_eqb (row_name r, row_labels r) (nm, ls)) (samples metric))).
Proof.
  intros Th R Hle Hc.
  assert (F : Forall le_parses (samples metric)).
  { unfold reconciled, reconcile_samples in R.
    destruct (reconcile_samples_cases metric (samples metric) ([], []))
      as [[_ F]|(E & _ & _)]; [now apply F|].
    rewrite E in R. discriminate. }
  unfold reconciled in R. rewrite reconcile_samples_histogram in R by assumption.
  cbn [rbind] in R. rewrite Th in R. cbn [String.eqb Ascii.eqb Bool.eqb] in R.
  injection R as <-. rewrite accumulate_buckets_eq.
  rewrite fold_set_get_other.
  - rewrite hist_raw_fold, plain_step_get. now rewrite filter_key_unbucketed.
  - intros I. apply group_writes_keys in I. cbn [snd] in I.
    destruct I as [I|(g & Ig & E)]; [congruence|].
    unfold count_key in E. injection E as -> ->.
    destruct Hc as [Hc|Hc]; [now apply Hc|].
    destruct (buckets_spec (samples metric)) as [_ Bs].
    specialize (Bs g). unfold group_dict in Bs. rewrite Hc in Bs.
    apply (od_get_None _ labels_eqb_eq) in Bs. contradiction.
Qed.

End HistogramRaw.

(** *** The reconciliation on concrete metrics *)

Lemma collect_one_metric_per_name_witness :
  NoDup (map (@name float) out_counter) /\
  forall mn, In mn (map (@name float) out_counter) <->
             exists f row, In f fs_counter /\ In row (snd f) /\ metric_name (fst row) = mn.
Proof.
  apply (@collect_one_metric_per_name float binary64 table_text fs_counter out_counter).
  vm_compute. reflexivity.
Defined.

Lemma reconciled_one_sample_per_key_witness :
  exists S, reconciled m_hist = Ok S /\ NoDup (map fst S).
Proof.
  eexists. split; [vm_compute; reflexivity|].
  apply (@reconciled_one_sample_per_key float binary64 table_text m_hist).
  vm_compute. reflexivity.
Defined.

Lemma gauge_merged_samples_drop_pid_witness :
  reconcile m_max
  = Ok (mkMetric "temp" "Multiprocess metric" "gauge" (Some "max")
          [("temp", [("room", "attic")], 7%float)]) /\
  ~ In "pid" (map fst [("room", "attic")]).
Proof.
  assert (R : reconcile m_max
              = Ok (mkMetric "temp" "Multiprocess metric" "gauge" (Some "max")
                      [("temp", [("room", "attic")], 7%float)]))
    by (vm_compute; reflexivity).
  split; [exact R|].
  apply (@gauge_merged_samples_drop_pid float binary64 table_text m_max _ eq_refl
           (or_intror (or_introl eq_refl)) R "temp" [("room", "attic")] 7%float).
  simpl. auto.
Defined.

Lemma histogram_raw_samples_summed_witness :
  exists S,
    reconciled m_hist = Ok S /\
    od_get skey_eqb S ("lat_sum", [])
    = py_sum_list
        (map row_value
           (filter (fun r => skey_eqb (row_name r, row_labels r) ("lat_sum", []))
              (samples m_hist))).
Proof.
  eexists. split; [vm_compute; reflexivity|].
  apply (@histogram_raw_samples_summed float binary64 table_text m_hist).
  - reflexivity.
  - vm_compute. reflexivity.
  - reflexivity.
  - left. discriminate.
Defined.

(* ================================================================== *)
(** ** Death bookkeeping: what is reclaimed and what is left alone *)

Section Death.
Context {V : Type} `{Arith V}.

(** What one iteration of the loop of [mark_process_dead] leaves of the
    directory. *)
Lemma mark_file_dead_files (w : World V) f r w' :
  mark_file_dead f w = (r, w') ->
  flock_env w' = flock_env w /\
  (files w' = files w \/
   flock_env w f LOCK_EX_NB = Acquired /\
   (files w' = od_del String.eqb (files w) f \/
    exists d, files w' = od_del String.eqb (od_set String.eqb (files w) (dest_of f) d) f)).
Proof.
  rewrite mark_file_dead_cases.
  destruct (od_get String.eqb (files w) f) as [d0|] eqn:G;
    [|intros [= <- <-]; auto].
  destruct (flock_env w f LOCK_EX_NB) as [|errno] eqn:L; cbv zeta.
  - destruct (startswith f "gauge_live").
    + cbv [os_remove bind get_files put_files emit raise]. cbn [files flock_env trace].
      rewrite G. intros [= <- <-]. cbn [files flock_env]. auto.
    + rewrite compact_cases. cbn [files flock_env trace].
      destruct (flock_env w "compacting" LOCK_EX); [|intros [= <- <-]; auto].
      destruct (has_segments f); [|intros [= <- <-]; auto].
      rewrite G. intros [= <- <-]. unfold compacted. cbn [files flock_env].
      split; [reflexivity|]. right. split; [reflexivity|]. right.
      eexists. reflexivity.
  - destruct (Z.eqb errno EWOULDBLOCK); intros [= <- <-]; auto.
Qed.

Lemma mark_file_dead_frame (w : World V) f r w' g :
  mark_file_dead f w = (r, w') ->
  g <> f \/ flock_env w f LOCK_EX_NB <> Acquired ->
  dest_of f <> g ->
  od_get String.eqb (files w') g = od_get String.eqb (files w) g.
Proof.
  intros R Hg Hd. apply mark_file_dead_files in R.
  destruct R as (_ & [->|(L & [->|[d ->]])]); [reflexivity| |].
  - destruct Hg as [Hg|Hg]; [|contradiction].
    apply (od_get_del_other _ String.eqb_eq). congruence.
  - destruct Hg as [Hg|Hg]; [|contradiction].
    rewrite (od_get_del_other _ String.eqb_eq) by congruence.
    now apply (od_get_set_other _ String.eqb_eq).
Qed.

Lemma mark_file_dead_keeps (w : World V) f r w' g :
  mark_file_dead f w = (r, w') ->
  g <> f ->
  od_get String.eqb (files w) g <> None ->
  od_get String.eqb (files w') g <> None.
Proof.
  intros R Hg P. apply mark_file_dead_files in R.
  destruct R as (_ & [->|(L & [->|[d ->]])]); [exact P| |].
  - now rewrite (od_get_del_other _ String.eqb_eq) by congruence.
  - rewrite (od_get_del_other _ String.eqb_eq) by congruence.
    destruct (String.eqb_spec (dest_of f) g) as [->|N].
    + rewrite (od_get_set_same _ String.eqb_eq). discriminate.
    + now rewrite (od_get_set_other _ String.eqb_eq).
Qed.

(** X19.  [mark_process_dead] removes matched files only: a file of the
    directory that is not among the matched ones is still there when the
    run ends, however it ends. *)
Theorem mark_process_dead_keeps_unmatched (matched : list string) :
  forall (w : World V) r w' g,
    mark_process_dead matched w = (r, w') ->
    ~ In g matched ->
    od_get String.eqb (files w) g <> None ->
    od_get String.eqb (files w') g <> None.
Proof.
  induction matched as [|f rest IH]; intros w r w' g; simpl.
  - unfold ret. now intros [= <- <-].
  - unfold bind. destruct (mark_file_dead f w) as [[[]|e] w1] eqn:R.
    + intros R' N P. apply (IH w1 r w' g R'); [tauto|].
      apply (mark_file_dead_keeps _ R); [intros ->; tauto | exact P].
    + intros [= <- <-] N P.
      apply (mark_file_dead_keeps _ R); [intros ->; tauto | exact P].
Qed.

Lemma mark_process_dead_frame (matched : list string) :
  forall (w : World V) r w' g,
    mark_process_dead matched w = (r, w') ->
    (In g matched -> flock_env w g LOCK_EX_NB <> Acquired) ->
    (forall f, In f matched -> dest_of f <> g) ->
    od_get String.eqb (files w') g = od_get String.eqb (files w) g.
Proof.
  induction matched as [|f rest IH]; intros w r w' g; simpl.
  - unfold ret. now intros [= <- <-].
  - unfold bind. destruct (mark_file_dead f w) as [[[]|e] w1] eqn:R.
    + intros R' Hl Hd.
      assert (F1 : od_get String.eqb (files w1) g = od_get String.eqb (files w) g).
      { apply (mark_file_dead_frame _ R); [|apply Hd; now left].
        destruct (string_dec g f) as [->|N]; [right; apply Hl; now left | now left]. }
      rewrite <- F1. apply (IH w1 r w' g R').
      * intros I. apply mark_file_dead_files in R. destruct R as [-> _].
        apply Hl. now right.
      * intros f' I. apply Hd. now right.
    + intros [= <- <-] Hl Hd.
      apply (mark_file_dead_frame _ R); [|apply Hd; now left].
      destruct (string_dec g f) as [->|N]; [right; apply Hl; now left | now left].
Qed.

(** X20.  A file is changed by [mark_process_dead] only if it is matched
    and its probe is granted, or if it is the archive a matched file is
    compacted into.  Every other file (not matched, or matched with a
    probe that is refused, with EWOULDBLOCK or with any other error) is
    after the run what it was, however the run ends. *)
Theorem mark_process_dead_leaves_locked (matched : list string) (w : World V) r w' g :
  mark_process_dead matched w = (r, w') ->
  (In g matched -> flock_env w g LOCK_EX_NB <> Acquired) ->
  (forall f, In f matched -> dest_of f <> g) ->
  od_get String.eqb (files w') g = od_get String.eqb (files w) g.
Proof. intros R Hl Hd. now apply (mark_process_dead_frame _ _ R). Qed.

(** One iteration that returns normally after a granted probe has removed
    its file. *)
Lemma mark_file_dead_ok_gone (w w' : World V) f :
  NoDup (map fst (files w)) ->
  flock_env w f LOCK_EX_NB = Acquired ->
  mark_file_dead f w = (Ok tt, w') ->
  NoDup (map fst (files w')) /\ od_get String.eqb (files w') f = None.
Proof.
  intros ND L. rewrite mark_file_dead_cases.
  destruct (od_get String.eqb (files w) f) as [d0|] eqn:G; [|discriminate].
  rewrite L. cbv zeta.
  destruct (startswith f "gauge_live").
  - cbv [os_remove bind get_files put_files emit raise]. cbn [files flock_env trace].
    rewrite G. intros [= <-]. cbn [files]. split.
    + now apply od_del_NoDup.
    + now apply (od_get_del_same _ String.eqb_eq).
  - intros R. apply compact_ok_inv in R. destruct R as (src & _ & _ & _ & ->).
    unfold compacted. cbn [files]. split.
    + apply od_del_NoDup. now apply (od_set_NoDup _ String.eqb_eq).
    + apply (od_get_del_same _ String.eqb_eq). now apply (od_set_NoDup _ String.eqb_eq).
Qed.

(** X21.  When [mark_process_dead] returns normally and the probe of every
    matched file was granted, none of the matched files is left: each has
    been removed, or compacted and unlinked, and none has been created
    again (the matched files are distinct and none is the archive of
    another). *)
Theorem mark_process_dead_reclaims_all (matched : list string) :
  forall w w' : World V,
    NoDup (map fst (files w)) ->
    NoDup matched ->
    (forall f, In f matched ->
       flock_env w f LOCK_EX_NB = Acquired /\
       forall g, In g matched -> dest_of g <> f) ->
    mark_process_dead matched w = (Ok tt, w') ->
    forall f, In f matched -> od_get String.eqb (files w') f = None.
Proof.
  induction matched as [|f rest IH]; intros w w' ND NDm Hm; simpl.
  - intros _ f [].
  - inversion NDm as [|? ? Nin NDr]. subst.
    destruct (Hm f (or_introl eq_refl)) as (L & Hd).
    unfold bind. destruct (mark_file_dead f w) as [[[]|e] w1] eqn:R; [|discriminate].
    intros R' g Ig.
    destruct (@mark_file_dead_ok_gone w w1 f ND L R) as (ND1 & Gone).
    pose proof R as R0. apply mark_file_dead_files in R0. destruct R0 as [Efl _].
    destruct Ig as [<-|Ig].
    + rewrite <- Gone. apply (mark_process_dead_frame _ _ R').
      * intros I. contradiction.
      * intros f' I'. apply Hd. now right.
    + apply (IH w1 w' ND1 NDr); [|exact R'|exact Ig].
      intros g' Ig'. destruct (Hm g' (or_intror Ig')) as (Lg & Hdg). split.
      * now rewrite Efl.
      * intros g'' Ig''. apply Hdg. now right.
Qed.

End Death.

(** *** Death bookkeeping on concrete directories *)

Lemma mark_process_dead_keeps_unmatched_witness :
  od_get String.eqb (files (snd (mark_process_dead ["counter_123_0.db"] w_dead)))
    "gauge_min_123_0.db" <> None.
Proof.
  apply (@mark_process_dead_keeps_unmatched float binary64 ["counter_123_0.db"] w_dead
           (fst (mark_process_dead ["counter_123_0.db"] w_dead))
           (snd (mark_process_dead ["counter_123_0.db"] w_dead))
           "gauge_min_123_0.db").
  - apply surjective_pairing.
  - simpl. intuition discriminate.
  - discriminate.
Defined.

Lemma mark_process_dead_leaves_locked_witness :
  od_get String.eqb (files (snd (mark_process_dead dead_files w_dead))) "gauge_min_123_0.db"
  = od_get String.eqb (files w_dead) "gauge_min_123_0.db".
Proof.
  apply (@mark_process_dead_leaves_locked float binary64 dead_files w_dead
           (fst (mark_process_dead dead_files w_dead))
           (snd (mark_process_dead dead_files w_dead))
           "gauge_min_123_0.db").
  - apply surjective_pairing.
  - intros _. simpl. discriminate.
  - intros f [<-|[<-|[<-|[]]]]; discriminate.
Defined.

Lemma mark_process_dead_reclaims_all_witness :
  od_get String.eqb (files (snd (mark_process_dead dead_files w_reclaim)))
    "counter_123_0.db" = None /\
  od_get String.eqb (files (snd (mark_process_dead dead_files w_reclaim)))
    "gauge_liveall_123_0.db" = None /\
  od_get String.eqb (files (snd (mark_process_dead dead_files w_reclaim)))
    "gauge_min_123_0.db" = None.
Proof.
  cut (forall f, In f dead_files ->
         od_get String.eqb (files (snd (mark_process_dead dead_files w_reclaim))) f = None).
  - intros T. repeat split; apply T; simpl; tauto.
  - apply (@mark_process_dead_reclaims_all float binary64 dead_files w_reclaim
             (snd (mark_process_dead dead_files w_reclaim))).
    + repeat constructor; simpl; intuition discriminate.
    + repeat constructor; simpl; intuition discriminate.
    + intros f [<-|[<-|[<-|[]]]]; (split; [reflexivity|]);
        intros g [<-|[<-|[<-|[]]]]; discriminate.
    + reflexivity.
Defined.

(* ================================================================== *)
(** ** The coordination lock around removals; archived gauge rows *)

Section LockProtocol.
Context {V : Type} `{Arith V}.

(** X22.  [compact] unlinks its source while it holds the exclusive lock
    on the coordination file, and only then: whatever its outcome, a run of
    [compact] adds no removal outside that lock, and a run that returns
    normally has unlinked the source. *)
Theorem compact_unlinks_under_lock (w : World V) srcf r w' :
  compact srcf w = (r, w') ->
  removals_under "compacting" (trace w) ->
  removals_under "compacting" (trace w') /\
  (r = Ok tt -> In (EvRemove srcf) (trace w')).
Proof.
  intros R U. pose proof (compact_trace _ _ R) as T.
  assert (S : r = Ok tt ->
              trace w' = EvClose "compacting" :: EvRemove srcf
                           :: EvFlock "compacting" LOCK_EX
                           :: EvOpen "compacting" :: EvCompact srcf :: trace w).
  { intros ->. apply compact_ok_inv in R. destruct R as (src & _ & _ & _ & ->).
    reflexivity. }
  split.
  - destruct T as [-> | [-> | ->]]; cbn [removals_under held In]; intuition.
  - intros E. rewrite (S E). right. now left.
Qed.

(** X23.  [mark_process_dead] deletes a live gauge store outside the
    coordination lock: for a matched file whose name starts with
    'gauge_live' and whose probe is granted, the loop body opens the file,
    takes and drops the probe lock and then removes the file, holding no
    lock on the coordination file (and none at all) at that moment. *)
Theorem live_gauge_removed_outside_coordination_lock (w : World V) f :
  od_get String.eqb (files w) f <> None ->
  flock_env w f LOCK_EX_NB = Acquired ->
  startswith f "gauge_live" = true ->
  ~ In "compacting" (held (trace w)) ->
  exists w',
    mark_file_dead f w = (Ok tt, w') /\
    files w' = od_del String.eqb (files w) f /\
    trace w' = EvRemove f :: EvClose f :: EvFlock f LOCK_EX_NB :: EvOpen f :: trace w /\
    ~ removals_under "compacting" (trace w').
Proof.
  intros P L Sl Nh. rewrite mark_file_dead_cases.
  destruct (od_get String.eqb (files w) f) as [d|] eqn:G; [|contradiction].
  rewrite L, Sl. cbv zeta.
  cbv [os_remove bind get_files put_files emit raise]. cbn [files flock_env trace].
  rewrite G. eexists. split; [reflexivity|]. cbn [files trace].
  split; [reflexivity|]. split; [reflexivity|].
  cbn [removals_under held]. intros (_ & I). apply in_remove in I. destruct I as [I N].
  destruct I as [E|I]; [now apply N | contradiction].
Qed.

End LockProtocol.

Section RoundTrip.
Context {V : Type} `{Arith V} `{FloatText V}.

Lemma combine_snoc {A B} (l1 : list A) : forall (l2 : list B) a b,
  List.length l1 = List.length l2 ->
  combine (l1 ++ [a]) (l2 ++ [b]) = combine l1 l2 ++ [(a, b)].
Proof.
  induction l1 as [|x l1 IH]; intros [|y l2] a b E; simpl in *; try discriminate.
  - reflexivity.
  - f_equal. apply IH. now injection E.
Qed.

(** X24.  What [compact] archives of a gauge/all store, [collect] reads
    back as it read it from the live store: a row whose key has as many
    label names as label values gives, once re-keyed into the archive, the
    sample (same name, same labels with the pid of the dead process, same
    value) that the scan produced from the store of the live process. *)
Theorem archived_gauge_all_row_reads_back srcf pid rest key (v : V) :
  split "_" srcf = "gauge" :: "all" :: pid :: rest ->
  pid <> "archived.db" ->
  List.length (labelnames key) = List.length (labelvalues key) ->
  exists m m' : Metric V,
    scan_file [] (srcf, [(key, v)]) = Ok [(metric_name key, m)] /\
    scan_file [] (dest_of srcf, merge_rows "gauge" (Some "all") pid [(key, v)] [])
    = Ok [(metric_name key, m')] /\
    samples m = [(sample_name key, key_labels key ++ [("pid", pid)], v)] /\
    samples m' = samples m.
Proof.
  intros Hs Np El.
  assert (Ed : dest_of srcf = "gauge_all_archived.db").
  { unfold dest_of, src_mode, src_typ. rewrite Hs. reflexivity. }
  rewrite Ed, !scan_file_cases.
  assert (L : live_gauge srcf = true).
  { unfold live_gauge. rewrite Hs. cbn [hd nth]. apply String.eqb_neq in Np.
    now rewrite Np. }
  assert (Sc : scannable (srcf, [(key, v)]) = true).
  { unfold scannable. cbn [fst snd]. rewrite Hs. reflexivity. }
  rewrite Sc.
  change (scannable ("gauge_all_archived.db",
                     merge_rows "gauge" (Some "all") pid [(key, v)] [])) with true.
  cbv iota. cbn [fst snd map fold_left merge_rows read_all_values].
  eexists. eexists. split; [reflexivity|]. split; [reflexivity|].
  unfold upd_metric, raw_sample. cbn [fst snd od_get]. rewrite L.
  change (live_gauge "gauge_all_archived.db") with false. cbv iota.
  cbn [samples set_multiprocess_mode app metric_name sample_name rekey].
  rewrite Hs. cbn [nth]. split; [reflexivity|].
  unfold key_labels, zip, rekey. cbn [labelnames labelvalues].
  now rewrite combine_snoc.
Qed.

End RoundTrip.

(** *** On concrete directories *)

Lemma compact_unlinks_under_lock_witness :
  removals_under "compacting" (trace (snd (compact "counter_123_0.db" w_counter))) /\
  (Ok tt = Ok tt ->
   In (EvRemove "counter_123_0.db") (trace (snd (compact "counter_123_0.db" w_counter)))).
Proof.
  apply (@compact_unlinks_under_lock float binary64 w_counter "counter_123_0.db" (Ok tt)
           (snd (compact "counter_123_0.db" w_counter))).
  - reflexivity.
  - exact I.
Defined.

Lemma live_gauge_removed_outside_coordination_lock_witness :
  exists w',
    mark_file_dead "gauge_liveall_123_0.db" w_dead = (Ok tt, w') /\
    files w' = od_del String.eqb (files w_dead) "gauge_liveall_123_0.db" /\
    trace w' = EvRemove "gauge_liveall_123_0.db" :: EvClose "gauge_liveall_123_0.db"
                 :: EvFlock "gauge_liveall_123_0.db" LOCK_EX_NB
                 :: EvOpen "gauge_liveall_123_0.db" :: trace w_dead /\
    ~ removals_under "compacting" (trace w').
Proof.
  apply (@live_gauge_removed_outside_coordination_lock float binary64 w_dead
           "gauge_liveall_123_0.db").
  - discriminate.
  - reflexivity.
  - reflexivity.
  - simpl. tauto.
Defined.

Lemma archived_gauge_all_row_reads_back_witness :
  exists m m' : Metric float,
    scan_file [] ("gauge_all_123_0.db", [(k_temp, 3%float)])
    = Ok [(metric_name k_temp, m)] /\
    scan_file [] (dest_of "gauge_all_123_0.db",
                  merge_rows "gauge" (Some "all") "123" [(k_temp, 3%float)] [])
    = Ok [(metric_name k_temp, m')] /\
    samples m = [(sample_name k_temp, key_labels k_temp ++ [("pid", "123")], 3%float)] /\
    samples m' = samples m.
Proof.
  apply (@archived_gauge_all_row_reads_back float binary64 "gauge_all_123_0.db" "123"
           ["0.db"] k_temp 3%float).
  - reflexivity.
  - discriminate.
  - reflexivity.
Defined.

(* ================================================================== *)
(** ** Construction of the collector *)

Section Init.
Context {R : Type}.

(** X25.  Construction of the collector.  A path that is given is used as
    it is: the environment is not consulted, not even for the empty path,
    which is refused.  Without a path the environment variable decides, and
    a missing one is refused like the empty path.  A collector that is
    built holds a non-empty path that is a directory, the one given or
    else the one of the environment, and is registered with the registry
    that was passed, if any. *)
Theorem init_outcome (environ : string -> option string) (isdir : string -> bool)
  (registry : option R) :
  (forall p, init environ isdir registry (Some p)
             = if String.eqb p EmptyString || negb (isdir p)
               then Raise ValueError else Ok (p, registry)) /\
  init environ isdir registry (Some EmptyString) = Raise ValueError /\
  init environ isdir registry None
  = init environ isdir registry
      (Some (default EmptyString (environ "prometheus_multiproc_dir"))) /\
  (forall path p reg,
     init environ isdir registry path = Ok (p, reg) ->
     p <> EmptyString /\ isdir p = true /\ reg = registry /\
     (path = Some p \/ path = None /\ environ "prometheus_multiproc_dir" = Some p)).
Proof.
  split; [reflexivity|]. split; [reflexivity|]. split.
  - unfold init. now destruct (environ "prometheus_multiproc_dir").
  - intros path p reg. unfold init.
    destruct path as [q|].
    + destruct (String.eqb_spec q EmptyString) as [->|N]; [discriminate|].
      destruct (isdir q) eqn:D; simpl; [|discriminate].
      intros [= <- <-]. auto.
    + destruct (environ "prometheus_multiproc_dir") as [q|]; [|discriminate].
      destruct (String.eqb_spec q EmptyString) as [->|N]; [discriminate|].
      destruct (isdir q) eqn:D; simpl; [|discriminate].
      intros [= <- <-]. auto 6.
Qed.

End Init.
